(** * Oklab-ColorPicker: the colour-management engine

    A shallow embedding of [color-math.js] and [color-spaces.js] and the
    properties its specification states about them.

    Modelling conventions.
    - A JavaScript number is modelled by a real number ([R]): arithmetic is
      exact; rounding, overflow, NaN and signed zeros are outside the model.
      Where rounding decides what the code does, the functions are
      translated a second time on binary64 numbers, in [Module F64].
      Integers read from a [DataView] are [Z]; a [Uint8Array] is a list of
      bytes.
    - A JavaScript string is the list of its UTF-16 code units.
    - An operation whose result can leave the reals (a division by a
      variable, [Math.pow] outside its real domain) returns a [result] that
      records what happened.
    - A thrown exception is an [Err] of the error monad; the global
      [workingCS] is passed explicitly. *)

From Stdlib Require Import Floats.PrimFloat.
From Stdlib Require Import Reals Lra Lia ZArith List String Ascii Bool Psatz.
From Stdlib Require Import Strings.Byte.
Import ListNotations.
Open Scope R_scope.

(* ================================================================= *)
(** * Part I: the program                                              *)
(* ================================================================= *)

(** ** Results and exceptions *)

Inductive result (E A : Type) : Type :=
| Ok (a : A)
| Err (e : E).
Arguments Ok {E A} a.
Arguments Err {E A} e.

Definition bind {E A B : Type} (m : result E A) (k : A -> result E B)
  : result E B :=
  match m with
  | Ok a => k a
  | Err e => Err e
  end.

Notation "x <- m ;; k" := (bind m (fun x => k))
  (at level 61, m at next level, right associativity).
Notation "' p <- m ;; k" := (bind m (fun x => let 'p := x in k))
  (at level 61, p pattern, m at next level, right associativity).

(** What can go wrong in a numeric expression: a division whose divisor is
    zero, or a power that has no real value. JavaScript does not throw
    there (it produces an infinity or NaN); the model records the event. *)
Inductive num_error : Type :=
| DivisionByZero
| NotReal.

Definition num := result num_error R.

(** What [parseICCProfile] can throw: the [RangeError] of an out-of-bounds
    [DataView] read, or its own [new Error(message)]. *)
Inductive exn : Type :=
| RangeError
| Error (message : string).

(** ** Numbers *)

Module Num.

(** [x <= y] and [x < y] as JavaScript evaluates them. *)
Definition leb (x y : R) : bool := if Rle_dec x y then true else false.
Definition ltb (x y : R) : bool := if Rlt_dec x y then true else false.
Definition eqb (x y : R) : bool := if Req_dec_T x y then true else false.

(** [Math.floor] and [Math.round] (ties go up). *)
Definition floor (x : R) : Z := Zfloor x.
Definition round (x : R) : Z := Zfloor (x + 1 / 2).

(** [Math.cbrt]: the real cube root. *)
Definition cbrt (x : R) : R :=
  if Rlt_dec 0 x then Rpower x (1 / 3)
  else if Rlt_dec x 0 then - Rpower (- x) (1 / 3)
  else 0.

(** Is [y] an integer? *)
Definition is_int (y : R) : bool := eqb (IZR (Zfloor y)) y.

(** [Math.pow x y] for arbitrary real arguments. *)
Definition pow (x y : R) : num :=
  if ltb 0 x then Ok (Rpower x y)
  else if eqb x 0 then
    if ltb 0 y then Ok 0
    else if eqb y 0 then Ok 1
    else Err NotReal
  else if is_int y then
    Ok (if Z.odd (Zfloor y) then - Rpower (- x) y else Rpower (- x) y)
  else Err NotReal.

(** [x / y] with a divisor that is not a constant. *)
Definition div (x y : R) : num :=
  if eqb y 0 then Err DivisionByZero else Ok (x / y).

End Num.

(** ** Strings *)

Module JS.

Definition code_unit := N.
Definition jsstring := list code_unit.

(** A literal of the source text. *)
Definition lit (s : string) : jsstring :=
  map N_of_ascii (list_ascii_of_string s).

(** White space and line terminators, as [String.prototype.trim] removes
    them. *)
Definition is_space (c : code_unit) : bool :=
  existsb (N.eqb c)
    [9; 10; 11; 12; 13; 32; 160; 5760; 8232; 8233; 8239; 8287; 12288; 65279]%N
  || ((8192 <=? c) && (c <=? 8202))%N.

Fixpoint trim_start (s : jsstring) : jsstring :=
  match s with
  | c :: s' => if is_space c then trim_start s' else s
  | [] => []
  end.

Definition trim_end (s : jsstring) : jsstring := rev (trim_start (rev s)).

Definition trim (s : jsstring) : jsstring := trim_end (trim_start s).

(** [s.slice(from, to)] for [0 <= from]. *)
Definition slice {A : Type} (from to : nat) (s : list A) : list A :=
  firstn (to - from) (skipn from s).

(** One digit of [Number.prototype.toString(16)]. *)
Definition hex_digit (d : Z) : code_unit :=
  Z.to_N (if d <? 10 then 48 + d else 87 + d)%Z.

Fixpoint hex_digits (fuel : nat) (n : Z) (acc : jsstring) : jsstring :=
  match fuel with
  | O => acc
  | S fuel' =>
      let acc' := hex_digit (n mod 16) :: acc in
      if (n / 16 =? 0)%Z then acc' else hex_digits fuel' (n / 16) acc'
  end.

(** [n.toString(16)] for an integer [n]. *)
Definition toString16 (n : Z) : jsstring :=
  if (n <? 0)%Z then 45%N :: hex_digits (S (Z.to_nat (Z.log2 (- n)))) (- n) []
  else hex_digits (S (Z.to_nat (Z.log2 n))) n [].

(** [s.padStart(n, '0')]. *)
Definition padStart0 (n : nat) (s : jsstring) : jsstring :=
  repeat 48%N (n - List.length s) ++ s.

(** The value of a hexadecimal digit, in either case. *)
Definition hex_value (c : code_unit) : option Z :=
  if ((48 <=? c) && (c <=? 57))%N then Some (Z.of_N c - 48)%Z
  else if ((97 <=? c) && (c <=? 102))%N then Some (Z.of_N c - 87)%Z
  else if ((65 <=? c) && (c <=? 70))%N then Some (Z.of_N c - 55)%Z
  else None.

Definition is_hex (c : code_unit) : bool :=
  match hex_value c with Some _ => true | None => false end.

(** [parseInt(s, 16)] on a string of hexadecimal digits (the only
    strings [parseHex] passes to it). *)
Definition parseInt16 (s : jsstring) : Z :=
  fold_left (fun acc c =>
               match hex_value c with
               | Some d => (16 * acc + d)%Z
               | None => acc
               end) s 0%Z.

End JS.
Import JS.

(** ** color-math.js: conversions *)

Definition vec3 : Type := R * R * R.

(** Convert OKLab (L, a, b) to linear sRGB (r, g, b). *)
Definition oklabToLinearSRGB (L a b : R) : vec3 :=
  let lCubeRoot := L + 0.3963377774 * a + 0.2158037573 * b in
  let mCubeRoot := L - 0.1055613458 * a - 0.0638541728 * b in
  let sCubeRoot := L - 0.0894841775 * a - 1.2914855480 * b in
  let lLinear := lCubeRoot ^ 3 in
  let mLinear := mCubeRoot ^ 3 in
  let sLinear := sCubeRoot ^ 3 in
  let red   :=   4.0767416621 * lLinear - 3.3077115913 * mLinear + 0.2309699292 * sLinear in
  let green := - 1.2684380046 * lLinear + 2.6097574011 * mLinear - 0.3413193965 * sLinear in
  let blue  := - 0.0041960863 * lLinear - 0.7034186147 * mLinear + 1.7076147010 * sLinear in
  (red, green, blue).

(** Convert linear sRGB to linear Display P3, and back. *)
Definition linearSRGBToLinearP3 (r g b : R) : vec3 :=
  (0.8224621209 * r + 0.1775378791 * g,
   0.0331941826 * r + 0.9668058174 * g,
   0.0170826307 * r + 0.0723974407 * g + 0.9105199286 * b).

Definition linearP3ToLinearSRGB (r g b : R) : vec3 :=
  (  1.2249401762 * r - 0.2249401762 * g,
   - 0.0420569549 * r + 1.0420569549 * g,
   - 0.0196375546 * r - 0.0786360236 * g + 1.0982735782 * b).

(** [Math.atan2 y x] on the reals: the angle of the point [(x, y)], in
    [(-PI, PI]], and [0] at the origin. *)
Definition atan2 (y x : R) : R :=
  if Rlt_dec 0 x then atan (y / x)
  else if Rlt_dec x 0 then
    if Rle_dec 0 y then atan (y / x) + PI else atan (y / x) - PI
  else
    if Rlt_dec 0 y then PI / 2
    else if Rlt_dec y 0 then - (PI / 2)
    else 0.

(** Convert OKLab (a, b) to OKLCH (C, h); returns [chroma, hueDegrees]. *)
Definition oklabToOklch (a b : R) : R * R :=
  let chroma := sqrt (a * a + b * b) in
  let hueDegrees := atan2 b a * (180 / PI) in
  let hueDegrees := if Num.ltb hueDegrees 0 then hueDegrees + 360 else hueDegrees in
  (chroma, hueDegrees).

(** Convert OKLCH (C, h) to OKLab (a, b); the hue is in degrees. *)
Definition oklchToOklab (chroma hueDegrees : R) : R * R :=
  let hueRadians := hueDegrees * (PI / 180) in
  let a := chroma * cos hueRadians in
  let b := chroma * sin hueRadians in
  (a, b).

(** Convert linear sRGB (r, g, b) to OKLab (L, a, b). *)
Definition linearSRGBToOKLab (r g b : R) : vec3 :=
  let lLinear := 0.4122214708 * r + 0.5363325363 * g + 0.0514459929 * b in
  let mLinear := 0.2119034982 * r + 0.6806995451 * g + 0.1073969566 * b in
  let sLinear := 0.0883024619 * r + 0.2817188376 * g + 0.6299787005 * b in
  let lRoot := Num.cbrt lLinear in
  let mRoot := Num.cbrt mLinear in
  let sRoot := Num.cbrt sLinear in
  let L  := 0.2104542553 * lRoot + 0.7936177850 * mRoot - 0.0040720468 * sRoot in
  let a  := 1.9779984951 * lRoot - 2.4285922050 * mRoot + 0.4505937099 * sRoot in
  let ob := 0.0259040371 * lRoot + 0.7827717662 * mRoot - 0.8086757660 * sRoot in
  (L, a, ob).

(** ** color-math.js: gamma and utility functions *)

(** Apply the sRGB gamma encoding; the input is clamped to [0, 1] first.
    On the power branch the base is at least 0.0031308, where [**] is the
    real power. *)
Definition linearToGamma (linearValue : R) : R :=
  let clamped := Rmax 0 (Rmin 1 linearValue) in
  if Num.leb 0.0031308 clamped then
    1.055 * Rpower clamped (1 / 2.4) - 0.055
  else 12.92 * clamped.

(** Remove the sRGB gamma encoding. On the power branch the base is at
    least 0.09545 / 1.055. *)
Definition gammaToLinear (gammaValue : R) : R :=
  if Num.leb 0.04045 gammaValue then
    Rpower ((gammaValue + 0.055) / 1.055) 2.4
  else gammaValue / 12.92.

(** Clamp a value to the [0, 1] range. *)
Definition clamp01 (value : R) : R := Rmax 0 (Rmin 1 value).

(** Are (r, g, b) within the [0, 1] gamut, up to the tolerance? *)
Definition isInGamut (r g b : R) : bool :=
  let TOLERANCE := 5e-4 in
  Num.leb (- TOLERANCE) r && Num.leb r (1 + TOLERANCE) &&
  Num.leb (- TOLERANCE) g && Num.leb g (1 + TOLERANCE) &&
  Num.leb (- TOLERANCE) b && Num.leb b (1 + TOLERANCE).

(** Convert gamma-encoded (r, g, b) to a hex colour string. *)
Definition toByteHex (value : R) : jsstring :=
  padStart0 2 (toString16 (Num.round (clamp01 value * 255))).

Definition rgbToHex (r g b : R) : jsstring :=
  lit "#" ++ toByteHex r ++ toByteHex g ++ toByteHex b.

(** Convert a linear channel value to a 0..255 byte. *)
Definition linearToColorByte (linearValue : R) : Z :=
  Num.round (linearToGamma linearValue * 255).

(** [str.replace(/^#/, '')]. *)
Definition strip_hash (s : jsstring) : jsstring :=
  match s with
  | c :: s' => if (c =? 35)%N then s' else s
  | [] => []
  end.

(** [/^[0-9a-f]{6}$/i.test(s)]. *)
Definition is_hex6 (s : jsstring) : bool :=
  (List.length s =? 6)%nat && forallb is_hex s.

(** Parse a hex string such as "#ff8800" or "ff8800" to [r, g, b];
    [None] is the source's [null]. *)
Definition parseHex (str : jsstring) : option vec3 :=
  let str := strip_hash (trim str) in
  if negb (is_hex6 str) then None
  else
    let r := IZR (parseInt16 (slice 0 2 str)) / 255 in
    let g := IZR (parseInt16 (slice 2 4 str)) / 255 in
    let b := IZR (parseInt16 (slice 4 6 str)) / 255 in
    Some (r, g, b).

(** ** color-spaces.js: matrix utilities *)

Definition mat3 : Type := vec3 * vec3 * vec3.

(** One row of [A x B]: [R[i][j] = A[i][0]*B[0][j] + A[i][1]*B[1][j] +
    A[i][2]*B[2][j]] for [j = 0, 1, 2]. *)
Definition rowTimes (Ai : vec3) (B : mat3) : vec3 :=
  let '(ai0, ai1, ai2) := Ai in
  let '((b00, b01, b02), (b10, b11, b12), (b20, b21, b22)) := B in
  (ai0 * b00 + ai1 * b10 + ai2 * b20,
   ai0 * b01 + ai1 * b11 + ai2 * b21,
   ai0 * b02 + ai1 * b12 + ai2 * b22).

(** Multiply two 3x3 matrices. *)
Definition mat3Multiply (A B : mat3) : mat3 :=
  let '(A0, A1, A2) := A in
  (rowTimes A0 B, rowTimes A1 B, rowTimes A2 B).

(** Apply a 3x3 matrix to the vector [r, g, b]. *)
Definition mat3Apply (M : mat3) (r g b : R) : vec3 :=
  let '((m00, m01, m02), (m10, m11, m12), (m20, m21, m22)) := M in
  (m00 * r + m01 * g + m02 * b,
   m10 * r + m11 * g + m12 * b,
   m20 * r + m21 * g + m22 * b).

(** The determinant that [mat3Invert] computes. *)
Definition mat3Det (M : mat3) : R :=
  let '((a, b, c), (d, e, f), (g, h, k)) := M in
  a * (e * k - f * h) - b * (d * k - f * g) + c * (d * h - e * g).

(** Invert a 3x3 matrix (Cramer's rule); [None] is the source's [null]. *)
Definition mat3Invert (M : mat3) : option mat3 :=
  let '((a, b, c), (d, e, f), (g, h, k)) := M in
  let det := a * (e * k - f * h) - b * (d * k - f * g) + c * (d * h - e * g) in
  if Num.ltb (Rabs det) 1e-15 then None
  else
    let inv := 1 / det in
    Some (((e * k - f * h) * inv, (c * h - b * k) * inv, (b * f - c * e) * inv),
          ((f * g - d * k) * inv, (a * k - c * g) * inv, (c * d - a * f) * inv),
          ((d * h - e * g) * inv, (b * g - a * h) * inv, (a * e - b * d) * inv)).

(** ** color-spaces.js: the working colour space *)

Definition XYZ_TO_LINEAR_SRGB : mat3 :=
  ((  3.2409699419045226, - 1.5373831775700939, - 0.4986107602930034),
   (- 0.9692436362808796,   1.8759675015077202,   0.04155505740717559),
   (  0.05563007969699366, - 0.20397696064091520, 1.0569715142428786)).

Definition LINEAR_SRGB_TO_XYZ : mat3 :=
  ((0.4123907992659595,  0.357584339383878,   0.1804807884018343),
   (0.21263900587151027, 0.715168678767756,   0.07219231536073371),
   (0.01933081871559182, 0.11919477979462598, 0.9505321522496607)).

(** Bradford chromatic adaptation D50 to D65. *)
Definition BRADFORD_D50_TO_D65 : mat3 :=
  ((  0.9555766, - 0.0230393, 0.0631636),
   (- 0.0282895,   1.0099416, 0.0210077),
   (  0.0122982, - 0.0204830, 1.3299098)).

(** The working colour space object. [decode] and [encode] receive the
    value and the channel index; the channel is ignored unless
    [perChannelTRC] is set. *)
Record WorkingCS : Type := {
  name : jsstring;
  toLinearSRGB : R -> R -> R -> vec3;
  fromLinearSRGB : R -> R -> R -> vec3;
  decode : R -> Z -> num;
  encode : R -> Z -> num;
  perChannelTRC : bool
}.

Definition createWorkingCS (name : jsstring) (toSRGBMatrix fromSRGBMatrix : mat3)
    (decode encode : R -> R) : WorkingCS :=
  {| name := name;
     toLinearSRGB := fun r g b => mat3Apply toSRGBMatrix r g b;
     fromLinearSRGB := fun r g b => mat3Apply fromSRGBMatrix r g b;
     decode := fun v _ => Ok (decode v);
     encode := fun v _ => Ok (encode v);
     perChannelTRC := false |}.

(** The sRGB working colour space (identity transform). *)
Definition createSRGBWorkingCS : WorkingCS :=
  let I : mat3 := ((1, 0, 0), (0, 1, 0), (0, 0, 1)) in
  createWorkingCS (lit "sRGB") I I gammaToLinear linearToGamma.

(** The Display P3 working colour space. *)
Definition createP3WorkingCS : WorkingCS :=
  let p3ToSRGB : mat3 :=
    ((  1.2249401762, - 0.2249401762, 0.0),
     (- 0.0420569549,   1.0420569549, 0.0),
     (- 0.0196375546, - 0.0786360236, 1.0982735782)) in
  let srgbToP3 : mat3 :=
    ((0.8224621209, 0.1775378791, 0.0),
     (0.0331941826, 0.9668058174, 0.0),
     (0.0170826307, 0.0723974407, 0.9105199286)) in
  createWorkingCS (lit "Display P3") p3ToSRGB srgbToP3 gammaToLinear linearToGamma.

(** ** color-math.js: gamut helpers

    They read the global [workingCS]; here it is the first argument. *)

(** state.js: the maximum chroma of the slider, the default of
    [findMaxInGamutChroma]'s third parameter. *)
Definition CHROMA_MAX : R := 0.4.

(** Is an OKLab colour within the working colour space gamut? *)
Definition isInWorkingGamut (workingCS : WorkingCS) (L a b : R) : bool :=
  let '(linearR, linearG, linearB) := oklabToLinearSRGB L a b in
  let '(wr, wg, wb) := fromLinearSRGB workingCS linearR linearG linearB in
  isInGamut wr wg wb.

(** The loop of [findMaxInGamutChroma]: [n] more rounds of bisection. *)
Fixpoint bisectChroma (workingCS : WorkingCS) (L hueDegrees : R) (n : nat)
    (lo hi : R) : R :=
  match n with
  | O => lo
  | S n' =>
      let mid := (lo + hi) / 2 in
      let '(a, b) := oklchToOklab mid hueDegrees in
      if isInWorkingGamut workingCS L a b
      then bisectChroma workingCS L hueDegrees n' mid hi
      else bisectChroma workingCS L hueDegrees n' lo mid
  end.

(** Binary search for the maximum chroma that keeps the colour in the
    working gamut at a given lightness and hue angle. *)
Definition findMaxInGamutChroma (workingCS : WorkingCS) (L hueDegrees maxSearch : R)
  : R :=
  let '(aHi, bHi) := oklchToOklab maxSearch hueDegrees in
  if isInWorkingGamut workingCS L aHi bHi then maxSearch
  else bisectChroma workingCS L hueDegrees 20 0 maxSearch.

(** Clamp an OKLab colour to the working gamut by reducing chroma; returns
    the clamped [a, b]. *)
Definition clampToWorkingGamut (workingCS : WorkingCS) (L a b : R) : R * R :=
  if isInWorkingGamut workingCS L a b then (a, b)
  else
    let '(chroma, hue) := oklabToOklch a b in
    let maxChroma := findMaxInGamutChroma workingCS L hue chroma in
    oklchToOklab maxChroma hue.

(** ** color-spaces.js: reading the profile buffer *)

Module DataView.

Definition buffer := list byte.

Definition byteLength (buf : buffer) : Z := Z.of_nat (List.length buf).

(** The big-endian value of a run of bytes. *)
Definition be_value (bs : list byte) : Z :=
  fold_left (fun acc b => acc * 256 + Z.of_N (Byte.to_N b))%Z bs 0%Z.

(** The [n] bytes at [off]; a [RangeError] when they are not all inside
    the buffer. *)
Definition view (buf : buffer) (off : Z) (n : nat) : result exn (list byte) :=
  if ((0 <=? off) && (off + Z.of_nat n <=? byteLength buf))%Z
  then Ok (firstn n (skipn (Z.to_nat off) buf))
  else Err RangeError.

(** [dv.getUint16(off, false)], [dv.getUint32(off, false)] and
    [dv.getInt32(off, false)]. *)
Definition getUint16 (buf : buffer) (off : Z) : result exn Z :=
  bs <- view buf off 2 ;; Ok (be_value bs).

Definition getUint32 (buf : buffer) (off : Z) : result exn Z :=
  bs <- view buf off 4 ;; Ok (be_value bs).

Definition getInt32 (buf : buffer) (off : Z) : result exn Z :=
  u <- getUint32 buf off ;;
  Ok (if u <? 2 ^ 31 then u else u - 2 ^ 32)%Z.

(** [bytes[i]] of the [Uint8Array] over the buffer: [undefined] outside
    it. *)
Definition at_ (buf : buffer) (i : Z) : option byte :=
  if (i <? 0)%Z then None else nth_error buf (Z.to_nat i).

(** [String.fromCharCode(bytes[i])]: an [undefined] argument gives the
    character of code 0. *)
Definition charAt (buf : buffer) (i : Z) : ascii :=
  match at_ buf i with
  | Some b => ascii_of_byte b
  | None => Ascii.zero
  end.

(** [String.fromCharCode(bytes[o], bytes[o+1], bytes[o+2], bytes[o+3])]. *)
Definition signature (buf : buffer) (o : Z) : string :=
  String (charAt buf o)
    (String (charAt buf (o + 1))
       (String (charAt buf (o + 2))
          (String (charAt buf (o + 3)) EmptyString))).

(** [bytes.slice(from, to)] for [0 <= from]: clipped to the buffer. *)
Definition slice (buf : buffer) (from to : Z) : list byte :=
  firstn (Z.to_nat (to - from)) (skipn (Z.to_nat from) buf).

(** The loop that fills a [Uint16Array] of [n] elements from [off]. (The
    engine's limit on the size of an allocation is not modelled: nothing
    but an out-of-bounds read stops the loop.) *)
Fixpoint getUint16s (buf : buffer) (off : Z) (n : nat) : result exn (list Z) :=
  match n with
  | O => Ok []
  | S n' =>
      x <- getUint16 buf off ;;
      xs <- getUint16s buf (off + 2) n' ;;
      Ok (x :: xs)
  end.

End DataView.
Import DataView.

(** Read a signed 15.16 fixed-point number. *)
Definition readS15Fixed16 (dv : buffer) (offset : Z) : result exn R :=
  raw <- getInt32 dv offset ;;
  Ok (IZR raw / 65536).

(** ** color-spaces.js: the tag table and the profile name *)

Record tag : Type := { offset : Z; size : Z }.

(** The object [tags], as the list of its assignments, the latest first:
    the entry assigned last for a signature is the one a lookup finds. *)
Definition tag_table := list (string * tag).

Fixpoint lookup (sig : string) (tags : tag_table) : option tag :=
  match tags with
  | [] => None
  | (s, t) :: tags' => if String.eqb s sig then Some t else lookup sig tags'
  end.

(** The loop over the [n] remaining entries of the tag table, from entry
    [i]. *)
Fixpoint readTags (dv : buffer) (n : nat) (i : Z) (tags : tag_table)
  : result exn tag_table :=
  match n with
  | O => Ok tags
  | S n' =>
      let base := (132 + i * 12)%Z in
      let sig := signature dv base in
      offset <- getUint32 dv (base + 4) ;;
      size <- getUint32 dv (base + 8) ;;
      readTags dv n' (i + 1)%Z ((sig, {| offset := offset; size := size |}) :: tags)
  end.

(** [new TextDecoder('ascii').decode(bytes)]: the label selects
    windows-1252, which differs from Latin-1 on 0x80..0x9F. *)
Definition windows1252 (b : byte) : code_unit :=
  let n := Byte.to_N b in
  if ((128 <=? n) && (n <=? 159))%N then
    nth (N.to_nat (n - 128))
      [8364; 129; 8218; 402; 8222; 8230; 8224; 8225;
       710; 8240; 352; 8249; 338; 141; 381; 143;
       144; 8216; 8217; 8220; 8221; 8226; 8211; 8212;
       732; 8482; 353; 8250; 339; 157; 382; 376]%N n
  else n.

(** [s || 'Custom CS']: the empty string is falsy. *)
Definition orCustomCS (s : jsstring) : jsstring :=
  match s with
  | [] => lit "Custom CS"
  | _ => s
  end.

(** The profile description, from a 'desc' tag of type 'desc' (ICC v2) or
    'mluc' (ICC v4). *)
Definition profileDescription (dv : buffer) (tags : tag_table)
  : result exn jsstring :=
  match lookup "desc" tags with
  | None => Ok (lit "Custom CS")
  | Some t =>
      let descOff := offset t in
      let descType := signature dv descOff in
      if String.eqb descType "desc" then
        strLen <- getUint32 dv (descOff + 8) ;;
        let strBytes := slice dv (descOff + 12) (descOff + 12 + strLen - 1) in
        Ok (orCustomCS (trim (map windows1252 strBytes)))
      else if String.eqb descType "mluc" then
        recCount <- getUint32 dv (descOff + 8) ;;
        if (0 <? recCount)%Z then
          recLen <- getUint32 dv (descOff + 16) ;;
          recOff <- getUint32 dv (descOff + 20) ;;
          strData <- getUint16s dv (descOff + recOff) (Z.to_nat (recLen / 2)) ;;
          Ok (orCustomCS
                (trim (filter (fun c => negb (c =? 0)%N) (map Z.to_N strData))))
        else Ok (lit "Custom CS")
      else Ok (lit "Custom CS")
  end.

(** Read the three numbers of an XYZ tag (4 type + 4 reserved + 12 data). *)
Definition readXYZTag (dv : buffer) (t : tag) : result exn vec3 :=
  let o := (offset t + 8)%Z in
  x <- readS15Fixed16 dv o ;;
  y <- readS15Fixed16 dv (o + 4) ;;
  z <- readS15Fixed16 dv (o + 8) ;;
  Ok (x, y, z).

(** ** color-spaces.js: tone response curves

    [parseTRC] returns a pair of closures [{ decode, encode }]. The model
    keeps what each pair closes over as a [curve]; [curveDecode] and
    [curveEncode] are the bodies of the closures. *)

Inductive curve : Type :=
| Linear                                   (* 'curv', count 0 *)
| Gamma (gamma : R)                        (* 'curv' count 1; 'para' 0 and other *)
| Table (count : Z) (table invTable : list R)  (* 'curv', count at least 2 *)
| Para3 (g a b c d : R)                    (* 'para', function type 3 *)
| Para4 (g a b c d e f : R)                (* 'para', function type 4 *)
| SRGB.                                    (* gammaToLinear / linearToGamma *)

Definition invSize : Z := 4096.

(** [table[i]] of a [Float64Array]. *)
Definition at64 (table : list R) (i : Z) : R := nth (Z.to_nat i) table 0.

(** [while (ti < count - 2 && table[ti + 1] < target) ti++]; [ti] rises
    at most [count] times. *)
Fixpoint advance (fuel : nat) (table : list R) (count : Z) (target : R) (ti : Z)
  : Z :=
  match fuel with
  | O => ti
  | S fuel' =>
      if (ti <? count - 2)%Z && Num.ltb (at64 table (ti + 1)) target
      then advance fuel' table count target (ti + 1)%Z
      else ti
  end.

(** The loop that fills [invTable], from entry [i], with [n] entries to
    go. *)
Fixpoint fillInverse (n : nat) (table : list R) (count : Z) (i ti : Z) : list R :=
  match n with
  | O => []
  | S n' =>
      let target := IZR i / IZR (invSize - 1) in
      let ti := advance (Z.to_nat count) table count target ti in
      let t0 := at64 table ti in
      let t1 := at64 table (Z.min (ti + 1) (count - 1)) in
      let frac := if Num.ltb t0 t1 then (target - t0) / (t1 - t0) else 0 in
      (IZR ti + frac) / IZR (count - 1)
        :: fillInverse n' table count (i + 1)%Z ti
  end.

(** Linear interpolation in a table of [n] entries. *)
Definition interpolate (table : list R) (n : Z) (v : R) : R :=
  let x := Rmax 0 (Rmin 1 v) * IZR (n - 1) in
  let lo := Num.floor x in
  let hi := Z.min (lo + 1) (n - 1) in
  at64 table lo + (at64 table hi - at64 table lo) * (x - IZR lo).

Definition curveDecode (t : curve) (v : R) : num :=
  match t with
  | Linear => Ok v
  | Gamma gamma => Num.pow (Rmax 0 v) gamma
  | Table count table _ => Ok (interpolate table count v)
  | Para3 g a b c d =>
      if Num.leb d v then Num.pow (a * v + b) g else Ok (c * v)
  | Para4 g a b c d e f =>
      if Num.leb d v then y <- Num.pow (a * v + b) g ;; Ok (y + e)
      else Ok (c * v + f)
  | SRGB => Ok (gammaToLinear v)
  end.

Definition curveEncode (t : curve) (v : R) : num :=
  match t with
  | Linear => Ok v
  | Gamma gamma =>
      x <- Num.div 1 gamma ;;
      Num.pow (Rmax 0 v) x
  | Table _ _ invTable => Ok (interpolate invTable invSize v)
  | Para3 g a b c d =>
      let cutoff := c * d in
      if Num.leb v cutoff && negb (Num.eqb c 0) then Num.div v c
      else
        x <- Num.div 1 g ;;
        y <- Num.pow (Rmax 0 v) x ;;
        Num.div (y - b) a
  | Para4 g a b c d e f =>
      let cutoff := c * d + f in
      if Num.leb v cutoff && negb (Num.eqb c 0) then Num.div (v - f) c
      else
        x <- Num.div 1 g ;;
        y <- Num.pow (Rmax 0 (v - e)) x ;;
        Num.div (y - b) a
  | SRGB => Ok (linearToGamma v)
  end.

(** Parse a TRC (transfer response curve) tag. *)
Definition parseTRC (dv : buffer) (t : tag) : result exn curve :=
  let o := offset t in
  let type := signature dv o in
  if String.eqb type "curv" then
    count <- getUint32 dv (o + 8) ;;
    if (count =? 0)%Z then Ok Linear
    else if (count =? 1)%Z then
      raw <- getUint16 dv (o + 12) ;;
      Ok (Gamma (IZR raw / 256))
    else
      raws <- getUint16s dv (o + 12) (Z.to_nat count) ;;
      let table := map (fun raw => IZR raw / 65535) raws in
      let invTable := fillInverse (Z.to_nat invSize) table count 0 0 in
      Ok (Table count table invTable)
  else if String.eqb type "para" then
    funcType <- getUint16 dv (o + 8) ;;
    let p := fun idx : Z => readS15Fixed16 dv (o + 12 + idx * 4) in
    if (funcType =? 0)%Z then
      g <- p 0%Z ;; Ok (Gamma g)
    else if (funcType =? 3)%Z then
      g <- p 0%Z ;; a <- p 1%Z ;; b <- p 2%Z ;; c <- p 3%Z ;; d <- p 4%Z ;;
      Ok (Para3 g a b c d)
    else if (funcType =? 4)%Z then
      g <- p 0%Z ;; a <- p 1%Z ;; b <- p 2%Z ;; c <- p 3%Z ;; d <- p 4%Z ;;
      e <- p 5%Z ;; f <- p 6%Z ;;
      Ok (Para4 g a b c d e f)
    else
      g <- p 0%Z ;; Ok (Gamma g)
  else Ok SRGB.

(** [tags[sig] ? parseTRC(tags[sig]) : { decode: gammaToLinear, encode:
    linearToGamma }]. *)
Definition channelTRC (dv : buffer) (tags : tag_table) (sig : string)
  : result exn curve :=
  match lookup sig tags with
  | Some t => parseTRC dv t
  | None => Ok SRGB
  end.

(** ** color-spaces.js: parseICCProfile *)

(** Parse an ICC profile buffer and return a working colour space. *)
Definition parseICCProfile (buffer : buffer) : result exn WorkingCS :=
  let dv := buffer in
  (* Read tag table *)
  tagCount <- getUint32 dv 128 ;;
  tags <- readTags dv (Z.to_nat tagCount) 0 [] ;;
  (* Extract profile description for the name *)
  profileName <- profileDescription dv tags ;;
  (* We need rXYZ, gXYZ, bXYZ for the 3x3 matrix *)
  match lookup "rXYZ" tags, lookup "gXYZ" tags, lookup "bXYZ" tags with
  | Some tagR, Some tagG, Some tagB =>
      rXYZ <- readXYZTag dv tagR ;;
      gXYZ <- readXYZTag dv tagG ;;
      bXYZ <- readXYZTag dv tagB ;;
      let '(rX, rY, rZ) := rXYZ in
      let '(gX, gY, gZ) := gXYZ in
      let '(bX, bY, bZ) := bXYZ in
      let customToXYZ_D50 : mat3 := ((rX, gX, bX), (rY, gY, bY), (rZ, gZ, bZ)) in
      let customToXYZ_D65 := mat3Multiply BRADFORD_D50_TO_D65 customToXYZ_D50 in
      let customToLinearSRGB := mat3Multiply XYZ_TO_LINEAR_SRGB customToXYZ_D65 in
      match mat3Invert customToLinearSRGB with
      | None => Err (Error "Singular matrix in ICC profile")
      | Some linearSRGBToCustom =>
          rTRC <- channelTRC dv tags "rTRC" ;;
          gTRC <- channelTRC dv tags "gTRC" ;;
          bTRC <- channelTRC dv tags "bTRC" ;;
          let decode := fun (v : R) (ch : Z) =>
            if (ch =? 0)%Z then curveDecode rTRC v
            else if (ch =? 1)%Z then curveDecode gTRC v
            else curveDecode bTRC v in
          let encode := fun (v : R) (ch : Z) =>
            if (ch =? 0)%Z then curveEncode rTRC v
            else if (ch =? 1)%Z then curveEncode gTRC v
            else curveEncode bTRC v in
          Ok {| name := profileName;
                toLinearSRGB := fun r g b => mat3Apply customToLinearSRGB r g b;
                fromLinearSRGB := fun r g b => mat3Apply linearSRGBToCustom r g b;
                decode := decode;
                encode := encode;
                perChannelTRC := true |}
      end
  | _, _, _ => Err (Error "Not a matrix-based RGB profile (missing XYZ tags)")
  end.

(** ** color-spaces.js: importing a profile

    The part of the application state that the import touches: the active
    working colour space, the cached profile bytes, and what [alert] has
    shown. Redrawing and the debounced save do not touch it. *)

Record AppState : Type := {
  workingCS : WorkingCS;
  iccProfileBase64 : option jsstring;
  alerts : list exn
}.

(** [btoa] of the string whose code units are the bytes. *)
Definition base64Char (n : Z) : code_unit :=
  nth (Z.to_nat n)
    (lit "ABCDEFGHIJKLMNOPQRSTUVWXYZabcdefghijklmnopqrstuvwxyz0123456789+/") 0%N.

Fixpoint btoa (bs : list Z) : jsstring :=
  match bs with
  | [] => []
  | [x] => [base64Char (x / 4); base64Char (x mod 4 * 16); 61%N; 61%N]
  | [x; y] =>
      [base64Char (x / 4); base64Char (x mod 4 * 16 + y / 16);
       base64Char (y mod 16 * 4); 61%N]
  | x :: y :: z :: bs' =>
      base64Char (x / 4) :: base64Char (x mod 4 * 16 + y / 16)
        :: base64Char (y mod 16 * 4 + z / 64) :: base64Char (z mod 64)
        :: btoa bs'
  end%Z.

(** Handle the import of an ICC file; [file] is the content of
    [input.files[0]], if there is one. An exception of the [try] block is
    caught and shown by [alert]. *)
Definition handleICCImport (file : option buffer) (st : AppState) : AppState :=
  match file with
  | None => st
  | Some buffer =>
      match parseICCProfile buffer with
      | Ok cs =>
          {| workingCS := cs;
             iccProfileBase64 :=
               Some (btoa (map (fun b => Z.of_N (Byte.to_N b)) buffer));
             alerts := alerts st |}
      | Err err =>
          {| workingCS := workingCS st;
             iccProfileBase64 := iccProfileBase64 st;
             alerts := alerts st ++ [err] |}
      end
  end.

(** Reset the working colour space to the default (P3 if supported, else
    sRGB). *)
Definition resetWorkingCS (isDisplayP3Supported : bool) (st : AppState) : AppState :=
  {| workingCS := if isDisplayP3Supported then createP3WorkingCS
                  else createSRGBWorkingCS;
     iccProfileBase64 := None;
     alerts := alerts st |}.

(** ** Vocabulary of the properties *)

(** *** Triples *)

(** The three components of a triple. *)
Definition first (v : vec3) : R := fst (fst v).
Definition second (v : vec3) : R := snd (fst v).
Definition third (v : vec3) : R := snd v.

(** OKLab to linear sRGB and back. *)
Definition oklabRoundTrip (L a b : R) : vec3 :=
  let rgb := oklabToLinearSRGB L a b in
  linearSRGBToOKLab (first rgb) (second rgb) (third rgb).

(** The colour of lightness [L], hue [hue] and chroma [c] is in the gamut
    of the working colour space. *)
Definition inGamutAt (wcs : WorkingCS) (L hue c : R) : Prop :=
  isInWorkingGamut wcs L (fst (oklchToOklab c hue)) (snd (oklchToOklab c hue))
  = true.

(** *** Hex strings *)

(** A lower-case hexadecimal digit, and a hexadecimal digit of either
    case. *)
Definition lower_hex (c : code_unit) : Prop := In c (lit "0123456789abcdef").
Definition any_hex (c : code_unit) : Prop :=
  In c (lit "0123456789abcdefABCDEF").

(** Exactly six hexadecimal digits after an optional leading '#'. *)
Definition hex6_form (s : jsstring) : Prop :=
  exists body : jsstring,
    (s = body \/ s = 35%N :: body) /\
    List.length body = 6%nat /\ Forall any_hex body.

(** A run of white space. *)
Definition spaces (s : jsstring) : Prop := Forall (fun c => is_space c = true) s.

(** Equality of strings, as a test. *)
Definition jsstring_eqb (s t : jsstring) : bool :=
  if list_eq_dec N.eq_dec s t then true else false.

(** [p] holds of every integer in [0, n). *)
Fixpoint all_below (n : nat) (p : Z -> bool) : bool :=
  match n with
  | O => true
  | S n' => p (Z.of_nat n') && all_below n' p
  end.

(** *** Tone curves *)

(** The power-law inverse: the second [return] of the [encode] closures of
    the parametric curves, for the input [x] ([v] for type 3, [v - e] for
    type 4). *)
Definition powerLawInverse (g a b x : R) : num :=
  p <- Num.div 1 g ;;
  y <- Num.pow (Rmax 0 x) p ;;
  Num.div (y - b) a.

(** *** Profiles *)

(** The tag table that [parseICCProfile] reads from a buffer. *)
Definition tagsOf (buffer : buffer) : result exn tag_table :=
  tagCount <- getUint32 buffer 128 ;;
  readTags buffer (Z.to_nat tagCount) 0 [].

(** The forward matrix "profile linear RGB to linear sRGB" that
    [parseICCProfile] derives from the three primaries. *)
Definition forwardMatrixOf (rXYZ gXYZ bXYZ : vec3) : mat3 :=
  let '(rX, rY, rZ) := rXYZ in
  let '(gX, gY, gZ) := gXYZ in
  let '(bX, bY, bZ) := bXYZ in
  mat3Multiply XYZ_TO_LINEAR_SRGB
    (mat3Multiply BRADFORD_D50_TO_D65
       ((rX, gX, bX), (rY, gY, bY), (rZ, gZ, bZ))).

(** A matrix within 1e-3 of the identity, coefficient by coefficient. *)
Definition nearIdentity (M : mat3) : Prop :=
  let '((a, b, c), (d, e, f), (g, h, k)) := M in
  (Rabs (a - 1) <= 1e-3 /\ Rabs b <= 1e-3 /\ Rabs c <= 1e-3) /\
  (Rabs d <= 1e-3 /\ Rabs (e - 1) <= 1e-3 /\ Rabs f <= 1e-3) /\
  (Rabs g <= 1e-3 /\ Rabs h <= 1e-3 /\ Rabs (k - 1) <= 1e-3).

(** The two messages of [parseICCProfile]. *)
Definition notMatrixBased : exn :=
  Error "Not a matrix-based RGB profile (missing XYZ tags)".
Definition singularMatrix : exn := Error "Singular matrix in ICC profile".

(** *** Sample profiles *)

Definition byteOfZ (n : Z) : byte :=
  match Byte.of_N (Z.to_N (n mod 256)) with
  | Some b => b
  | None => x00
  end.

(** A 32-bit big-endian number, and one entry of the tag table. *)
Definition u32be (n : Z) : list byte :=
  [byteOfZ (n / 16777216); byteOfZ (n / 65536); byteOfZ (n / 256); byteOfZ n].

Definition tagEntry (sig : string) (offset size : Z) : list byte :=
  list_byte_of_string sig ++ u32be offset ++ u32be size.

(** An XYZ tag: type signature, reserved word, three s15Fixed16 numbers. *)
Definition xyzData (x y z : Z) : list byte :=
  list_byte_of_string "XYZ " ++ u32be 0 ++ u32be x ++ u32be y ++ u32be z.

(** A profile whose table has 'rXYZ' and 'bXYZ' (the sRGB red and blue
    primaries) but no 'gXYZ'. *)
Definition profileWithoutGreen : buffer :=
  repeat x00 128 ++ u32be 2
    ++ tagEntry "rXYZ" 156 20 ++ tagEntry "bXYZ" 176 20
    ++ xyzData 28578 14581 912 ++ xyzData 9375 3972 46788.

(** A file cut off inside its tag table: the header and a tag count of 1,
    and nothing after. *)
Definition truncatedProfile : buffer := repeat x00 128 ++ u32be 1.

(** A profile whose three primaries are the same tag data (the D50 white
    point). *)
Definition profileWithEqualPrimaries : buffer :=
  repeat x00 128 ++ u32be 3
    ++ tagEntry "rXYZ" 168 20 ++ tagEntry "gXYZ" 168 20
    ++ tagEntry "bXYZ" 168 20
    ++ xyzData 63190 65536 54061.

(** An ICC v4 profile without primaries (its colour transform is the
    lookup table of 'A2B0'), named "P3" by a 'desc' tag of type 'mluc':
    one record, language 'en', country 'US', 4 bytes of UTF-16 at offset 28
    of the tag. *)
Definition lutProfileV4 : buffer :=
  repeat x00 128 ++ u32be 2
    ++ tagEntry "desc" 156 32 ++ tagEntry "A2B0" 188 8
    ++ (list_byte_of_string "mluc" ++ u32be 0 ++ u32be 1 ++ u32be 12
          ++ list_byte_of_string "enUS" ++ u32be 4 ++ u32be 28
          ++ [x00; x50; x00; x33])
    ++ (list_byte_of_string "mft2" ++ u32be 0).

(** A profile with the three sRGB primaries (adapted to D50) and no tone
    curves. *)
Definition srgbPrimariesProfile : buffer :=
  repeat x00 128 ++ u32be 3
    ++ tagEntry "rXYZ" 168 20 ++ tagEntry "gXYZ" 188 20
    ++ tagEntry "bXYZ" 208 20
    ++ xyzData 28578 14581 912 ++ xyzData 25238 46983 6364
    ++ xyzData 9375 3972 46788.

(** ** state.js: the picker state

    The globals that the picker, the Lighting Lab and the history read and
    write. The drawing functions read them and write only to the canvases
    and the document. *)

(** A history stack [{ entries, pos }]; each entry is [[L, a, b]]. *)
Record History : Type := { entries : list vec3; pos : Z }.

Record Picker : Type := {
  currentL : R; currentA : R; currentB : R;
  isLightingOpen : bool;
  editTarget : string;
  albedoL : R; albedoA : R; albedoB : R;
  lightL : R; lightA : R; lightB : R;
  lightIntensity : R;
  historyMain : History; historyAlbedo : History; historyLight : History
}.

Definition INTENSITY_MAX : R := 10.0.
Definition MAX_HISTORY : nat := 200.
Definition AB_RANGE : R := 0.4.

(** The state as [state.js] initialises it. *)
Definition initialPicker : Picker :=
  {| currentL := 0.7; currentA := 0.0; currentB := 0.0;
     isLightingOpen := false; editTarget := "albedo";
     albedoL := 0.7; albedoA := 0.0; albedoB := 0.0;
     lightL := 1.0; lightA := 0.0; lightB := 0.0;
     lightIntensity := 1.0;
     historyMain := {| entries := [(0.7, 0.0, 0.0)]; pos := 0 |};
     historyAlbedo := {| entries := [(0.7, 0.0, 0.0)]; pos := 0 |};
     historyLight := {| entries := [(1.0, 0.0, 0.0)]; pos := 0 |} |}.

(** Assignments to the globals. *)
Definition setCurrent (L a b : R) (st : Picker) : Picker :=
  {| currentL := L; currentA := a; currentB := b;
     isLightingOpen := isLightingOpen st; editTarget := editTarget st;
     albedoL := albedoL st; albedoA := albedoA st; albedoB := albedoB st;
     lightL := lightL st; lightA := lightA st; lightB := lightB st;
     lightIntensity := lightIntensity st;
     historyMain := historyMain st; historyAlbedo := historyAlbedo st;
     historyLight := historyLight st |}.

Definition setAlbedo (L a b : R) (st : Picker) : Picker :=
  {| currentL := currentL st; currentA := currentA st; currentB := currentB st;
     isLightingOpen := isLightingOpen st; editTarget := editTarget st;
     albedoL := L; albedoA := a; albedoB := b;
     lightL := lightL st; lightA := lightA st; lightB := lightB st;
     lightIntensity := lightIntensity st;
     historyMain := historyMain st; historyAlbedo := historyAlbedo st;
     historyLight := historyLight st |}.

Definition setLight (L a b : R) (st : Picker) : Picker :=
  {| currentL := currentL st; currentA := currentA st; currentB := currentB st;
     isLightingOpen := isLightingOpen st; editTarget := editTarget st;
     albedoL := albedoL st; albedoA := albedoA st; albedoB := albedoB st;
     lightL := L; lightA := a; lightB := b;
     lightIntensity := lightIntensity st;
     historyMain := historyMain st; historyAlbedo := historyAlbedo st;
     historyLight := historyLight st |}.

Definition setLightIntensity (v : R) (st : Picker) : Picker :=
  {| currentL := currentL st; currentA := currentA st; currentB := currentB st;
     isLightingOpen := isLightingOpen st; editTarget := editTarget st;
     albedoL := albedoL st; albedoA := albedoA st; albedoB := albedoB st;
     lightL := lightL st; lightA := lightA st; lightB := lightB st;
     lightIntensity := v;
     historyMain := historyMain st; historyAlbedo := historyAlbedo st;
     historyLight := historyLight st |}.

(** ** The picker and its edit target *)

(** Write the current picker state into the active edit target (albedo or
    light). Only acts when the Lighting Lab is open. *)
Definition writePickerToEditTarget (st : Picker) : Picker :=
  if negb (isLightingOpen st) then st
  else if String.eqb (editTarget st) "albedo"
  then setAlbedo (currentL st) (currentA st) (currentB st) st
  else setLight (currentL st) (currentA st) (currentB st) st.

(** Load the active edit target's colour into the picker state. *)
Definition syncPickerToEditTarget (st : Picker) : Picker :=
  if negb (isLightingOpen st) then st
  else if String.eqb (editTarget st) "albedo"
  then setCurrent (albedoL st) (albedoA st) (albedoB st) st
  else setCurrent (lightL st) (lightA st) (lightB st) st.

(** What [renderAll] does to the state: it starts with
    [syncPickerToEditTarget]; the rest draws. *)
Definition renderAll (st : Picker) : Picker := syncPickerToEditTarget st.

(** ** The pointer handlers

    [x] and [y] are the values of [(event.clientX - rect.left) /
    rect.width] and [(event.clientY - rect.top) / rect.height]. *)

Definition updateABFromPointer (workingCS : WorkingCS) (x y : R) (st : Picker)
  : Picker :=
  let normalizedX := clamp01 x in
  let normalizedY := clamp01 y in
  let targetA := normalizedX * 2 * AB_RANGE - AB_RANGE in
  let targetB := AB_RANGE - normalizedY * 2 * AB_RANGE in
  let '(a, b) := clampToWorkingGamut workingCS (currentL st) targetA targetB in
  setCurrent (currentL st) a b st.

Definition updateLightnessFromPointer (workingCS : WorkingCS) (x : R)
    (st : Picker) : Picker :=
  let L := clamp01 x in
  let '(a, b) := clampToWorkingGamut workingCS L (currentA st) (currentB st) in
  setCurrent L a b st.

Definition updateChromaFromPointer (workingCS : WorkingCS) (x : R) (st : Picker)
  : Picker :=
  let newChroma := clamp01 x * CHROMA_MAX in
  let '(_, currentHue) := oklabToOklch (currentA st) (currentB st) in
  let '(targetA, targetB) := oklchToOklab newChroma currentHue in
  let '(a, b) := clampToWorkingGamut workingCS (currentL st) targetA targetB in
  setCurrent (currentL st) a b st.

Definition updateHueFromPointer (workingCS : WorkingCS) (x : R) (st : Picker)
  : Picker :=
  let newHue := clamp01 x * 360 in
  let '(currentChroma, _) := oklabToOklch (currentA st) (currentB st) in
  let '(targetA, targetB) := oklchToOklab currentChroma newHue in
  let '(a, b) := clampToWorkingGamut workingCS (currentL st) targetA targetB in
  setCurrent (currentL st) a b st.

Definition updateIntensityFromPointer (x : R) (st : Picker) : Picker :=
  setLightIntensity (Rmax 0 (Rmin INTENSITY_MAX (x * INTENSITY_MAX))) st.

(** ** rendering.js: the lit colour *)

(** The lit colour: albedo x light, component-wise in linear sRGB, scaled
    by the intensity. Returns OKLab [[L, a, b]]. *)
Definition computeLitColor (st : Picker) : vec3 :=
  let '(albR, albG, albB) :=
    oklabToLinearSRGB (albedoL st) (albedoA st) (albedoB st) in
  let '(litR, litG, litB) :=
    oklabToLinearSRGB (lightL st) (lightA st) (lightB st) in
  let resultR := albR * litR * lightIntensity st in
  let resultG := albG * litG * lightIntensity st in
  let resultB := albB * litB * lightIntensity st in
  linearSRGBToOKLab resultR resultG resultB.

(** ** rendering.js: the a,b picker *)

Definition PICKER_SIZE : Z := 300.

(** The OKLab (a, b) of the pixel in column [x] and row [y]: the left of
    the canvas is -AB_RANGE, the top is +AB_RANGE. *)
Definition abPickerValue (x y : Z) : R * R :=
  let step := (2 * AB_RANGE) / IZR (PICKER_SIZE - 1) in
  let bValue := AB_RANGE - IZR y * step in
  let aValue := - AB_RANGE + IZR x * step in
  (aValue, bValue).

(** The body of the loops of [renderABPickerColors]: the four bytes
    written for the pixel in column [x] and row [y]. Pixels out of gamut
    are darkened, with a diagonal stripe pattern. ([mod] is the [%] of
    JavaScript on the [x] and [y] of the loops, which are not negative.) *)
Definition abPickerPixel (workingCS : WorkingCS) (isDisplayP3Supported : bool)
    (currentL : R) (x y : Z) : Z * Z * Z * Z :=
  let '(aValue, bValue) := abPickerValue x y in
  let '(linearR, linearG, linearB) := oklabToLinearSRGB currentL aValue bValue in
  let inGamut := isInWorkingGamut workingCS currentL aValue bValue in
  let '(byteR, byteG, byteB) :=
    if isDisplayP3Supported then
      let '(p3R, p3G, p3B) := linearSRGBToLinearP3 linearR linearG linearB in
      (linearToColorByte p3R, linearToColorByte p3G, linearToColorByte p3B)
    else
      (linearToColorByte linearR, linearToColorByte linearG,
       linearToColorByte linearB) in
  let '(byteR, byteG, byteB) :=
    if negb inGamut then
      let byteR := Num.round (IZR byteR * 0.15) in
      let byteG := Num.round (IZR byteG * 0.15) in
      let byteB := Num.round (IZR byteB * 0.15) in
      if ((x + y) mod 6 <? 1)%Z then
        (Z.min 255 (byteR + 35), Z.min 255 (byteG + 35),
         Z.min 255 (byteB + 35))%Z
      else (byteR, byteG, byteB)
    else (byteR, byteG, byteB) in
  (byteR, byteG, byteB, 255%Z).

(** The canvas coordinates at which [drawABPicker] draws the crosshair. *)
Definition abPickerCursor (st : Picker) : R * R :=
  let cursorX :=
    ((currentA st + AB_RANGE) / (2 * AB_RANGE)) * IZR (PICKER_SIZE - 1) in
  let cursorY :=
    ((AB_RANGE - currentB st) / (2 * AB_RANGE)) * IZR (PICKER_SIZE - 1) in
  (cursorX, cursorY).

(** ** color-math.js: the colour selection history *)

(** The three stacks; [getActiveHistory] returns one of the three
    objects, and its callers write to the object they got. *)
Inductive stack : Type := MainStack | AlbedoStack | LightStack.

Definition activeStack (st : Picker) : stack :=
  if negb (isLightingOpen st) then MainStack
  else if String.eqb (editTarget st) "albedo" then AlbedoStack
  else LightStack.

Definition historyOf (k : stack) (st : Picker) : History :=
  match k with
  | MainStack => historyMain st
  | AlbedoStack => historyAlbedo st
  | LightStack => historyLight st
  end.

Definition getActiveHistory (st : Picker) : History :=
  historyOf (activeStack st) st.

(** A write to the stack [k]. *)
Definition setHistory (k : stack) (h : History) (st : Picker) : Picker :=
  {| currentL := currentL st; currentA := currentA st; currentB := currentB st;
     isLightingOpen := isLightingOpen st; editTarget := editTarget st;
     albedoL := albedoL st; albedoA := albedoA st; albedoB := albedoB st;
     lightL := lightL st; lightA := lightA st; lightB := lightB st;
     lightIntensity := lightIntensity st;
     historyMain := match k with MainStack => h | _ => historyMain st end;
     historyAlbedo := match k with AlbedoStack => h | _ => historyAlbedo st end;
     historyLight := match k with LightStack => h | _ => historyLight st end |}.

(** [h.entries[h.entries.length - 1]]: [undefined] for an empty array. *)
Definition lastEntry (h : History) : option vec3 :=
  match entries h with
  | [] => None
  | _ :: _ => nth_error (entries h) (List.length (entries h) - 1)
  end.

(** The test for a duplicate of the last entry. *)
Definition sameColor (last : vec3) (L a b : R) : bool :=
  let '(l0, l1, l2) := last in
  Num.ltb (Rabs (l0 - L)) 1e-6 &&
  Num.ltb (Rabs (l1 - a)) 1e-6 &&
  Num.ltb (Rabs (l2 - b)) 1e-6.

(** [push], [shift] when the stack is over its limit, and the move of the
    position to the new top. *)
Definition pushEntry (h : History) (c : vec3) : History :=
  let es := entries h ++ [c] in
  let es := if (MAX_HISTORY <? List.length es)%nat then tl es else es in
  {| entries := es; pos := Z.of_nat (List.length es) - 1 |}.

(** Push the current colour onto the active history stack. *)
Definition pushColorToHistory (st : Picker) : Picker :=
  let k := activeStack st in
  let h := historyOf k st in
  let pushed :=
    setHistory k (pushEntry h (currentL st, currentA st, currentB st)) st in
  match lastEntry h with
  | Some last =>
      if sameColor last (currentL st) (currentA st) (currentB st) then st
      else pushed
  | None => pushed
  end.

(** [h.entries[h.pos]]. *)
Definition entryAt (h : History) : option vec3 :=
  if (pos h <? 0)%Z then None else nth_error (entries h) (Z.to_nat (pos h)).

(** Navigate to the entry at the position of the stack [k] and apply its
    colour. [None] is the [TypeError] of destructuring [undefined]. *)
Definition applyHistoryEntry (k : stack) (st : Picker) : option Picker :=
  match entryAt (historyOf k st) with
  | None => None
  | Some (L, a, b) =>
      Some (renderAll (writePickerToEditTarget (setCurrent L a b st)))
  end.

(** Step backward and forward in the active history. *)
Definition historyBack (st : Picker) : option Picker :=
  let k := activeStack st in
  let h := historyOf k st in
  if (0 <? pos h)%Z then
    applyHistoryEntry k
      (setHistory k {| entries := entries h; pos := pos h - 1 |} st)
  else Some st.

Definition historyForward (st : Picker) : option Picker :=
  let k := activeStack st in
  let h := historyOf k st in
  if (pos h <? Z.of_nat (List.length (entries h)) - 1)%Z then
    applyHistoryEntry k
      (setHistory k {| entries := entries h; pos := pos h + 1 |} st)
  else Some st.

(** Commit a new OKLab colour from an editable field. *)
Definition commitEditedColor (newL newA newB : R) (st : Picker) : Picker :=
  pushColorToHistory
    (writePickerToEditTarget (setCurrent (clamp01 newL) newA newB st)).

(** The commit of the intensity field, for the number [v] that
    [parseFloat] returned. *)
Definition commitIntensity (v : R) (st : Picker) : Picker :=
  if Num.ltb v 0 then st
  else setLightIntensity (Rmin v INTENSITY_MAX) st.

(** ** Saving and restoring *)

Definition SAVE_HISTORY_CAP : nat := 50.

(** [capHistory] of [saveState]: the last entries of a stack. The
    subtraction of natural numbers stops at 0, as [Math.max(0, ...)]
    does. *)
Definition capHistory (h : History) : History :=
  let start := (List.length (entries h) - SAVE_HISTORY_CAP)%nat in
  {| entries := skipn start (entries h);
     pos := Z.max 0 (pos h - Z.of_nat start) |}.

(** [loadHistory] of [restoreState]; [src] is [None] when the saved
    object has no such stack, or one whose [entries] is not an array. *)
Definition loadHistory (target : History) (src : option History) : History :=
  match src with
  | Some src =>
      if (0 <? List.length (entries src))%nat then
        {| entries := entries src;
           pos := Z.min (pos src) (Z.of_nat (List.length (entries src)) - 1) |}
      else target
  | None => target
  end.

(** [atob]: white space is dropped, a final '=' or '==' is dropped when
    the length is a multiple of four, and what is left is decoded, six
    bits a character; [None] is its [InvalidCharacterError]. *)
Definition is_ascii_whitespace (c : code_unit) : bool :=
  existsb (N.eqb c) [9; 10; 12; 13; 32]%N.

Definition base64Value (c : code_unit) : option Z :=
  if ((65 <=? c) && (c <=? 90))%N then Some (Z.of_N c - 65)%Z
  else if ((97 <=? c) && (c <=? 122))%N then Some (Z.of_N c - 71)%Z
  else if ((48 <=? c) && (c <=? 57))%N then Some (Z.of_N c + 4)%Z
  else if (c =? 43)%N then Some 62%Z
  else if (c =? 47)%N then Some 63%Z
  else None.

Fixpoint base64Values (s : jsstring) : option (list Z) :=
  match s with
  | [] => Some []
  | c :: s' =>
      match base64Value c, base64Values s' with
      | Some v, Some vs => Some (v :: vs)
      | _, _ => None
      end
  end.

(** The string without the '=' or '==' it ends with. *)
Fixpoint stripPadding (s : jsstring) : jsstring :=
  match s with
  | [] => []
  | c :: s' =>
      if jsstring_eqb s (lit "==") || jsstring_eqb s (lit "=") then []
      else c :: stripPadding s'
  end.

(** The bytes of a run of six-bit values; the bits left over at the end
    are dropped. *)
Fixpoint decodeSextets (vs : list Z) : list Z :=
  match vs with
  | a :: b :: c :: d :: vs' =>
      (a * 4 + b / 16) :: (b mod 16 * 16 + c / 4) :: (c mod 4 * 64 + d)
        :: decodeSextets vs'
  | [a; b; c] => [a * 4 + b / 16; b mod 16 * 16 + c / 4]
  | [a; b] => [a * 4 + b / 16]
  | _ => []
  end%Z.

Definition atob (data : jsstring) : option jsstring :=
  let data := filter (fun c => negb (is_ascii_whitespace c)) data in
  let data :=
    if (List.length data mod 4 =? 0)%nat then stripPadding data else data in
  if (List.length data mod 4 =? 1)%nat then None
  else
    match base64Values data with
    | Some vs => Some (map Z.to_N (decodeSextets vs))
    | None => None
    end.

(** The ICC part of [restoreState]: [saved] is [s.iccProfileBase64]
    ([None] for [null]); an exception of [atob] or of [parseICCProfile] is
    caught and the working colour space is kept. *)
Definition restoreICC (saved : option jsstring) (st : AppState) : AppState :=
  match saved with
  | None | Some [] => st
  | Some s =>
      match atob s with
      | None => st
      | Some binary =>
          let bytes := map (fun c => byteOfZ (Z.of_N c)) binary in
          match parseICCProfile bytes with
          | Ok cs =>
              {| workingCS := cs;
                 iccProfileBase64 := Some s;
                 alerts := alerts st |}
          | Err _ => st
          end
      end
  end.

(** *** Invariants *)

(** The 3x3 identity matrix. *)
Definition identity3 : mat3 := ((1, 0, 0), (0, 1, 0), (0, 0, 1)).

(** A history stack that navigation can use: it is not empty, it is
    within its limit, and its position names one of its entries. *)
Definition wellFormed (h : History) : Prop :=
  (0 < List.length (entries h) <= MAX_HISTORY)%nat /\
  (0 <= pos h < Z.of_nat (List.length (entries h)))%Z.

(** The picker's colour is in the gamut of the working colour space. *)
Definition pickerInGamut (wcs : WorkingCS) (st : Picker) : Prop :=
  isInWorkingGamut wcs (currentL st) (currentA st) (currentB st) = true.

(** Every neutral colour of lightness [0, 1] is in the gamut. *)
Definition neutralsInGamut (wcs : WorkingCS) : Prop :=
  forall L : R, 0 <= L <= 1 -> isInWorkingGamut wcs L 0 0 = true.

(** The integers that a [Uint8Array] holds. *)
Definition bytesOf (buffer : buffer) : list Z :=
  map (fun b => Z.of_N (Byte.to_N b)) buffer.

(** *** A sample curve *)

(** A 'curv' tag with the two entries 0 and 65535. *)
Definition twoPointCurve : buffer :=
  list_byte_of_string "curv" ++ u32be 0 ++ u32be 2
    ++ [x00; x00; xff; xff].

(** *** More sample data *)

(** A profile whose blue primary is the sum of the red and the green one:
    the three primaries are linearly dependent. *)
Definition profileWithDependentPrimaries : buffer :=
  repeat x00 128 ++ u32be 3
    ++ tagEntry "rXYZ" 168 20 ++ tagEntry "gXYZ" 188 20
    ++ tagEntry "bXYZ" 208 20
    ++ xyzData 10166 65113 61598 ++ xyzData 60865 13758 58305
    ++ xyzData 71031 78871 119903.

(** A matrix that the inversion handles well within the precision of the
    numbers: coefficients of magnitude at most 2 and a determinant of
    magnitude at least 1/10. *)
Definition wellConditioned (M : mat3) : Prop :=
  let '((a, b, c), (d, e, f), (g, h, k)) := M in
  (Rabs a <= 2 /\ Rabs b <= 2 /\ Rabs c <= 2) /\
  (Rabs d <= 2 /\ Rabs e <= 2 /\ Rabs f <= 2) /\
  (Rabs g <= 2 /\ Rabs h <= 2 /\ Rabs k <= 2) /\
  1 / 10 <= Rabs (mat3Det M).

(** Two vectors, and two matrices, that agree within [eps], coefficient
    by coefficient. *)
Definition vec3Within (eps : R) (u v : vec3) : Prop :=
  Rabs (first u - first v) <= eps /\ Rabs (second u - second v) <= eps /\
  Rabs (third u - third v) <= eps.

Definition mat3Within (eps : R) (A B : mat3) : Prop :=
  vec3Within eps (fst (fst A)) (fst (fst B)) /\
  vec3Within eps (snd (fst A)) (snd (fst B)) /\
  vec3Within eps (snd A) (snd B).

(** A matrix none of whose coefficients is a binary fraction. *)
Definition sampleMatrix : mat3 :=
  ((0.6, 0.3, 0.1), (0.2, 0.7, 0.1), (0.1, 0.2, 0.9)).

(** The most code units that a description read from a buffer of at most
    65536 bytes can hold. *)
Definition MAX_DESCRIPTION_UNITS : Z := 32768.

(** A picker whose active stack holds three colours, the position on the
    last one. *)
Definition threeColours : History :=
  {| entries := [(0.5, 0, 0); (0.6, 0.1, 0); (0.7, 0.1, 0.05)]; pos := 2 |}.

Definition pickerWithHistory : Picker :=
  setHistory MainStack threeColours initialPicker.

(** A stack of sixty colours, the position on the entry of index 55. *)
Definition sixtyColours : History :=
  {| entries := map (fun n : nat => (INR n / 100, 0, 0)) (seq 0 60);
     pos := 55 |}.
(** ** The same code in binary64

    Where rounding decides what the code does (the test of a determinant
    against 1e-15, a sum that rounds to 360, an overflow), the functions
    are translated a second time, on IEEE 754 binary64 numbers, the
    Numbers of JavaScript: [+], [-], [*], [/] and [Math.sqrt] round to
    nearest, ties to even. [Math.atan2], [Math.cos] and [Math.sin], which
    ECMAScript lets an engine approximate, are a parameter. *)

(* A decimal literal denotes the nearest binary64 number, as in
   JavaScript. *)
Set Warnings "-inexact-float".

Module F64.

Local Open Scope float_scope.

Definition vec3 : Type := float * float * float.
Definition mat3 : Type := vec3 * vec3 * vec3.

(** *** color-spaces.js: matrix utilities *)

Definition rowTimes (Ai : vec3) (B : mat3) : vec3 :=
  let '(ai0, ai1, ai2) := Ai in
  let '((b00, b01, b02), (b10, b11, b12), (b20, b21, b22)) := B in
  (ai0 * b00 + ai1 * b10 + ai2 * b20,
   ai0 * b01 + ai1 * b11 + ai2 * b21,
   ai0 * b02 + ai1 * b12 + ai2 * b22).

(** Multiply two 3x3 matrices. *)
Definition mat3Multiply (A B : mat3) : mat3 :=
  let '(A0, A1, A2) := A in
  (rowTimes A0 B, rowTimes A1 B, rowTimes A2 B).

(** Apply a 3x3 matrix to the vector [r, g, b]. *)
Definition mat3Apply (M : mat3) (v : vec3) : vec3 :=
  let '(r, g, b) := v in
  let '((m00, m01, m02), (m10, m11, m12), (m20, m21, m22)) := M in
  (m00 * r + m01 * g + m02 * b,
   m10 * r + m11 * g + m12 * b,
   m20 * r + m21 * g + m22 * b).

(** The determinant as [mat3Invert] computes it. *)
Definition mat3Det (M : mat3) : float :=
  let '((a, b, c), (d, e, f), (g, h, k)) := M in
  a * (e * k - f * h) - b * (d * k - f * g) + c * (d * h - e * g).

(** Invert a 3x3 matrix (Cramer's rule); [None] is the source's [null]. *)
Definition mat3Invert (M : mat3) : option mat3 :=
  let '((a, b, c), (d, e, f), (g, h, k)) := M in
  let det := a * (e * k - f * h) - b * (d * k - f * g) + c * (d * h - e * g) in
  if PrimFloat.abs det <? 1e-15 then None
  else
    let inv := 1 / det in
    Some (((e * k - f * h) * inv, (c * h - b * k) * inv, (b * f - c * e) * inv),
          ((f * g - d * k) * inv, (a * k - c * g) * inv, (c * d - a * f) * inv),
          ((d * h - e * g) * inv, (b * g - a * h) * inv, (a * e - b * d) * inv)).

Definition XYZ_TO_LINEAR_SRGB : mat3 :=
  ((  3.2409699419045226, - 1.5373831775700939, - 0.4986107602930034),
   (- 0.9692436362808796,   1.8759675015077202,   0.04155505740717559),
   (  0.05563007969699366, - 0.20397696064091520, 1.0569715142428786)).

Definition BRADFORD_D50_TO_D65 : mat3 :=
  ((  0.9555766, - 0.0230393, 0.0631636),
   (- 0.0282895,   1.0099416, 0.0210077),
   (  0.0122982, - 0.0204830, 1.3299098)).

(** *** color-spaces.js: the matrices of a profile *)

(** The Number of an integer (exact below 2^53). *)
Fixpoint ofPositive (p : positive) : float :=
  match p with
  | xH => 1
  | xO q => 2 * ofPositive q
  | xI q => 2 * ofPositive q + 1
  end.

Definition ofZ (z : Z) : float :=
  match z with
  | Z0 => 0
  | Zpos p => ofPositive p
  | Zneg p => - ofPositive p
  end.

(** Read a signed 15.16 fixed-point number. *)
Definition readS15Fixed16 (dv : buffer) (offset : Z) : result exn float :=
  raw <- getInt32 dv offset ;;
  Ok (ofZ raw / 65536).

Definition readXYZTag (dv : buffer) (t : tag) : result exn vec3 :=
  let o := (offset t + 8)%Z in
  x <- readS15Fixed16 dv o ;;
  y <- readS15Fixed16 dv (o + 4)%Z ;;
  z <- readS15Fixed16 dv (o + 8)%Z ;;
  Ok (x, y, z).

(** [parseICCProfile] up to the inversion of the forward matrix: the tag
    table, the description, the three primaries, the two products and
    [mat3Invert]; the result is the pair of [customToLinearSRGB] and
    [linearSRGBToCustom]. *)
Definition parseICCProfileMatrices (buffer : buffer) : result exn (mat3 * mat3) :=
  let dv := buffer in
  tagCount <- getUint32 dv 128%Z ;;
  tags <- readTags dv (Z.to_nat tagCount) 0%Z [] ;;
  profileName <- profileDescription dv tags ;;
  match lookup "rXYZ" tags, lookup "gXYZ" tags, lookup "bXYZ" tags with
  | Some tagR, Some tagG, Some tagB =>
      rXYZ <- readXYZTag dv tagR ;;
      gXYZ <- readXYZTag dv tagG ;;
      bXYZ <- readXYZTag dv tagB ;;
      let '(rX, rY, rZ) := rXYZ in
      let '(gX, gY, gZ) := gXYZ in
      let '(bX, bY, bZ) := bXYZ in
      let customToXYZ_D50 : mat3 := ((rX, gX, bX), (rY, gY, bY), (rZ, gZ, bZ)) in
      let customToXYZ_D65 := mat3Multiply BRADFORD_D50_TO_D65 customToXYZ_D50 in
      let customToLinearSRGB := mat3Multiply XYZ_TO_LINEAR_SRGB customToXYZ_D65 in
      match mat3Invert customToLinearSRGB with
      | None => Err (Error "Singular matrix in ICC profile")
      | Some linearSRGBToCustom => Ok (customToLinearSRGB, linearSRGBToCustom)
      end
  | _, _, _ => Err (Error "Not a matrix-based RGB profile (missing XYZ tags)")
  end.

(** [toLinearSRGB(...fromLinearSRGB(r, g, b))] of the working colour space
    of a profile. *)
Definition throughProfile (buffer : buffer) (v : vec3) : result exn vec3 :=
  Ms <- parseICCProfileMatrices buffer ;;
  Ok (mat3Apply (fst Ms) (mat3Apply (snd Ms) v)).

(** *** color-math.js: OKLab and OKLCH *)

(** The functions of [Math] that an engine may approximate. *)
Record MathLib : Type := {
  atan2 : float -> float -> float;
  cos : float -> float;
  sin : float -> float
}.

Definition PI : float := 3.141592653589793.

(** Convert OKLab (a, b) to OKLCH (C, h); returns [chroma, hueDegrees]. *)
Definition oklabToOklch (m : MathLib) (a b : float) : float * float :=
  let chroma := PrimFloat.sqrt (a * a + b * b) in
  let hueDegrees := atan2 m b a * (180 / PI) in
  let hueDegrees := if hueDegrees <? 0 then hueDegrees + 360 else hueDegrees in
  (chroma, hueDegrees).

(** Convert OKLCH (C, h) to OKLab (a, b); the hue is in degrees. *)
Definition oklchToOklab (m : MathLib) (chroma hueDegrees : float) : float * float :=
  let hueRadians := hueDegrees * (PI / 180) in
  let a := chroma * cos m hueRadians in
  let b := chroma * sin m hueRadians in
  (a, b).

(** *** Vocabulary *)

(** The values that ECMAScript fixes for the three functions at a zero
    first argument: [Math.cos(+0)] is 1, [Math.sin(+0)] is +0, and
    [Math.atan2(+0, x)] is +0 for [x > 0] and for [x = +0]. *)
Definition exactAtZero (m : MathLib) : Prop :=
  cos m 0 = 1 /\ sin m 0 = 0 /\ atan2 m 0 0 = 0 /\
  (forall x : float, (0 <? x) = true -> atan2 m 0 x = 0).

(** [oklchToOklab(...oklabToOklch(a, b))]. *)
Definition polarRoundTrip (m : MathLib) (a b : float) : float * float :=
  let Ch := oklabToOklch m a b in
  oklchToOklab m (fst Ch) (snd Ch).

(** Both components within [eps]. *)
Definition within (eps : float) (p q : float * float) : bool :=
  (PrimFloat.abs (fst p - fst q) <=? eps) && (PrimFloat.abs (snd p - snd q) <=? eps).

(** Two vectors, and two matrices, that agree within [eps], coefficient
    by coefficient. *)
Definition vec3Within (eps : float) (u v : vec3) : bool :=
  let '(u0, u1, u2) := u in
  let '(v0, v1, v2) := v in
  (PrimFloat.abs (u0 - v0) <=? eps) && (PrimFloat.abs (u1 - v1) <=? eps)
  && (PrimFloat.abs (u2 - v2) <=? eps).

Definition mat3Within (eps : float) (A B : mat3) : bool :=
  let '(A0, A1, A2) := A in
  let '(B0, B1, B2) := B in
  vec3Within eps A0 B0 && vec3Within eps A1 B1 && vec3Within eps A2 B2.

Definition identity3 : mat3 := ((1, 0, 0), (0, 1, 0), (0, 0, 1)).

Definition sampleMatrix : mat3 :=
  ((0.6, 0.3, 0.1), (0.2, 0.7, 0.1), (0.1, 0.2, 0.9)).

(** *** color-math.js: the sRGB transfer function at its upper end *)

(** [linearToGamma] where [clamped] is 1, with the value of
    [Math.pow(1, 1 / 2.4)], which is 1. *)
Definition linearToGammaAtOne : float := 1.055 * 1 - 0.055.

End F64.
(* ================================================================= *)
(** * Part II: properties                                              *)
(* ================================================================= *)

(** ** The executable parts, on examples *)

Example toString16_255 : toString16 255 = lit "ff".
Proof. reflexivity. Qed.

Example padStart0_7 : padStart0 2 (toString16 7) = lit "07".
Proof. reflexivity. Qed.

Example trim_padded : trim (lit "  #Ab12eF ") = lit "#Ab12eF".
Proof. reflexivity. Qed.

Example parseInt16_ff : parseInt16 (lit "fF") = 255%Z.
Proof. reflexivity. Qed.

Example btoa_Man : btoa [77; 97; 110]%Z = lit "TWFu".
Proof. reflexivity. Qed.

Example btoa_padding : btoa [77; 97]%Z = lit "TWE=".
Proof. reflexivity. Qed.

Example getInt32_negative :
  getInt32 [xff; xff; x80; x00] 0 = Ok (-32768)%Z.
Proof. reflexivity. Qed.

Example getUint32_out_of_bounds :
  getUint32 [x00; x00; x00; x01] 1 = Err RangeError.
Proof. reflexivity. Qed.

Example signature_past_the_end :
  signature (list_byte_of_string "ab") 0
  = String "a" (String "b" (String Ascii.zero (String Ascii.zero EmptyString))).
Proof. reflexivity. Qed.

Example profileWithoutGreen_tags :
  tagsOf profileWithoutGreen
  = Ok [("bXYZ"%string, {| offset := 176%Z; size := 20%Z |});
        ("rXYZ"%string, {| offset := 156%Z; size := 20%Z |})].
Proof. vm_compute. reflexivity. Qed.

(** ** Comparisons *)

Lemma leb_true (x y : R) : Num.leb x y = true <-> x <= y.
Proof. unfold Num.leb. destruct (Rle_dec x y); split; intros; try easy. Qed.

Lemma leb_false (x y : R) : Num.leb x y = false <-> y < x.
Proof.
  unfold Num.leb. destruct (Rle_dec x y); split; intros; try easy; lra.
Qed.

Lemma ltb_true (x y : R) : Num.ltb x y = true <-> x < y.
Proof. unfold Num.ltb. destruct (Rlt_dec x y); split; intros; try easy. Qed.

Lemma ltb_false (x y : R) : Num.ltb x y = false <-> y <= x.
Proof.
  unfold Num.ltb. destruct (Rlt_dec x y); split; intros; try easy; lra.
Qed.

Lemma eqb_true (x y : R) : Num.eqb x y = true <-> x = y.
Proof. unfold Num.eqb. destruct (Req_dec_T x y); split; intros; try easy. Qed.

Lemma eqb_false (x y : R) : Num.eqb x y = false <-> x <> y.
Proof. unfold Num.eqb. destruct (Req_dec_T x y); split; intros; try easy. Qed.

Lemma Rabs_bounds (x y : R) : Rabs x <= y -> - y <= x <= y.
Proof. unfold Rabs. destruct (Rcase_abs x); lra. Qed.

Lemma clamp01_range (v : R) : 0 <= clamp01 v <= 1.
Proof.
  unfold clamp01, Rmax, Rmin.
  destruct (Rle_dec 1 v); destruct (Rle_dec 0 _); lra.
Qed.

Lemma clamp01_id (v : R) : 0 <= v <= 1 -> clamp01 v = v.
Proof.
  intros H. unfold clamp01, Rmax, Rmin.
  destruct (Rle_dec 1 v); destruct (Rle_dec 0 _); lra.
Qed.

Lemma clamp01_low (v : R) : v <= 0 -> clamp01 v = 0.
Proof.
  intros H. unfold clamp01, Rmax, Rmin.
  destruct (Rle_dec 1 v); destruct (Rle_dec 0 _); lra.
Qed.

Lemma clamp01_high (v : R) : 1 <= v -> clamp01 v = 1.
Proof.
  intros H. unfold clamp01, Rmax, Rmin.
  destruct (Rle_dec 1 v); destruct (Rle_dec 0 _); lra.
Qed.

(** ** The gamut test *)

Lemma isInGamut_iff (r g b : R) :
  isInGamut r g b = true <->
  (-0.0005 <= r <= 1.0005 /\ -0.0005 <= g <= 1.0005 /\
   -0.0005 <= b <= 1.0005).
Proof.
  unfold isInGamut. rewrite !andb_true_iff, !leb_true. lra.
Qed.

Lemma isInGamut_outside (r g b : R) :
  r < -0.0005 \/ 1.0005 < r \/ g < -0.0005 \/ 1.0005 < g \/
  b < -0.0005 \/ 1.0005 < b ->
  isInGamut r g b = false.
Proof.
  intros H. destruct (isInGamut r g b) eqn:E; [| reflexivity].
  apply isInGamut_iff in E. lra.
Qed.

(** C6. [isInGamut r g b] is true exactly when each of the three components
    lies in [-0.0005, 1.0005]; [isInGamut (1 + 0.0004) 0 0] is true and
    [isInGamut 1.001 0 0] is false. *)
Theorem isInGamut_tolerance :
  (forall r g b : R,
      isInGamut r g b = true <->
      (-0.0005 <= r <= 1.0005 /\ -0.0005 <= g <= 1.0005 /\
       -0.0005 <= b <= 1.0005)) /\
  isInGamut (1 + 0.0004) 0 0 = true /\
  isInGamut 1.001 0 0 = false.
Proof.
  split; [exact isInGamut_iff | split].
  - apply isInGamut_iff. lra.
  - apply isInGamut_outside. lra.
Qed.

(** ** The sRGB transfer function *)

Lemma Rpower_inverse_exponent (x p q : R) :
  0 < x -> p * q = 1 -> Rpower (Rpower x p) q = x.
Proof.
  intros Hx Hpq. rewrite Rpower_mult, Hpq. apply Rpower_1; assumption.
Qed.

(** [q <= x^(5/12)] follows from [q^12 <= x^5]. *)
Lemma root_lower_bound (x q : R) :
  0 < x -> 0 < q -> q ^ 12 <= x ^ 5 -> q <= Rpower x (1 / 2.4).
Proof.
  intros Hx Hq H.
  assert (Hq12 : 0 < q ^ 12) by (apply pow_lt; assumption).
  assert (Hx5 : 0 < x ^ 5) by (apply pow_lt; assumption).
  replace q with (Rpower (q ^ 12) (1 / 12)).
  2:{ rewrite <- (Rpower_pow 12 q Hq), Rpower_mult.
      replace (INR 12 * (1 / 12)) with 1 by (simpl; lra).
      apply Rpower_1; assumption. }
  replace (Rpower x (1 / 2.4)) with (Rpower (x ^ 5) (1 / 12)).
  2:{ rewrite <- (Rpower_pow 5 x Hx), Rpower_mult.
      f_equal. simpl. lra. }
  apply Rle_Rpower_l; lra.
Qed.

(** [t^(12/5) <= q] follows from [t^12 <= q^5]. *)
Lemma power_upper_bound (t q : R) :
  0 < t -> 0 < q -> t ^ 12 <= q ^ 5 -> Rpower t 2.4 <= q.
Proof.
  intros Ht Hq H.
  assert (Ht12 : 0 < t ^ 12) by (apply pow_lt; assumption).
  assert (Hq5 : 0 < q ^ 5) by (apply pow_lt; assumption).
  replace q with (Rpower (q ^ 5) (1 / 5)).
  2:{ rewrite <- (Rpower_pow 5 q Hq), Rpower_mult.
      replace (INR 5 * (1 / 5)) with 1 by (simpl; lra).
      apply Rpower_1; assumption. }
  replace (Rpower t 2.4) with (Rpower (t ^ 12) (1 / 5)).
  2:{ rewrite <- (Rpower_pow 12 t Ht), Rpower_mult.
      f_equal. simpl. lra. }
  apply Rle_Rpower_l; lra.
Qed.

(** On [0.0031308, 1] the encoder takes the power branch. *)
Lemma linearToGamma_power (x : R) :
  0.0031308 <= x <= 1 ->
  linearToGamma x = 1.055 * Rpower x (1 / 2.4) - 0.055.
Proof.
  intros H. unfold linearToGamma.
  fold (clamp01 x). rewrite clamp01_id by lra.
  rewrite (proj2 (leb_true _ _)) by lra. reflexivity.
Qed.

Lemma linearToGamma_linear (x : R) :
  0 <= x < 0.0031308 -> linearToGamma x = 12.92 * x.
Proof.
  intros H. unfold linearToGamma.
  fold (clamp01 x). rewrite clamp01_id by lra.
  rewrite (proj2 (leb_false _ _)) by lra. reflexivity.
Qed.

Lemma gamma_round_trip (x : R) :
  0 <= x <= 1 -> Rabs (gammaToLinear (linearToGamma x) - x) <= 1e-6.
Proof.
  intros Hx.
  destruct (Rlt_dec x 0.0031308) as [Hlow | Hhigh].
  - (* linear segment: decoded exactly *)
    rewrite linearToGamma_linear by lra.
    unfold gammaToLinear. rewrite (proj2 (leb_false _ _)) by lra.
    replace (12.92 * x / 12.92 - x) with 0 by lra.
    rewrite Rabs_R0. lra.
  - rewrite linearToGamma_power by lra.
    assert (Hx0 : 0 < x) by lra.
    set (t := Rpower x (1 / 2.4)).
    assert (Ht : 0 < t) by apply exp_pos.
    assert (Hback : Rpower t 2.4 = x).
    { apply Rpower_inverse_exponent; [assumption | lra]. }
    unfold gammaToLinear.
    destruct (Rle_dec 0.04045 (1.055 * t - 0.055)) as [Hp | Hl].
    + (* power branch: decoded exactly *)
      rewrite (proj2 (leb_true _ _)) by assumption.
      replace ((1.055 * t - 0.055 + 0.055) / 1.055) with t by lra.
      rewrite Hback. replace (x - x) with 0 by lra.
      rewrite Rabs_R0. lra.
    + (* the encoder used the power curve, the decoder the linear one *)
      rewrite (proj2 (leb_false _ _)) by lra.
      assert (Hlo : 0.09047 <= t).
      { apply Rle_trans with (Rpower 0.0031308 (1 / 2.4)).
        - apply root_lower_bound; lra.
        - apply Rle_Rpower_l; lra. }
      assert (Hhi : x <= 0.0031309).
      { rewrite <- Hback.
        apply Rle_trans with (Rpower (0.09545 / 1.055) 2.4).
        - apply Rle_Rpower_l; lra.
        - apply power_upper_bound; lra. }
      apply Rabs_le. lra.
Qed.

Lemma linearToGamma_clamps (x : R) : linearToGamma x = linearToGamma (clamp01 x).
Proof.
  unfold linearToGamma. fold (clamp01 x). fold (clamp01 (clamp01 x)).
  rewrite (clamp01_id (clamp01 x)) by apply clamp01_range. reflexivity.
Qed.

Lemma gammaToLinear_below (x : R) :
  x < 0.04045 -> gammaToLinear x = x / 12.92.
Proof.
  intros H. unfold gammaToLinear.
  rewrite (proj2 (leb_false _ _)) by lra. reflexivity.
Qed.

Lemma gammaToLinear_above_one (x : R) : 1 < x -> 1 < gammaToLinear x.
Proof.
  intros H. unfold gammaToLinear.
  rewrite (proj2 (leb_true _ _)) by lra.
  rewrite <- (Rpower_O ((x + 0.055) / 1.055)) at 1 by lra.
  apply Rpower_lt; lra.
Qed.

(** C8. Decoding an encoded value of [0, 1] gives the value back within
    1e-6; [linearToGamma] clamps its input to [0, 1] before encoding;
    [gammaToLinear] does not clamp: below 0 it is [x / 12.92], which is
    negative, and above 1 its value is above 1. *)
Theorem gamma_idempotence :
  (forall x : R, 0 <= x <= 1 ->
     Rabs (gammaToLinear (linearToGamma x) - x) <= 1e-6) /\
  (forall x : R, linearToGamma x = linearToGamma (clamp01 x)) /\
  (forall x : R, x < 0 ->
     gammaToLinear x = x / 12.92 /\ gammaToLinear x < 0) /\
  (forall x : R, 1 < x -> 1 < gammaToLinear x).
Proof.
  split; [exact gamma_round_trip |].
  split; [exact linearToGamma_clamps |].
  split; [| exact gammaToLinear_above_one].
  intros x Hx. rewrite gammaToLinear_below by lra. lra.
Qed.

Lemma gamma_idempotence_witness :
  0 <= 0.5 <= 1 /\ Rabs (gammaToLinear (linearToGamma 0.5) - 0.5) <= 1e-6.
Proof.
  split; [lra | apply (proj1 gamma_idempotence); lra].
Defined.

(** ** The polar form *)

Lemma atan_pos (x : R) : 0 < x -> 0 < atan x.
Proof. intros H. rewrite <- atan_0. apply atan_increasing. exact H. Qed.

Lemma atan_neg (x : R) : x < 0 -> atan x < 0.
Proof. intros H. rewrite <- atan_0. apply atan_increasing. exact H. Qed.

(** [atan2] takes its values in (-PI, PI]. *)
Lemma atan2_range (y x : R) : - PI < atan2 y x <= PI.
Proof.
  pose proof PI_RGT_0 as HPI.
  unfold atan2.
  destruct (Rlt_dec 0 x) as [Hx | Hx].
  - pose proof (atan_bound (y / x)). lra.
  - destruct (Rlt_dec x 0) as [Hx' | Hx'].
    + destruct (Rle_dec 0 y) as [Hy | Hy].
      * pose proof (atan_bound (y / x)) as Hb.
        assert (Hq : y / x <= 0).
        { unfold Rdiv. assert (/ x < 0) by (apply Rinv_lt_0_compat; lra). nra. }
        assert (atan (y / x) <= 0).
        { destruct Hq as [Hq | Hq]; [left; apply atan_neg; exact Hq |].
          rewrite Hq, atan_0. lra. }
        lra.
      * pose proof (atan_bound (y / x)) as Hb.
        assert (Hq : 0 < y / x).
        { unfold Rdiv. assert (/ x < 0) by (apply Rinv_lt_0_compat; lra). nra. }
        pose proof (atan_pos _ Hq). lra.
    + destruct (Rlt_dec 0 y); [lra |]. destruct (Rlt_dec y 0); lra.
Qed.

(** The point [(a, b)] is at distance [sqrt (a*a + b*b)] in the direction
    [atan2 b a]. *)
Lemma polar_form (a b : R) :
  sqrt (a * a + b * b) * cos (atan2 b a) = a /\
  sqrt (a * a + b * b) * sin (atan2 b a) = b.
Proof.
  assert (Hside : forall x : R, 0 < x ->
            sqrt (x * x + b * b) = x * sqrt (1 + (b / x)²)).
  { intros x Hx.
    rewrite <- (sqrt_square x) at 3 by lra.
    rewrite <- sqrt_mult; [| nra | unfold Rsqr; nra].
    f_equal. unfold Rsqr. field. lra. }
  assert (Hpos : forall x : R, 0 < sqrt (1 + x²)).
  { intros x. apply sqrt_lt_R0. unfold Rsqr. nra. }
  unfold atan2.
  destruct (Rlt_dec 0 a) as [Ha | Ha].
  - rewrite cos_atan, sin_atan, (Hside a Ha).
    pose proof (Hpos (b / a)).
    split; field; lra.
  - destruct (Rlt_dec a 0) as [Ha' | Ha'].
    + assert (Hs : sqrt (a * a + b * b) = - a * sqrt (1 + (b / a)²)).
      { replace (a * a) with (- a * - a) by ring.
        rewrite (Hside (- a)) by lra.
        do 3 f_equal. unfold Rsqr. field. lra. }
      pose proof (Hpos (b / a)).
      destruct (Rle_dec 0 b).
      * rewrite neg_cos, neg_sin, cos_atan, sin_atan, Hs.
        split; field; lra.
      * replace (atan (b / a) - PI) with (- (PI - atan (b / a))) by ring.
        rewrite cos_neg, sin_neg, Rtrigo_facts.cos_pi_minus, Rtrigo_facts.sin_pi_minus.
        rewrite cos_atan, sin_atan, Hs.
        split; field; lra.
    + assert (a = 0) by lra. subst a.
      replace (0 * 0 + b * b) with (b * b) by ring.
      destruct (Rlt_dec 0 b) as [Hb | Hb].
      * rewrite sqrt_square, cos_PI2, sin_PI2 by lra. lra.
      * destruct (Rlt_dec b 0) as [Hb' | Hb'].
        -- replace (b * b) with (- b * - b) by ring.
           rewrite sqrt_square, cos_neg, sin_neg, cos_PI2, sin_PI2 by lra. lra.
        -- assert (b = 0) by lra. subst b.
           rewrite Rmult_0_l, sqrt_0. lra.
Qed.

(** The hue that [oklabToOklch] returns differs from [atan2] (in degrees)
    by a whole turn at most. *)
Lemma oklabToOklch_hue (a b : R) :
  let h := snd (oklabToOklch a b) in
  (h = atan2 b a * (180 / PI) \/ h = atan2 b a * (180 / PI) + 360) /\
  0 <= h < 360.
Proof.
  pose proof PI_RGT_0 as HPI.
  pose proof (atan2_range b a) as Hr.
  assert (Hk : 0 < 180 / PI) by (apply Rdiv_lt_0_compat; lra).
  assert (HkPI : PI * (180 / PI) = 180) by (field; lra).
  unfold oklabToOklch. cbn [snd].
  destruct (Num.ltb (atan2 b a * (180 / PI)) 0) eqn:E.
  - apply ltb_true in E. split; [right; reflexivity | nra].
  - apply ltb_false in E. split; [left; reflexivity | nra].
Qed.

Lemma oklabToOklch_origin : oklabToOklch 0 0 = (0, 0).
Proof.
  unfold oklabToOklch, atan2.
  destruct (Rlt_dec 0 0) as [H | _]; [lra |].
  replace (0 * 0 + 0 * 0) with 0 by ring. rewrite sqrt_0.
  replace (0 * (180 / PI)) with 0 by (unfold Rdiv; ring).
  rewrite (proj2 (ltb_false 0 0)) by lra. reflexivity.
Qed.

Lemma oklch_round_trip (a b : R) :
  oklchToOklab (fst (oklabToOklch a b)) (snd (oklabToOklch a b)) = (a, b).
Proof.
  pose proof PI_RGT_0 as HPI.
  destruct (oklabToOklch_hue a b) as [Hh _]. cbv zeta in Hh.
  destruct (polar_form a b) as [Hc Hs].
  unfold oklchToOklab.
  assert (Hcs : cos (snd (oklabToOklch a b) * (PI / 180)) = cos (atan2 b a) /\
                sin (snd (oklabToOklch a b) * (PI / 180)) = sin (atan2 b a)).
  { destruct Hh as [-> | ->].
    - replace (atan2 b a * (180 / PI) * (PI / 180)) with (atan2 b a)
        by (field; lra).
      split; reflexivity.
    - replace ((atan2 b a * (180 / PI) + 360) * (PI / 180))
        with (atan2 b a + 2 * PI) by (field; lra).
      rewrite cos_plus, sin_plus, cos_2PI, sin_2PI. split; ring. }
  destruct Hcs as [-> ->].
  unfold oklabToOklch at 1 2. cbn [fst]. rewrite Hc, Hs. reflexivity.
Qed.

(** C4, as stated: the round trip would be within 1e-9 and the hue below
    360 for every pair. In binary64, whatever the engine's [Math.atan2],
    [Math.cos] and [Math.sin] are beyond the values that ECMAScript fixes:
    at (1e200, 0) the square [a * a] overflows, the chroma is infinite and
    the pair that comes back is not within 1e-9 of the input; and with
    [Math.atan2(-1e-20, 1)] equal to -1e-20 (the correctly rounded value),
    the angle of about -5.7e-19 degrees plus 360 rounds to 360 itself. *)
Lemma polar_round_trip_fails_in_doubles :
  (~ exists m : F64.MathLib,
       F64.exactAtZero m /\
       F64.within 1e-9%float (F64.polarRoundTrip m 1e200%float 0%float)
         (1e200%float, 0%float) = true) /\
  (~ exists m : F64.MathLib,
       F64.atan2 m (-1e-20)%float 1%float = (-1e-20)%float /\
       (snd (F64.oklabToOklch m 1%float (-1e-20)%float) <? 360)%float = true).
Proof.
  split.
  - intros [[at2 c s] [[Hc [Hs [_ Hx]]] Hw]].
    cbn [F64.cos F64.sin F64.atan2] in Hc, Hs, Hx.
    unfold F64.within, F64.polarRoundTrip, F64.oklabToOklch,
      F64.oklchToOklab in Hw.
    cbn [fst snd F64.cos F64.sin F64.atan2] in Hw.
    rewrite (Hx 1e200%float eq_refl) in Hw.
    vm_compute in Hw. rewrite Hc, Hs in Hw. vm_compute in Hw.
    discriminate.
  - intros [[at2 c s] [Ha Hlt]].
    cbn [F64.atan2] in Ha.
    unfold F64.oklabToOklch in Hlt. cbn [snd F64.atan2] in Hlt.
    rewrite Ha in Hlt. vm_compute in Hlt. discriminate.
Qed.

(** C4, amended. For [a] and [b] of magnitude at most 1000,
    [oklchToOklab] after [oklabToOklch] reproduces [(a, b)] within 1e-9;
    for every pair the hue lies in [0, 360], and a negative [atan2] result
    is normalized by adding 360; at the origin (+0, +0) the chroma and the
    hue are 0. *)
Theorem polar_round_trip :
  (forall a b : R,
      Rabs a <= 1000 -> Rabs b <= 1000 ->
      let C := fst (oklabToOklch a b) in
      let h := snd (oklabToOklch a b) in
      Rabs (fst (oklchToOklab C h) - a) <= 1e-9 /\
      Rabs (snd (oklchToOklab C h) - b) <= 1e-9) /\
  (forall a b : R,
      let h := snd (oklabToOklch a b) in
      0 <= h <= 360 /\
      (atan2 b a < 0 -> h = atan2 b a * (180 / PI) + 360)) /\
  (forall m : F64.MathLib,
      F64.atan2 m 0%float 0%float = 0%float ->
      F64.oklabToOklch m 0%float 0%float = (0%float, 0%float)).
Proof.
  split; [| split].
  - intros a b _ _ C h. subst C h.
    rewrite oklch_round_trip. cbn [fst snd].
    replace (a - a) with 0 by ring. replace (b - b) with 0 by ring.
    rewrite Rabs_R0. lra.
  - intros a b h. subst h.
    split; [pose proof (proj2 (oklabToOklch_hue a b)) as H; cbv zeta in H; lra |].
    intros Hneg. unfold oklabToOklch. cbn [snd].
    assert (Hk : 0 < 180 / PI) by (apply Rdiv_lt_0_compat; [lra | apply PI_RGT_0]).
    rewrite (proj2 (ltb_true _ _)) by nra. reflexivity.
  - intros [at2 c s] H. cbn [F64.atan2] in H.
    unfold F64.oklabToOklch. cbn [F64.atan2]. rewrite H.
    vm_compute. reflexivity.
Qed.

Lemma polar_round_trip_witness :
  Rabs (fst (oklchToOklab (fst (oklabToOklch (3 / 10) (- (4 / 10))))
               (snd (oklabToOklch (3 / 10) (- (4 / 10))))) - 3 / 10) <= 1e-9 /\
  Rabs (snd (oklchToOklab (fst (oklabToOklch (3 / 10) (- (4 / 10))))
               (snd (oklabToOklch (3 / 10) (- (4 / 10))))) - - (4 / 10)) <= 1e-9.
Proof.
  apply (proj1 polar_round_trip (3 / 10) (- (4 / 10))).
  - rewrite Rabs_right; lra.
  - rewrite Rabs_left; lra.
Defined.

(** ** Hex strings *)

Lemma all_below_spec (n : nat) (p : Z -> bool) :
  all_below n p = true ->
  forall k : Z, (0 <= k < Z.of_nat n)%Z -> p k = true.
Proof.
  induction n as [| n IH]; intros H k Hk.
  - lia.
  - cbn [all_below] in H. apply andb_true_iff in H as [Hn Hrest].
    destruct (Z.eq_dec k (Z.of_nat n)) as [-> | Hne]; [exact Hn |].
    apply IH; [exact Hrest | lia].
Qed.

Lemma jsstring_eqb_eq (s t : jsstring) : jsstring_eqb s t = true -> s = t.
Proof. unfold jsstring_eqb. destruct (list_eq_dec N.eq_dec s t); easy. Qed.

(** A byte prints as its two hexadecimal digits. *)
Lemma byte_hex (k : Z) :
  (0 <= k <= 255)%Z ->
  padStart0 2 (toString16 k) = [hex_digit (k / 16); hex_digit (k mod 16)].
Proof.
  intros Hk. apply jsstring_eqb_eq.
  apply (all_below_spec 256
           (fun k => jsstring_eqb (padStart0 2 (toString16 k))
                       [hex_digit (k / 16); hex_digit (k mod 16)])).
  - vm_compute. reflexivity.
  - lia.
Qed.

Lemma hex_digit_facts (d : Z) :
  (0 <= d < 16)%Z ->
  lower_hex (hex_digit d) /\
  is_space (hex_digit d) = false /\
  hex_value (hex_digit d) = Some d /\
  (hex_digit d =? 35)%N = false.
Proof.
  intros Hd.
  pose (p := fun d : Z =>
              (if in_dec N.eq_dec (hex_digit d) (lit "0123456789abcdef")
               then true else false)
              && negb (is_space (hex_digit d))
              && (match hex_value (hex_digit d) with
                  | Some d' => (d' =? d)%Z
                  | None => false
                  end)
              && negb (hex_digit d =? 35)%N).
  assert (H : p d = true).
  { apply (all_below_spec 16); [vm_compute; reflexivity | lia]. }
  subst p.
  cbv beta in H.
  apply andb_true_iff in H as [H H4]. apply andb_true_iff in H as [H H3].
  apply andb_true_iff in H as [H1 H2].
  repeat split.
  - unfold lower_hex. destruct (in_dec N.eq_dec _ _); easy.
  - apply negb_true_iff. exact H2.
  - destruct (hex_value (hex_digit d)); [| discriminate].
    apply Z.eqb_eq in H3. congruence.
  - apply negb_true_iff. exact H4.
Qed.

(** What [Math.round] makes of a clamped channel. *)
Lemma round_channel (v : R) :
  let k := Num.round (clamp01 v * 255) in
  (0 <= k <= 255)%Z /\ Rabs (IZR k / 255 - clamp01 v) <= 1 / 510.
Proof.
  intros k. pose proof (clamp01_range v) as Hc.
  pose proof (Zfloor_bound (clamp01 v * 255 + 1 / 2)) as Hb.
  fold (Num.round (clamp01 v * 255)) in Hb. fold k in Hb.
  split.
  - split.
    + assert (H : (-1 < k)%Z) by (apply lt_IZR; lra). lia.
    + assert (H : (k < 256)%Z) by (apply lt_IZR; lra). lia.
  - apply Rabs_le. lra.
Qed.

Lemma round_low (v : R) : v <= 0 -> Num.round (clamp01 v * 255) = 0%Z.
Proof.
  intros H. rewrite clamp01_low by assumption.
  unfold Num.round. apply Zfloor_eq. lra.
Qed.

Lemma round_high (v : R) : 1 <= v -> Num.round (clamp01 v * 255) = 255%Z.
Proof.
  intros H. rewrite clamp01_high by assumption.
  unfold Num.round. apply Zfloor_eq. lra.
Qed.

Lemma toByteHex_digits (v : R) :
  let k := Num.round (clamp01 v * 255) in
  toByteHex v = [hex_digit (k / 16); hex_digit (k mod 16)].
Proof.
  intros k. unfold toByteHex. apply byte_hex. apply (round_channel v).
Qed.

Lemma clamp01_idem (v : R) : clamp01 (clamp01 v) = clamp01 v.
Proof. apply clamp01_id. apply clamp01_range. Qed.

(** C10. [rgbToHex] is total: whatever the three numbers, the result is
    '#' followed by six lower-case hexadecimal digits; each channel is
    clamped to [0, 1] before it is quantized; a channel at or below 0 gives
    "00" and one at or above 1 gives "ff". *)
Theorem rgbToHex_total :
  forall r g b : R,
    (exists d1 d2 d3 d4 d5 d6 : code_unit,
        rgbToHex r g b = 35%N :: [d1; d2; d3; d4; d5; d6] /\
        Forall lower_hex [d1; d2; d3; d4; d5; d6]) /\
    rgbToHex r g b = rgbToHex (clamp01 r) (clamp01 g) (clamp01 b) /\
    rgbToHex r g b = lit "#" ++ toByteHex r ++ toByteHex g ++ toByteHex b /\
    (forall v : R, v <= 0 -> toByteHex v = lit "00") /\
    (forall v : R, 1 <= v -> toByteHex v = lit "ff").
Proof.
  intros r g b.
  split; [| split; [| split; [reflexivity | split]]].
  - unfold rgbToHex. rewrite !toByteHex_digits.
    pose proof (proj1 (round_channel r)) as Hr.
    pose proof (proj1 (round_channel g)) as Hg.
    pose proof (proj1 (round_channel b)) as Hb.
    cbv zeta in Hr, Hg, Hb.
    do 6 eexists. split; [reflexivity |].
    repeat (apply Forall_cons; [apply hex_digit_facts |]); [.. | apply Forall_nil].
    all: first [ apply Z.mod_pos_bound; lia
               | split; [apply Z.div_pos; lia | apply Z.div_lt_upper_bound; lia] ].
  - unfold rgbToHex, toByteHex. rewrite !clamp01_idem. reflexivity.
  - intros v Hv. unfold toByteHex. rewrite round_low by assumption.
    vm_compute. reflexivity.
  - intros v Hv. unfold toByteHex. rewrite round_high by assumption.
    vm_compute. reflexivity.
Qed.

Lemma rgbToHex_total_witness :
  -1 <= 0 /\ toByteHex (-1) = lit "00".
Proof.
  split; [lra | apply (proj1 (proj2 (proj2 (proj2 (rgbToHex_total 0 0 0))))); lra].
Defined.

(** The example of the source comment: (1, 0.5, 0) gives "#ff8000". *)
Lemma rgbToHex_example : rgbToHex 1 0.5 0 = lit "#ff8000".
Proof.
  unfold rgbToHex, toByteHex.
  rewrite (round_high 1), (round_low 0) by lra.
  rewrite (clamp01_id 0.5) by lra.
  replace (Num.round (0.5 * 255)) with 128%Z.
  - vm_compute. reflexivity.
  - symmetry. unfold Num.round. apply Zfloor_eq. lra.
Qed.

(** *** Trimming *)

Lemma trim_start_prefix (s : jsstring) :
  exists pre : jsstring, s = pre ++ trim_start s /\ spaces pre.
Proof.
  induction s as [| c s IH].
  - exists []. split; [reflexivity | constructor].
  - cbn [trim_start]. destruct (is_space c) eqn:Ec.
    + destruct IH as [pre [Heq Hpre]].
      exists (c :: pre). split.
      * cbn [app]. f_equal. exact Heq.
      * constructor; assumption.
    + exists []. split; [reflexivity | constructor].
Qed.

Lemma trim_start_spaces (pre s : jsstring) :
  spaces pre -> trim_start (pre ++ s) = trim_start s.
Proof.
  induction 1 as [| c pre Hc _ IH]; [reflexivity |].
  cbn [app trim_start]. rewrite Hc. exact IH.
Qed.

Lemma trim_start_head (c : code_unit) (s : jsstring) :
  is_space c = false -> trim_start (c :: s) = c :: s.
Proof. intros H. cbn [trim_start]. rewrite H. reflexivity. Qed.

Lemma spaces_rev (s : jsstring) : spaces s -> spaces (rev s).
Proof. unfold spaces. rewrite !Forall_forall. intros H c Hc. apply H, in_rev, Hc. Qed.

Lemma trim_end_suffix (s : jsstring) :
  exists post : jsstring, s = trim_end s ++ post /\ spaces post.
Proof.
  unfold trim_end.
  destruct (trim_start_prefix (rev s)) as [pre [Heq Hpre]].
  exists (rev pre). split.
  - rewrite <- rev_app_distr, <- Heq, rev_involutive. reflexivity.
  - apply spaces_rev, Hpre.
Qed.

Lemma trim_end_spaces (s post : jsstring) :
  spaces post -> trim_end (s ++ post) = trim_end s.
Proof.
  intros H. unfold trim_end.
  rewrite rev_app_distr, trim_start_spaces by (apply spaces_rev, H).
  reflexivity.
Qed.

Lemma trim_end_last (s : jsstring) (c : code_unit) :
  is_space c = false -> trim_end (s ++ [c]) = s ++ [c].
Proof.
  intros H. unfold trim_end.
  rewrite rev_app_distr. cbn [rev app].
  rewrite trim_start_head by exact H.
  cbn [rev]. rewrite rev_involutive. reflexivity.
Qed.

(** [trim] removes the white space around a core that neither starts nor
    ends with white space. *)
Lemma trim_core (pre post core : jsstring) (c1 c2 : code_unit) (mid : jsstring) :
  spaces pre -> spaces post ->
  core = c1 :: mid ++ [c2] ->
  is_space c1 = false -> is_space c2 = false ->
  trim (pre ++ core ++ post) = core.
Proof.
  intros Hpre Hpost -> H1 H2. unfold trim.
  rewrite trim_start_spaces by exact Hpre.
  cbn [app]. rewrite trim_start_head by exact H1.
  change (c1 :: (mid ++ [c2]) ++ post) with ((c1 :: mid ++ [c2]) ++ post).
  rewrite trim_end_spaces by exact Hpost.
  change (c1 :: mid ++ [c2]) with ((c1 :: mid) ++ [c2]).
  apply trim_end_last. exact H2.
Qed.

Lemma trim_decompose (s : jsstring) :
  exists pre post : jsstring,
    s = pre ++ trim s ++ post /\ spaces pre /\ spaces post.
Proof.
  destruct (trim_start_prefix s) as [pre [Heq Hpre]].
  destruct (trim_end_suffix (trim_start s)) as [post [Heq' Hpost]].
  exists pre, post. unfold trim.
  split; [| split; assumption].
  rewrite <- Heq'. exact Heq.
Qed.

(** *** The digits *)

Lemma is_hex_any_hex (c : code_unit) : is_hex c = true <-> any_hex c.
Proof.
  split.
  - unfold is_hex, hex_value. intros H.
    destruct ((48 <=? c) && (c <=? 57))%N eqn:E1;
      [| destruct ((97 <=? c) && (c <=? 102))%N eqn:E2;
         [| destruct ((65 <=? c) && (c <=? 70))%N eqn:E3; [| discriminate]]].
    all: match goal with
         | E : (_ && _)%bool = true |- _ =>
             apply andb_true_iff in E as [Ea Eb];
             apply N.leb_le in Ea; apply N.leb_le in Eb
         end.
    + assert (Hc : (c = 48 \/ c = 49 \/ c = 50 \/ c = 51 \/ c = 52 \/ c = 53 \/
                    c = 54 \/ c = 55 \/ c = 56 \/ c = 57)%N) by lia.
      unfold any_hex.
      repeat (destruct Hc as [-> | Hc]; [vm_compute; tauto |]).
      subst c. vm_compute. tauto.
    + assert (Hc : (c = 97 \/ c = 98 \/ c = 99 \/ c = 100 \/ c = 101 \/
                    c = 102)%N) by lia.
      unfold any_hex.
      repeat (destruct Hc as [-> | Hc]; [vm_compute; tauto |]).
      subst c. vm_compute. tauto.
    + assert (Hc : (c = 65 \/ c = 66 \/ c = 67 \/ c = 68 \/ c = 69 \/
                    c = 70)%N) by lia.
      unfold any_hex.
      repeat (destruct Hc as [-> | Hc]; [vm_compute; tauto |]).
      subst c. vm_compute. tauto.
  - unfold any_hex. intros H. vm_compute in H.
    repeat (destruct H as [<- | H]; [reflexivity |]). contradiction.
Qed.

Lemma any_hex_facts (c : code_unit) :
  any_hex c -> is_space c = false /\ (c =? 35)%N = false.
Proof.
  unfold any_hex. intros H. vm_compute in H.
  repeat (destruct H as [<- | H]; [split; reflexivity |]). contradiction.
Qed.

Lemma forallb_is_hex (s : jsstring) :
  forallb is_hex s = true <-> Forall any_hex s.
Proof.
  rewrite forallb_forall, Forall_forall.
  split; intros H c Hc; apply is_hex_any_hex, H, Hc.
Qed.

(** The test of [parseHex] on a trimmed string. *)
Lemma is_hex6_form (t : jsstring) :
  is_hex6 (strip_hash t) = true <-> hex6_form t.
Proof.
  unfold is_hex6, hex6_form. rewrite andb_true_iff, Nat.eqb_eq, forallb_is_hex.
  split.
  - intros [Hlen Hall]. exists (strip_hash t).
    split; [| split; assumption].
    destruct t as [| c t']; [left; reflexivity |].
    cbn [strip_hash]. destruct (c =? 35)%N eqn:Ec.
    + apply N.eqb_eq in Ec. subst c. right. reflexivity.
    + left. reflexivity.
  - intros [body [[-> | ->] [Hlen Hall]]].
    + destruct body as [| c body']; [discriminate |].
      cbn [strip_hash].
      assert (Hc : (c =? 35)%N = false).
      { apply any_hex_facts. inversion Hall; assumption. }
      rewrite Hc. split; assumption.
    + cbn [strip_hash]. rewrite N.eqb_refl. split; assumption.
Qed.

Lemma parseHex_some (s : jsstring) :
  parseHex s <> None <-> hex6_form (trim s).
Proof.
  rewrite <- is_hex6_form. unfold parseHex.
  destruct (is_hex6 (strip_hash (trim s))); cbn [negb]; split; intros H;
    congruence.
Qed.

(** A string of the form has a first and a last character, neither of
    them white space. *)
Lemma hex6_form_ends (core : jsstring) :
  hex6_form core ->
  exists (c1 c2 : code_unit) (mid : jsstring),
    core = c1 :: mid ++ [c2] /\ is_space c1 = false /\ is_space c2 = false.
Proof.
  intros [body [Hcore [Hlen Hall]]].
  do 6 (destruct body as [| ? body]; [discriminate |]).
  destruct body; [| discriminate].
  assert (Hlast : is_space c4 = false).
  { apply any_hex_facts.
    rewrite Forall_forall in Hall. apply Hall. cbn. tauto. }
  destruct Hcore as [-> | ->].
  - exists c, c4, [c0; c1; c2; c3]. split; [reflexivity |].
    split; [| exact Hlast].
    apply any_hex_facts. inversion Hall; assumption.
  - exists 35%N, c4, [c; c0; c1; c2; c3]. split; [reflexivity |].
    split; [reflexivity | exact Hlast].
Qed.

(** [parseHex] accepts exactly the strings that are, between white space,
    six hexadecimal digits after an optional '#'. *)
Lemma parseHex_accepts (s : jsstring) :
  parseHex s <> None <->
  exists pre core post : jsstring,
    s = pre ++ core ++ post /\ spaces pre /\ spaces post /\ hex6_form core.
Proof.
  rewrite parseHex_some. split.
  - intros H. destruct (trim_decompose s) as [pre [post [Heq [Hpre Hpost]]]].
    exists pre, (trim s), post. tauto.
  - intros [pre [core [post [-> [Hpre [Hpost Hform]]]]]].
    destruct (hex6_form_ends core Hform) as [c1 [c2 [mid [Hcore [H1 H2]]]]].
    rewrite (trim_core pre post core c1 c2 mid); assumption.
Qed.

(** *** The round trip *)

Lemma trim_clean (c1 c2 : code_unit) (mid : jsstring) :
  is_space c1 = false -> is_space c2 = false ->
  trim (c1 :: mid ++ [c2]) = c1 :: mid ++ [c2].
Proof.
  intros H1 H2.
  pose proof (trim_core [] [] _ c1 c2 mid (Forall_nil _) (Forall_nil _)
                eq_refl H1 H2) as H.
  cbn [app] in H. rewrite app_nil_r in H. exact H.
Qed.

Lemma parseHex_of_digits (h1 l1 h2 l2 h3 l3 : Z) :
  (0 <= h1 < 16)%Z -> (0 <= l1 < 16)%Z -> (0 <= h2 < 16)%Z ->
  (0 <= l2 < 16)%Z -> (0 <= h3 < 16)%Z -> (0 <= l3 < 16)%Z ->
  parseHex (35%N :: map hex_digit [h1; l1; h2; l2; h3; l3]) =
  Some (IZR (16 * h1 + l1) / 255, IZR (16 * h2 + l2) / 255,
        IZR (16 * h3 + l3) / 255).
Proof.
  intros H1 H2 H3 H4 H5 H6.
  destruct (hex_digit_facts h1 H1) as [_ [_ [V1 _]]].
  destruct (hex_digit_facts l1 H2) as [_ [_ [V2 _]]].
  destruct (hex_digit_facts h2 H3) as [_ [_ [V3 _]]].
  destruct (hex_digit_facts l2 H4) as [_ [_ [V4 _]]].
  destruct (hex_digit_facts h3 H5) as [_ [_ [V5 _]]].
  destruct (hex_digit_facts l3 H6) as [_ [S6 [V6 _]]].
  unfold parseHex.
  change (35%N :: map hex_digit [h1; l1; h2; l2; h3; l3])
    with (35%N :: map hex_digit [h1; l1; h2; l2; h3] ++ [hex_digit l3]).
  rewrite trim_clean by (reflexivity || exact S6).
  cbn [strip_hash N.eqb Pos.eqb map].
  unfold is_hex6, JS.slice, parseInt16, is_hex.
  cbn [app List.length Nat.eqb forallb firstn skipn Nat.sub fold_left].
  rewrite V1, V2, V3, V4, V5, V6.
  cbn [andb negb].
  repeat f_equal; lia.
Qed.

Lemma rgbToHex_digits (r g b : R) :
  let kr := Num.round (clamp01 r * 255) in
  let kg := Num.round (clamp01 g * 255) in
  let kb := Num.round (clamp01 b * 255) in
  rgbToHex r g b =
  35%N :: map hex_digit [kr / 16; kr mod 16; kg / 16; kg mod 16;
                         kb / 16; kb mod 16]%Z.
Proof.
  intros kr kg kb. unfold rgbToHex. rewrite !toByteHex_digits. reflexivity.
Qed.

(** Parsing the hex string of a colour gives its quantised channels. *)
Lemma parseHex_rgbToHex (r g b : R) :
  parseHex (rgbToHex r g b) =
  Some (IZR (Num.round (clamp01 r * 255)) / 255,
        IZR (Num.round (clamp01 g * 255)) / 255,
        IZR (Num.round (clamp01 b * 255)) / 255).
Proof.
  rewrite rgbToHex_digits.
  pose proof (proj1 (round_channel r)) as Hr.
  pose proof (proj1 (round_channel g)) as Hg.
  pose proof (proj1 (round_channel b)) as Hb.
  cbv zeta in Hr, Hg, Hb.
  rewrite parseHex_of_digits.
  - rewrite <- !Z.div_mod by lia. reflexivity.
  - split; [apply Z.div_pos; lia | apply Z.div_lt_upper_bound; lia].
  - apply Z.mod_pos_bound; lia.
  - split; [apply Z.div_pos; lia | apply Z.div_lt_upper_bound; lia].
  - apply Z.mod_pos_bound; lia.
  - split; [apply Z.div_pos; lia | apply Z.div_lt_upper_bound; lia].
  - apply Z.mod_pos_bound; lia.
Qed.

Lemma rgbToHex_then_parseHex (r g b : R) :
  0 <= r <= 1 -> 0 <= g <= 1 -> 0 <= b <= 1 ->
  exists r' g' b' : R,
    parseHex (rgbToHex r g b) = Some (r', g', b') /\
    Rabs (r' - r) <= 1 / 255 /\ Rabs (g' - g) <= 1 / 255 /\
    Rabs (b' - b) <= 1 / 255.
Proof.
  intros Hr Hg Hb.
  do 3 eexists. split; [apply parseHex_rgbToHex |].
  pose proof (proj2 (round_channel r)) as Er.
  pose proof (proj2 (round_channel g)) as Eg.
  pose proof (proj2 (round_channel b)) as Eb.
  cbv zeta in Er, Eg, Eb.
  set (qr := IZR (Num.round (clamp01 r * 255)) / 255) in *.
  set (qg := IZR (Num.round (clamp01 g * 255)) / 255) in *.
  set (qb := IZR (Num.round (clamp01 b * 255)) / 255) in *.
  rewrite (clamp01_id r Hr) in Er. rewrite (clamp01_id g Hg) in Eg.
  rewrite (clamp01_id b Hb) in Eb.
  repeat split; eapply Rle_trans; try eassumption; lra.
Qed.

Lemma parseHex_bad : parseHex (lit "bad") = None.
Proof.
  destruct (parseHex (lit "bad")) eqn:E; [| reflexivity].
  assert (H : parseHex (lit "bad") <> None) by congruence.
  apply parseHex_some, is_hex6_form in H. vm_compute in H. discriminate.
Qed.

Lemma not_hex6_form_padded : ~ hex6_form (lit " ff8800").
Proof.
  intros H. apply is_hex6_form in H. vm_compute in H. discriminate.
Qed.

(** C5, as stated: [parseHex] would return no value on every string that
    is not exactly six hexadecimal digits after an optional '#'. The
    string " ff8800", with a leading blank, is not of that form and is
    parsed. *)
Lemma parseHex_rejects_all_other_strings_fails :
  ~ (forall s : jsstring, ~ hex6_form s -> parseHex s = None).
Proof.
  intros H. specialize (H (lit " ff8800") not_hex6_form_padded).
  revert H. apply parseHex_some.
  apply is_hex6_form. vm_compute. reflexivity.
Qed.

(** C5, amended. For r, g, b in [0, 1], [parseHex (rgbToHex r g b)]
    reproduces (r, g, b) within 1/255 per channel; [parseHex] returns a
    value exactly on the strings that, once the white space around them is
    removed, are six hexadecimal digits of either case after an optional
    '#', and no value on all others; [parseHex "bad"] is no value. *)
Theorem hex_round_trip_and_strict_parse :
  (forall r g b : R,
      0 <= r <= 1 -> 0 <= g <= 1 -> 0 <= b <= 1 ->
      exists r' g' b' : R,
        parseHex (rgbToHex r g b) = Some (r', g', b') /\
        Rabs (r' - r) <= 1 / 255 /\ Rabs (g' - g) <= 1 / 255 /\
        Rabs (b' - b) <= 1 / 255) /\
  (forall s : jsstring,
      parseHex s = None <->
      ~ exists pre core post : jsstring,
          s = pre ++ core ++ post /\ spaces pre /\ spaces post /\
          hex6_form core) /\
  parseHex (lit "bad") = None.
Proof.
  split; [exact rgbToHex_then_parseHex |]. split; [| exact parseHex_bad].
  intros s. rewrite <- parseHex_accepts.
  destruct (parseHex s) as [v |].
  - split; [discriminate | intros H; exfalso; apply H; discriminate].
  - split; [intros _ H; apply H; reflexivity | reflexivity].
Qed.

Lemma hex_round_trip_and_strict_parse_witness :
  exists r' g' b' : R,
    parseHex (rgbToHex 1 0.5 0) = Some (r', g', b') /\
    Rabs (r' - 1) <= 1 / 255 /\ Rabs (g' - 0.5) <= 1 / 255 /\
    Rabs (b' - 0) <= 1 / 255.
Proof.
  apply (proj1 hex_round_trip_and_strict_parse); lra.
Defined.

(** ** Parametric tone curves *)

Lemma div_nonzero (x y : R) : y <> 0 -> Num.div x y = Ok (x / y).
Proof.
  intros H. unfold Num.div. rewrite (proj2 (eqb_false y 0)) by exact H.
  reflexivity.
Qed.

Lemma div_zero (x : R) : Num.div x 0 = Err DivisionByZero.
Proof.
  unfold Num.div. rewrite (proj2 (eqb_true 0 0)) by reflexivity. reflexivity.
Qed.

Lemma pow_no_division (x y : R) : Num.pow x y <> Err DivisionByZero.
Proof.
  unfold Num.pow.
  destruct (Num.ltb 0 x); [discriminate |].
  destruct (Num.eqb x 0).
  - destruct (Num.ltb 0 y); [discriminate |].
    destruct (Num.eqb y 0); discriminate.
  - destruct (Num.is_int y); discriminate.
Qed.

(** With nonzero [g] and [a] the power-law branch divides by no zero. *)
Lemma powerLawInverse_no_division (g a b x : R) :
  g <> 0 -> a <> 0 -> powerLawInverse g a b x <> Err DivisionByZero.
Proof.
  intros Hg Ha. unfold powerLawInverse.
  rewrite (div_nonzero 1 g Hg). cbn [bind].
  pose proof (pow_no_division (Rmax 0 x) (1 / g)) as Hp.
  destruct (Num.pow (Rmax 0 x) (1 / g)) as [y | err]; cbn [bind].
  - rewrite (div_nonzero _ a Ha). discriminate.
  - exact Hp.
Qed.

(** The two branches of the type 3 encoder. *)
Lemma para3_encode_branches (g a b c d v : R) :
  (v <= c * d /\ c <> 0 /\
   curveEncode (Para3 g a b c d) v = Ok (v / c)) \/
  ((c * d < v \/ c = 0) /\
   curveEncode (Para3 g a b c d) v = powerLawInverse g a b v).
Proof.
  cbn [curveEncode].
  destruct (Num.leb v (c * d)) eqn:Ev; destruct (Num.eqb c 0) eqn:Ec;
    cbn [andb negb].
  - right. apply eqb_true in Ec. split; [right; exact Ec | reflexivity].
  - left. apply leb_true in Ev. apply eqb_false in Ec.
    split; [exact Ev | split; [exact Ec | apply div_nonzero; exact Ec]].
  - right. apply leb_false in Ev. split; [left; exact Ev | reflexivity].
  - right. apply leb_false in Ev. split; [left; exact Ev | reflexivity].
Qed.

(** The two branches of the type 4 encoder. *)
Lemma para4_encode_branches (g a b c d e f v : R) :
  (v <= c * d + f /\ c <> 0 /\
   curveEncode (Para4 g a b c d e f) v = Ok ((v - f) / c)) \/
  ((c * d + f < v \/ c = 0) /\
   curveEncode (Para4 g a b c d e f) v = powerLawInverse g a b (v - e)).
Proof.
  cbn [curveEncode].
  destruct (Num.leb v (c * d + f)) eqn:Ev; destruct (Num.eqb c 0) eqn:Ec;
    cbn [andb negb].
  - right. apply eqb_true in Ec. split; [right; exact Ec | reflexivity].
  - left. apply leb_true in Ev. apply eqb_false in Ec.
    split; [exact Ev | split; [exact Ec | apply div_nonzero; exact Ec]].
  - right. apply leb_false in Ev. split; [left; exact Ev | reflexivity].
  - right. apply leb_false in Ev. split; [left; exact Ev | reflexivity].
Qed.

(** C9, as stated: the encoders would never divide by zero, whatever the
    input. With [c = 0] every input takes the power-law branch, and that
    branch divides by [a]: for the type 3 curve with g = 1 and
    a = b = c = d = 0, encoding 1 divides by zero. *)
Lemma para_encode_divides_by_zero :
  curveEncode (Para3 1 0 0 0 0) 1 = Err DivisionByZero /\
  ~ (forall g a b c d v : R,
        curveEncode (Para3 g a b c d) v <> Err DivisionByZero).
Proof.
  assert (H : curveEncode (Para3 1 0 0 0 0) 1 = Err DivisionByZero).
  { cbn [curveEncode].
    rewrite (proj2 (eqb_true 0 0)) by reflexivity.
    rewrite andb_false_r.
    rewrite div_nonzero by lra. cbn [bind].
    unfold Num.pow. rewrite Rmax_right by lra.
    rewrite (proj2 (ltb_true 0 1)) by lra. cbn [bind].
    apply div_zero. }
  split; [exact H |].
  intros Hall. exact (Hall 1 0 0 0 0 1 H).
Qed.

(** C9, amended. The encoders of the parametric curves of types 3 and 4
    divide by [c] only on the branch guarded by [c <> 0]; when [c = 0]
    every input takes the power-law inverse branch; so they never divide by
    a zero [c], and they divide by no zero at all when [g] and [a], the
    divisors of the power-law branch, are not zero. *)
Theorem para_encode_guarded_division :
  forall g a b c d e f v : R,
    ((v <= c * d /\ c <> 0 /\
      curveEncode (Para3 g a b c d) v = Ok (v / c)) \/
     ((c * d < v \/ c = 0) /\
      curveEncode (Para3 g a b c d) v = powerLawInverse g a b v)) /\
    ((v <= c * d + f /\ c <> 0 /\
      curveEncode (Para4 g a b c d e f) v = Ok ((v - f) / c)) \/
     ((c * d + f < v \/ c = 0) /\
      curveEncode (Para4 g a b c d e f) v = powerLawInverse g a b (v - e))) /\
    (c = 0 ->
     curveEncode (Para3 g a b c d) v = powerLawInverse g a b v /\
     curveEncode (Para4 g a b c d e f) v = powerLawInverse g a b (v - e)) /\
    (g <> 0 -> a <> 0 ->
     curveEncode (Para3 g a b c d) v <> Err DivisionByZero /\
     curveEncode (Para4 g a b c d e f) v <> Err DivisionByZero).
Proof.
  intros g a b c d e f v.
  pose proof (para3_encode_branches g a b c d v) as H3.
  pose proof (para4_encode_branches g a b c d e f v) as H4.
  split; [exact H3 |]. split; [exact H4 |]. split.
  - intros Hc. split.
    + destruct H3 as [[_ [Hne _]] | [_ H]]; [contradiction | exact H].
    + destruct H4 as [[_ [Hne _]] | [_ H]]; [contradiction | exact H].
  - intros Hg Ha. split.
    + destruct H3 as [[_ [_ H]] | [_ H]]; rewrite H;
        [discriminate | apply powerLawInverse_no_division; assumption].
    + destruct H4 as [[_ [_ H]] | [_ H]]; rewrite H;
        [discriminate | apply powerLawInverse_no_division; assumption].
Qed.

Lemma para_encode_guarded_division_witness :
  curveEncode (Para3 2.4 1 0 0 0.04045) 0.5 = powerLawInverse 2.4 1 0 0.5 /\
  curveEncode (Para3 2.4 1 0 0 0.04045) 0.5 <> Err DivisionByZero.
Proof.
  split.
  - apply (proj1 (proj2 (proj2 (para_encode_guarded_division
                                  2.4 1 0 0 0.04045 0 0 0.5)))).
    reflexivity.
  - apply (proj2 (proj2 (proj2 (para_encode_guarded_division
                                  2.4 1 0 0 0.04045 0 0 0.5)))); lra.
Defined.

(** ** Matrix inversion *)

Lemma mat3Invert_none (M : mat3) :
  mat3Invert M = None <-> Rabs (mat3Det M) < 1e-15.
Proof.
  destruct M as [[[[a b] c] [[d e] f]] [[g h] k]].
  unfold mat3Invert, mat3Det.
  destruct (Num.ltb _ _) eqn:E.
  - apply ltb_true in E. split; [intros _; exact E | reflexivity].
  - apply ltb_false in E. split; [discriminate | lra].
Qed.

(** ** Parsing a profile *)

(** The reads of a [DataView] throw nothing but a [RangeError]. *)
Lemma view_error (dv : buffer) (off : Z) (n : nat) (e : exn) :
  view dv off n = Err e -> e = RangeError.
Proof. unfold view. destruct (_ && _); congruence. Qed.

Ltac bind_error H :=
  repeat match type of H with
  | bind ?m _ = Err _ =>
      let E := fresh "E" in
      destruct m eqn:E; cbn [bind] in H
  | (if ?c then _ else _) = Err _ => destruct c
  | Ok _ = Err _ => discriminate H
  | Err _ = Err _ => injection H as H
  end.

Lemma getUint16_error (dv : buffer) (off : Z) (e : exn) :
  getUint16 dv off = Err e -> e = RangeError.
Proof.
  unfold getUint16. intros H. bind_error H. subst. eapply view_error; eassumption.
Qed.

Lemma getUint32_error (dv : buffer) (off : Z) (e : exn) :
  getUint32 dv off = Err e -> e = RangeError.
Proof.
  unfold getUint32. intros H. bind_error H. subst. eapply view_error; eassumption.
Qed.

Lemma getInt32_error (dv : buffer) (off : Z) (e : exn) :
  getInt32 dv off = Err e -> e = RangeError.
Proof.
  unfold getInt32. intros H. bind_error H. subst.
  eapply getUint32_error; eassumption.
Qed.

Lemma readS15Fixed16_error (dv : buffer) (off : Z) (e : exn) :
  readS15Fixed16 dv off = Err e -> e = RangeError.
Proof.
  unfold readS15Fixed16. intros H. bind_error H. subst.
  eapply getInt32_error; eassumption.
Qed.

Lemma getUint16s_error (dv : buffer) (n : nat) (off : Z) (e : exn) :
  getUint16s dv off n = Err e -> e = RangeError.
Proof.
  revert off. induction n as [| n IH]; intros off H; cbn [getUint16s] in H.
  - discriminate.
  - destruct (getUint16 dv off) eqn:E1; cbn [bind] in H.
    + destruct (getUint16s dv (off + 2) n) eqn:E2; cbn [bind] in H.
      * discriminate.
      * injection H as <-. eapply IH; eassumption.
    + injection H as <-. eapply getUint16_error; eassumption.
Qed.

Lemma parseTRC_error (dv : buffer) (t : tag) (e : exn) :
  parseTRC dv t = Err e -> e = RangeError.
Proof.
  unfold parseTRC. intros H.
  bind_error H; subst;
    first [ eapply getUint32_error; eassumption
          | eapply getUint16_error; eassumption
          | eapply getUint16s_error; eassumption
          | eapply readS15Fixed16_error; eassumption ].
Qed.

Lemma channelTRC_error (dv : buffer) (tags : tag_table) (sig : string) (e : exn) :
  channelTRC dv tags sig = Err e -> e = RangeError.
Proof.
  unfold channelTRC. destruct (lookup sig tags).
  - apply parseTRC_error.
  - discriminate.
Qed.

(** When the tag table and the description have been read, a missing
    primary ends the parse with the "not matrix-based" error. *)
Lemma parse_missing_primary (buffer : buffer) (tags : tag_table) (name : jsstring) :
  tagsOf buffer = Ok tags ->
  profileDescription buffer tags = Ok name ->
  lookup "rXYZ" tags = None \/ lookup "gXYZ" tags = None \/
  lookup "bXYZ" tags = None ->
  parseICCProfile buffer = Err notMatrixBased.
Proof.
  unfold tagsOf, parseICCProfile. intros Htags Hname Hmiss.
  destruct (getUint32 buffer 128) as [tagCount | e]; cbn [bind] in *;
    [| discriminate].
  rewrite Htags. cbn [bind]. rewrite Hname. cbn [bind].
  destruct Hmiss as [-> | [H | H]].
  - reflexivity.
  - rewrite H. destruct (lookup "rXYZ" tags); reflexivity.
  - rewrite H. destruct (lookup "rXYZ" tags); [| reflexivity].
    destruct (lookup "gXYZ" tags); reflexivity.
Qed.

(** A failed parse changes neither the working colour space nor the cached
    profile; the error is shown. *)
Lemma failed_import_keeps_state (buffer : buffer) (st : AppState) (e : exn) :
  parseICCProfile buffer = Err e ->
  workingCS (handleICCImport (Some buffer) st) = workingCS st /\
  iccProfileBase64 (handleICCImport (Some buffer) st) = iccProfileBase64 st /\
  alerts (handleICCImport (Some buffer) st) = alerts st ++ [e].
Proof.
  intros H. unfold handleICCImport. rewrite H. cbn. repeat split.
Qed.

Lemma truncatedProfile_parse : parseICCProfile truncatedProfile = Err RangeError.
Proof.
  unfold parseICCProfile.
  replace (getUint32 truncatedProfile 128) with (@Ok exn Z 1%Z)
    by (vm_compute; reflexivity).
  cbn [bind].
  replace (readTags truncatedProfile (Z.to_nat 1) 0 [])
    with (@Err exn tag_table RangeError) by (vm_compute; reflexivity).
  reflexivity.
Qed.

Lemma truncatedProfile_tags : tagsOf truncatedProfile = Err RangeError.
Proof. vm_compute. reflexivity. Qed.

(** C3, as stated: parsing any buffer without one of the three primaries
    would fail with the "not matrix-based" error. A file that is cut off
    inside its tag table has no 'gXYZ' entry, and its parse fails with the
    [RangeError] of the read past the end of the buffer. *)
Lemma missing_primary_other_error :
  (forall tags : tag_table,
      tagsOf truncatedProfile = Ok tags -> lookup "gXYZ" tags = None) /\
  parseICCProfile truncatedProfile = Err RangeError /\
  parseICCProfile truncatedProfile <> Err notMatrixBased.
Proof.
  split; [| split].
  - intros tags H. rewrite truncatedProfile_tags in H. discriminate.
  - exact truncatedProfile_parse.
  - rewrite truncatedProfile_parse. discriminate.
Qed.

(** C3, amended. When the tag table and the profile description are read
    without leaving the buffer, a profile that lacks 'rXYZ', 'gXYZ' or
    'bXYZ' fails to parse with the error "Not a matrix-based RGB profile
    (missing XYZ tags)"; and a failed parse, whatever its error, leaves the
    active working colour space and the cached profile as they were. *)
Theorem missing_primary_rejected :
  (forall (buffer : buffer) (tags : tag_table) (name : jsstring),
      tagsOf buffer = Ok tags ->
      profileDescription buffer tags = Ok name ->
      lookup "rXYZ" tags = None \/ lookup "gXYZ" tags = None \/
      lookup "bXYZ" tags = None ->
      parseICCProfile buffer = Err notMatrixBased) /\
  (forall (buffer : buffer) (st : AppState) (e : exn),
      parseICCProfile buffer = Err e ->
      workingCS (handleICCImport (Some buffer) st) = workingCS st /\
      iccProfileBase64 (handleICCImport (Some buffer) st) = iccProfileBase64 st /\
      alerts (handleICCImport (Some buffer) st) = alerts st ++ [e]).
Proof.
  split; [exact parse_missing_primary | exact failed_import_keeps_state].
Qed.

Lemma missing_primary_rejected_witness :
  parseICCProfile profileWithoutGreen = Err notMatrixBased /\
  workingCS (handleICCImport (Some profileWithoutGreen)
               {| workingCS := createSRGBWorkingCS;
                  iccProfileBase64 := None; alerts := [] |})
  = createSRGBWorkingCS.
Proof.
  assert (H : parseICCProfile profileWithoutGreen = Err notMatrixBased).
  { apply (proj1 missing_primary_rejected profileWithoutGreen
             [("bXYZ"%string, {| offset := 176%Z; size := 20%Z |});
              ("rXYZ"%string, {| offset := 156%Z; size := 20%Z |})]
             (lit "Custom CS")).
    - vm_compute. reflexivity.
    - vm_compute. reflexivity.
    - right. left. reflexivity. }
  split; [exact H |].
  exact (proj1 (proj2 missing_primary_rejected profileWithoutGreen
                  {| workingCS := createSRGBWorkingCS;
                     iccProfileBase64 := None; alerts := [] |} _ H)).
Defined.

(** *** The description of an ICC v4 profile *)

(** Filling an array that does not fit between [off] and the end of the
    buffer ends in a [RangeError]. *)
Lemma getUint16s_out_of_bounds (dv : buffer) (n : nat) (off : Z) :
  (0 < n)%nat -> (byteLength dv < off + 2 * Z.of_nat n)%Z ->
  getUint16s dv off n = Err RangeError.
Proof.
  revert off. induction n as [| n IH]; intros off Hn Hlen; [lia |].
  cbn [getUint16s].
  destruct (getUint16 dv off) as [x | e] eqn:E; cbn [bind].
  - assert (Hfit : (off + 2 <= byteLength dv)%Z).
    { unfold getUint16, view in E.
      destruct ((0 <=? off) && (off + Z.of_nat 2 <=? byteLength dv))%Z eqn:Eb;
        [| discriminate].
      apply andb_true_iff in Eb as [_ Eb]. apply Z.leb_le in Eb. lia. }
    rewrite IH by lia. reflexivity.
  - apply getUint16_error in E. subst e. reflexivity.
Qed.

(** The 'mluc' branch takes the length and the offset of the first record
    from +16 and +20 of the tag, where the profile has the language and
    country codes and the length: for [lutProfileV4] the array has
    850864809 elements and is read from offset 4 of the tag, past the end
    of the buffer. The parse fails there, before the test of the
    primaries. *)
Lemma lutProfileV4_parse :
  tagsOf lutProfileV4
  = Ok [("A2B0"%string, {| offset := 188%Z; size := 8%Z |});
        ("desc"%string, {| offset := 156%Z; size := 32%Z |})] /\
  parseICCProfile lutProfileV4 = Err RangeError.
Proof.
  assert (Htags : tagsOf lutProfileV4
            = Ok [("A2B0"%string, {| offset := 188%Z; size := 8%Z |});
                  ("desc"%string, {| offset := 156%Z; size := 32%Z |})])
    by (vm_compute; reflexivity).
  split; [exact Htags |].
  unfold tagsOf in Htags. unfold parseICCProfile.
  destruct (getUint32 lutProfileV4 128) as [tagCount | e]; cbn [bind] in *;
    [| discriminate].
  rewrite Htags. cbn [bind].
  replace (profileDescription lutProfileV4
             [("A2B0"%string, {| offset := 188%Z; size := 8%Z |});
              ("desc"%string, {| offset := 156%Z; size := 32%Z |})])
    with (@Err exn jsstring RangeError); [reflexivity |].
  symmetry. unfold profileDescription.
  replace (lookup "desc" _)
    with (Some {| offset := 156%Z; size := 32%Z |}) by reflexivity.
  cbn [offset].
  replace (signature lutProfileV4 156) with "mluc"%string
    by (vm_compute; reflexivity).
  replace (String.eqb "mluc" "desc") with false by reflexivity.
  replace (String.eqb "mluc" "mluc") with true by reflexivity.
  replace (getUint32 lutProfileV4 (156 + 8)) with (@Ok exn Z 1%Z)
    by (vm_compute; reflexivity).
  cbn [bind]. replace (0 <? 1)%Z with true by reflexivity.
  replace (getUint32 lutProfileV4 (156 + 16)) with (@Ok exn Z 1701729619%Z)
    by (vm_compute; reflexivity).
  replace (getUint32 lutProfileV4 (156 + 20)) with (@Ok exn Z 4%Z)
    by (vm_compute; reflexivity).
  cbn [bind].
  change (1701729619 / 2)%Z with 850864809%Z.
  rewrite getUint16s_out_of_bounds; [reflexivity | |].
  - change 0%nat with (Z.to_nat 0). apply Z2Nat.inj_lt; lia.
  - rewrite Z2Nat.id by lia.
    replace (byteLength lutProfileV4) with 196%Z by (vm_compute; reflexivity).
    lia.
Qed.

(** Once the primaries are read, the parse ends with the "singular matrix"
    error exactly when the inversion fails. *)
Lemma parse_singular (buffer : buffer) (tags : tag_table) (name : jsstring)
    (tagR tagG tagB : tag) (rXYZ gXYZ bXYZ : vec3) :
  tagsOf buffer = Ok tags ->
  profileDescription buffer tags = Ok name ->
  lookup "rXYZ" tags = Some tagR ->
  lookup "gXYZ" tags = Some tagG ->
  lookup "bXYZ" tags = Some tagB ->
  readXYZTag buffer tagR = Ok rXYZ ->
  readXYZTag buffer tagG = Ok gXYZ ->
  readXYZTag buffer tagB = Ok bXYZ ->
  parseICCProfile buffer = Err singularMatrix <->
  mat3Invert (forwardMatrixOf rXYZ gXYZ bXYZ) = None.
Proof.
  unfold tagsOf, parseICCProfile.
  intros Htags Hname HR HG HB HrXYZ HgXYZ HbXYZ.
  destruct (getUint32 buffer 128) as [tagCount | e]; cbn [bind] in *;
    [| discriminate].
  rewrite Htags. cbn [bind]. rewrite Hname. cbn [bind].
  rewrite HR, HG, HB, HrXYZ, HgXYZ, HbXYZ. cbn [bind].
  destruct rXYZ as [[rX rY] rZ], gXYZ as [[gX gY] gZ], bXYZ as [[bX bY] bZ].
  cbn [forwardMatrixOf].
  destruct (mat3Invert _) as [inverse |].
  - split; [| discriminate].
    intros H. exfalso.
    destruct (channelTRC buffer tags "rTRC") eqn:ER; cbn [bind] in H.
    + destruct (channelTRC buffer tags "gTRC") eqn:EG; cbn [bind] in H.
      * destruct (channelTRC buffer tags "bTRC") eqn:EB; cbn [bind] in H.
        -- discriminate.
        -- apply channelTRC_error in EB. subst. discriminate.
      * apply channelTRC_error in EG. subst. discriminate.
    + apply channelTRC_error in ER. subst. discriminate.
  - split; reflexivity.
Qed.

Lemma equalPrimaries_read :
  readXYZTag profileWithEqualPrimaries {| offset := 168%Z; size := 20%Z |}
  = Ok (IZR 63190 / 65536, IZR 65536 / 65536, IZR 54061 / 65536).
Proof.
  unfold readXYZTag, readS15Fixed16. cbn [offset].
  replace (getInt32 profileWithEqualPrimaries (168 + 8))
    with (@Ok exn Z 63190%Z) by (vm_compute; reflexivity).
  replace (getInt32 profileWithEqualPrimaries (168 + 8 + 4))
    with (@Ok exn Z 65536%Z) by (vm_compute; reflexivity).
  replace (getInt32 profileWithEqualPrimaries (168 + 8 + 8))
    with (@Ok exn Z 54061%Z) by (vm_compute; reflexivity).
  reflexivity.
Qed.

(** Three equal primaries make the forward matrix singular. *)
Lemma equal_primaries_singular (v : vec3) :
  mat3Det (forwardMatrixOf v v v) = 0.
Proof.
  destruct v as [[x y] z].
  unfold forwardMatrixOf, mat3Multiply, rowTimes, mat3Det,
    XYZ_TO_LINEAR_SRGB, BRADFORD_D50_TO_D65.
  ring.
Qed.

(** *** A singular profile that is accepted *)


Lemma dependentPrimaries_read :
  readXYZTag profileWithDependentPrimaries {| offset := 168%Z; size := 20%Z |}
  = Ok (IZR 10166 / 65536, IZR 65113 / 65536, IZR 61598 / 65536) /\
  readXYZTag profileWithDependentPrimaries {| offset := 188%Z; size := 20%Z |}
  = Ok (IZR 60865 / 65536, IZR 13758 / 65536, IZR 58305 / 65536) /\
  readXYZTag profileWithDependentPrimaries {| offset := 208%Z; size := 20%Z |}
  = Ok (IZR 71031 / 65536, IZR 78871 / 65536, IZR 119903 / 65536).
Proof.
  unfold readXYZTag, readS15Fixed16. cbn [offset].
  replace (getInt32 profileWithDependentPrimaries (168 + 8))
    with (@Ok exn Z 10166%Z) by (vm_compute; reflexivity).
  replace (getInt32 profileWithDependentPrimaries (168 + 8 + 4))
    with (@Ok exn Z 65113%Z) by (vm_compute; reflexivity).
  replace (getInt32 profileWithDependentPrimaries (168 + 8 + 8))
    with (@Ok exn Z 61598%Z) by (vm_compute; reflexivity).
  replace (getInt32 profileWithDependentPrimaries (188 + 8))
    with (@Ok exn Z 60865%Z) by (vm_compute; reflexivity).
  replace (getInt32 profileWithDependentPrimaries (188 + 8 + 4))
    with (@Ok exn Z 13758%Z) by (vm_compute; reflexivity).
  replace (getInt32 profileWithDependentPrimaries (188 + 8 + 8))
    with (@Ok exn Z 58305%Z) by (vm_compute; reflexivity).
  replace (getInt32 profileWithDependentPrimaries (208 + 8))
    with (@Ok exn Z 71031%Z) by (vm_compute; reflexivity).
  replace (getInt32 profileWithDependentPrimaries (208 + 8 + 4))
    with (@Ok exn Z 78871%Z) by (vm_compute; reflexivity).
  replace (getInt32 profileWithDependentPrimaries (208 + 8 + 8))
    with (@Ok exn Z 119903%Z) by (vm_compute; reflexivity).
  repeat split.
Qed.

(** On binary64 numbers [mat3Invert] returns no value exactly when the
    magnitude of the determinant as it computes it is below 1e-15. *)
Lemma mat3Invert_none_in_doubles (M : F64.mat3) :
  F64.mat3Invert M = None <->
  (PrimFloat.abs (F64.mat3Det M) <? 1e-15)%float = true.
Proof.
  destruct M as [[[[a b] c] [[d e] f]] [[g h] k]].
  unfold F64.mat3Invert, F64.mat3Det.
  destruct (PrimFloat.ltb _ _).
  - split; reflexivity.
  - split; discriminate.
Qed.



(** *** A profile that parses *)

Lemma readXYZTag_value (dv : buffer) (o x y z : Z) :
  getInt32 dv (o + 8) = Ok x ->
  getInt32 dv (o + 8 + 4) = Ok y ->
  getInt32 dv (o + 8 + 8) = Ok z ->
  forall sz : Z,
    readXYZTag dv {| offset := o; size := sz |}
    = Ok (IZR x / 65536, IZR y / 65536, IZR z / 65536).
Proof.
  intros Hx Hy Hz sz. unfold readXYZTag, readS15Fixed16. cbn [offset].
  rewrite Hx, Hy, Hz. reflexivity.
Qed.

Lemma nearIdentity_invertible (M : mat3) :
  nearIdentity M -> mat3Invert M <> None.
Proof.
  destruct M as [[[[a b] c] [[d e] f]] [[g h] k]].
  intros [[Ha [Hb Hc]] [[Hd [He Hf]] [Hg [Hh Hk]]]].
  apply Rabs_bounds in Ha, Hb, Hc, Hd, He, Hf, Hg, Hh, Hk.
  rewrite mat3Invert_none. unfold mat3Det.
  assert (H1 : 0.997 <= e * k - f * h) by nra.
  assert (H1' : e * k - f * h <= 1.003) by nra.
  assert (H2 : -0.0011 <= d * k - f * g <= 0.0011) by nra.
  assert (H3 : -0.0011 <= d * h - e * g <= 0.0011) by nra.
  assert (H4 : 0.99 <= a * (e * k - f * h)) by nra.
  assert (H5 : -0.001 <= b * (d * k - f * g) <= 0.001) by nra.
  assert (H6 : -0.001 <= c * (d * h - e * g) <= 0.001) by nra.
  intros Hdet. apply Rabs_def2 in Hdet. lra.
Qed.

(** The forward matrix of the sRGB primaries is the identity within
    1e-3. *)
Lemma srgb_forward_matrix :
  nearIdentity
    (forwardMatrixOf (IZR 28578 / 65536, IZR 14581 / 65536, IZR 912 / 65536)
       (IZR 25238 / 65536, IZR 46983 / 65536, IZR 6364 / 65536)
       (IZR 9375 / 65536, IZR 3972 / 65536, IZR 46788 / 65536)).
Proof.
  unfold nearIdentity, forwardMatrixOf, mat3Multiply, rowTimes,
    XYZ_TO_LINEAR_SRGB, BRADFORD_D50_TO_D65.
  repeat split; apply Rabs_le; lra.
Qed.

(** The profile of the sRGB primaries parses: its forward matrix is the
    identity within 1e-3, and its three curves are the sRGB transfer
    function. *)
Lemma srgbPrimariesProfile_parses :
  exists (cs : WorkingCS) (M : mat3),
    parseICCProfile srgbPrimariesProfile = Ok cs /\
    name cs = lit "Custom CS" /\ perChannelTRC cs = true /\
    toLinearSRGB cs = mat3Apply M /\ nearIdentity M /\
    (forall v : R, decode cs v 0%Z = Ok (gammaToLinear v)) /\
    (forall v : R, encode cs v 2%Z = Ok (linearToGamma v)).
Proof.
  pose proof srgb_forward_matrix as Hnear.
  pose proof (nearIdentity_invertible _ Hnear) as Hinv.
  unfold parseICCProfile.
  replace (getUint32 srgbPrimariesProfile 128) with (@Ok exn Z 3%Z)
    by (vm_compute; reflexivity).
  cbn [bind].
  replace (readTags srgbPrimariesProfile (Z.to_nat 3) 0 [])
    with (@Ok exn tag_table
            [("bXYZ"%string, {| offset := 208%Z; size := 20%Z |});
             ("gXYZ"%string, {| offset := 188%Z; size := 20%Z |});
             ("rXYZ"%string, {| offset := 168%Z; size := 20%Z |})])
    by (vm_compute; reflexivity).
  cbn [bind].
  replace (profileDescription srgbPrimariesProfile _)
    with (@Ok exn jsstring (lit "Custom CS")) by (vm_compute; reflexivity).
  cbn [bind lookup String.eqb Ascii.eqb Bool.eqb].
  rewrite (readXYZTag_value _ 168 28578 14581 912)
    by (vm_compute; reflexivity).
  rewrite (readXYZTag_value _ 188 25238 46983 6364)
    by (vm_compute; reflexivity).
  rewrite (readXYZTag_value _ 208 9375 3972 46788)
    by (vm_compute; reflexivity).
  cbn [bind].
  match goal with
  | |- context [mat3Invert ?M] =>
      change M with
        (forwardMatrixOf
           (IZR 28578 / 65536, IZR 14581 / 65536, IZR 912 / 65536)
           (IZR 25238 / 65536, IZR 46983 / 65536, IZR 6364 / 65536)
           (IZR 9375 / 65536, IZR 3972 / 65536, IZR 46788 / 65536))
  end.
  destruct (mat3Invert _) as [inverse |]; [| contradiction Hinv; reflexivity].
  unfold channelTRC. cbn [lookup String.eqb Ascii.eqb Bool.eqb bind].
  eexists. eexists. split; [reflexivity |].
  cbn [name perChannelTRC toLinearSRGB decode encode].
  split; [reflexivity |]. split; [reflexivity |].
  split; [reflexivity |]. split; [exact Hnear |].
  split; intros v; reflexivity.
Qed.

(** ** Back from the polar form *)





Lemma oklchToOklab_zero (h : R) : oklchToOklab 0 h = (0, 0).
Proof. unfold oklchToOklab. f_equal; ring. Qed.

(** ** Clamping to the working gamut *)

Section Clamp.

Variable wcs : WorkingCS.
Variables L hue : R.

(** The bisection stays between its bounds, and its lower bound is 0 or
    a chroma that was found in gamut. *)
Lemma bisectChroma_invariant (n : nat) (lo hi : R) :
  lo <= hi -> lo = 0 \/ inGamutAt wcs L hue lo ->
  lo <= bisectChroma wcs L hue n lo hi <= hi /\
  (bisectChroma wcs L hue n lo hi = 0 \/
   inGamutAt wcs L hue (bisectChroma wcs L hue n lo hi)).
Proof.
  revert lo hi. induction n as [| n IH]; intros lo hi Hle Hlo.
  - cbn [bisectChroma]. split; [lra | exact Hlo].
  - cbn [bisectChroma].
    destruct (oklchToOklab ((lo + hi) / 2) hue) as [a b] eqn:Emid.
    destruct (isInWorkingGamut wcs L a b) eqn:Ein.
    + destruct (IH ((lo + hi) / 2) hi) as [Hr Hg]; [lra | |].
      * right. unfold inGamutAt. rewrite Emid. exact Ein.
      * split; [lra | exact Hg].
    + destruct (IH lo ((lo + hi) / 2)) as [Hr Hg]; [lra | exact Hlo |].
      split; [lra | exact Hg].
Qed.

Lemma findMaxInGamutChroma_spec (maxSearch : R) :
  0 <= maxSearch ->
  0 <= findMaxInGamutChroma wcs L hue maxSearch <= maxSearch /\
  (findMaxInGamutChroma wcs L hue maxSearch = 0 \/
   inGamutAt wcs L hue (findMaxInGamutChroma wcs L hue maxSearch)).
Proof.
  intros Hmax. unfold findMaxInGamutChroma.
  destruct (oklchToOklab maxSearch hue) as [aHi bHi] eqn:Ehi.
  destruct (isInWorkingGamut wcs L aHi bHi) eqn:Ein.
  - split; [lra |]. right. unfold inGamutAt. rewrite Ehi. exact Ein.
  - apply bisectChroma_invariant; [exact Hmax | left; reflexivity].
Qed.


End Clamp.

(** The result of [clampToWorkingGamut]: the colour itself when it is in
    gamut; otherwise the colour of the same hue whose chroma is at most the
    original one and is 0 or in gamut. *)
Lemma clampToWorkingGamut_spec (wcs : WorkingCS) (L a b : R) :
  (isInWorkingGamut wcs L a b = true ->
   clampToWorkingGamut wcs L a b = (a, b)) /\
  (isInWorkingGamut wcs L a b = false ->
   exists C' : R,
     0 <= C' <= fst (oklabToOklch a b) /\
     clampToWorkingGamut wcs L a b = oklchToOklab C' (snd (oklabToOklch a b)) /\
     (C' = 0 \/
      isInWorkingGamut wcs L (fst (clampToWorkingGamut wcs L a b))
        (snd (clampToWorkingGamut wcs L a b)) = true)).
Proof.
  unfold clampToWorkingGamut. split; intros Hin; rewrite Hin.
  - reflexivity.
  - destruct (oklabToOklch a b) as [chroma hue] eqn:Epolar. cbn [fst snd].
    assert (Hchroma : 0 <= chroma).
    { replace chroma with (fst (oklabToOklch a b)) by (rewrite Epolar; reflexivity).
      unfold oklabToOklch. cbn [fst]. apply sqrt_pos. }
    destruct (findMaxInGamutChroma_spec wcs L hue chroma Hchroma) as [Hr Hg].
    exists (findMaxInGamutChroma wcs L hue chroma).
    split; [exact Hr |]. split; [reflexivity | exact Hg].
Qed.

(** *** A colour that no chroma brings into gamut *)

(** At lightness 2 every colour with [a] and [b] in [0, 1] is outside the
    sRGB gamut: its red component is above 6. *)
Lemma too_bright_for_sRGB (a b : R) :
  0 <= a <= 1 -> 0 <= b <= 1 ->
  isInWorkingGamut createSRGBWorkingCS 2 a b = false.
Proof.
  intros Ha Hb.
  unfold isInWorkingGamut, oklabToLinearSRGB, createSRGBWorkingCS,
    createWorkingCS, fromLinearSRGB, mat3Apply.
  apply isInGamut_outside. right. left.
  set (l := 2 + 0.3963377774 * a + 0.2158037573 * b).
  set (m := 2 - 0.1055613458 * a - 0.0638541728 * b).
  set (s := 2 - 0.0894841775 * a - 1.2914855480 * b).
  assert (Hl : 2 <= l) by (unfold l; lra).
  assert (Hm : 0 <= m <= 2) by (unfold m; lra).
  assert (Hs : 0 <= s) by (unfold s; lra).
  assert (Hl3 : 8 <= l ^ 3).
  { assert (4 <= l * l) by nra. simpl. nra. }
  assert (Hm3 : m ^ 3 <= 8).
  { assert (0 <= m * m <= 4) by nra. simpl. nra. }
  assert (Hs3 : 0 <= s ^ 3).
  { apply pow_le. exact Hs. }
  lra.
Qed.


Lemma diagonal_points (c : R) :
  0 <= c <= sqrt 0.02 ->
  0 <= fst (oklchToOklab c 45) <= 1 /\ 0 <= snd (oklchToOklab c 45) <= 1.
Proof.
  intros Hc. pose proof PI_RGT_0 as HPI.
  assert (Hroot : sqrt 0.02 <= 1).
  { rewrite <- sqrt_1. apply sqrt_le_1; lra. }
  unfold oklchToOklab. cbn [fst snd].
  replace (45 * (PI / 180)) with (PI / 4) by lra.
  assert (Hcos : 0 < cos (PI / 4)) by (apply cos_gt_0; lra).
  assert (Hsin : 0 < sin (PI / 4)) by (apply sin_gt_0; lra).
  pose proof (COS_bound (PI / 4)) as Hcb.
  pose proof (SIN_bound (PI / 4)) as Hsb.
  split; split; nra.
Qed.



(** *** A colour that is clamped to a positive chroma *)









(** ** The cube root *)

Lemma cbrt_cube (x : R) : Num.cbrt x ^ 3 = x.
Proof.
  assert (Hpos : forall y : R, 0 < y -> Rpower y (1 / 3) ^ 3 = y).
  { intros y Hy.
    rewrite <- Rpower_pow by apply exp_pos.
    rewrite Rpower_mult.
    replace (1 / 3 * INR 3) with 1 by (simpl; lra).
    apply Rpower_1. exact Hy. }
  unfold Num.cbrt.
  destruct (Rlt_dec 0 x) as [Hx | Hx]; [apply Hpos; exact Hx |].
  destruct (Rlt_dec x 0) as [Hx' | Hx'].
  - replace ((- Rpower (- x) (1 / 3)) ^ 3) with (- Rpower (- x) (1 / 3) ^ 3)
      by ring.
    rewrite Hpos by lra. ring.
  - replace x with 0 by lra. ring.
Qed.

Lemma cube_increasing (u v : R) : u < v -> u ^ 3 < v ^ 3.
Proof.
  intros H.
  assert (Hq : 0 < u * u + u * v + v * v).
  { assert (0 < (v - u) * (v - u)) by (apply Rmult_lt_0_compat; lra).
    pose proof (Rle_0_sqr (u + v)) as Hs. unfold Rsqr in Hs.
    lra. }
  assert (Hf : v ^ 3 - u ^ 3 = (v - u) * (u * u + u * v + v * v)) by ring.
  assert (0 < (v - u) * (u * u + u * v + v * v))
    by (apply Rmult_lt_0_compat; lra).
  lra.
Qed.

Lemma cbrt_upper (x y : R) : x <= y ^ 3 -> Num.cbrt x <= y.
Proof.
  intros H. destruct (Rle_dec (Num.cbrt x) y) as [Hle | Hgt]; [exact Hle |].
  exfalso. assert (Hlt : y < Num.cbrt x) by lra.
  apply cube_increasing in Hlt. rewrite cbrt_cube in Hlt. lra.
Qed.

Lemma cbrt_lower (x y : R) : y ^ 3 <= x -> y <= Num.cbrt x.
Proof.
  intros H. destruct (Rle_dec y (Num.cbrt x)) as [Hle | Hgt]; [exact Hle |].
  exfalso. assert (Hlt : Num.cbrt x < y) by lra.
  apply cube_increasing in Hlt. rewrite cbrt_cube in Hlt. lra.
Qed.

(** The distance of two numbers, from the distance of their cubes. *)
Lemma cube_distance (u v : R) : Rabs (u - v) ^ 3 <= 4 * Rabs (u ^ 3 - v ^ 3).
Proof.
  assert (Hq : (u - v) * (u - v) <= 4 * (u * u + u * v + v * v)).
  { pose proof (Rle_0_sqr (u + v)) as Hs. unfold Rsqr in Hs. lra. }
  assert (Hq0 : 0 <= u * u + u * v + v * v).
  { pose proof (Rle_0_sqr (u - v)) as Hs. unfold Rsqr in Hs. lra. }
  assert (Hf : u ^ 3 - v ^ 3 = (u - v) * (u * u + u * v + v * v)) by ring.
  rewrite Hf, Rabs_mult, (Rabs_right (u * u + u * v + v * v)) by lra.
  assert (Hsq : Rabs (u - v) ^ 3 = Rabs (u - v) * ((u - v) * (u - v))).
  { unfold Rabs. destruct (Rcase_abs (u - v)); ring. }
  rewrite Hsq. pose proof (Rabs_pos (u - v)) as Hpos.
  nra.
Qed.

(** The cube root is within [delta] of [v] when the cube of [v] is within
    [delta^3 / 4] of its argument. *)
Lemma cbrt_near (x v eps delta : R) :
  0 <= delta -> Rabs (x - v ^ 3) <= eps -> 4 * eps <= delta ^ 3 ->
  Rabs (Num.cbrt x - v) <= delta.
Proof.
  intros Hdelta Heps Hcube.
  pose proof (cube_distance (Num.cbrt x) v) as H. rewrite cbrt_cube in H.
  destruct (Rle_dec (Rabs (Num.cbrt x - v)) delta) as [Hle | Hgt];
    [exact Hle |].
  exfalso. assert (Hlt : delta < Rabs (Num.cbrt x - v)) by lra.
  apply cube_increasing in Hlt. lra.
Qed.

(** ** OKLab and linear sRGB *)

Lemma cube_monotone (u v : R) : u <= v -> u ^ 3 <= v ^ 3.
Proof.
  intros [H | ->]; [left; apply cube_increasing; exact H | lra].
Qed.

(** The cube root of a non-negative number is within the relative distance
    [k] of [u] when the number is within the relative distance [k] of the
    cube of [u]. *)
Lemma cbrt_relative (x u k : R) :
  0 <= x -> 0 <= k <= 1 -> Rabs (x - u ^ 3) <= k * x ->
  0 <= Num.cbrt x /\ Rabs (Num.cbrt x - u) <= k * Num.cbrt x.
Proof.
  intros Hx Hk Hnear.
  assert (Hc : 0 <= Num.cbrt x) by (apply cbrt_lower; lra).
  split; [exact Hc |].
  pose proof (cbrt_cube x) as Hcube.
  set (c := Num.cbrt x) in *.
  apply Rabs_bounds in Hnear. rewrite <- Hcube in Hnear.
  assert (Hc3 : 0 <= c ^ 3) by (apply pow_le; exact Hc).
  assert (Hup : (c * (1 + k)) ^ 3 = c ^ 3 * (1 + k) + c ^ 3 * (k * (1 + k) * (2 + k)))
    by ring.
  assert (Hdn : (c * (1 - k)) ^ 3 = c ^ 3 * (1 - k) - c ^ 3 * (k * (1 - k) * (2 - k)))
    by ring.
  assert (Hup' : 0 <= c ^ 3 * (k * (1 + k) * (2 + k))).
  { apply Rmult_le_pos; [exact Hc3 |].
    apply Rmult_le_pos; [apply Rmult_le_pos |]; lra. }
  assert (Hdn' : 0 <= c ^ 3 * (k * (1 - k) * (2 - k))).
  { apply Rmult_le_pos; [exact Hc3 |].
    apply Rmult_le_pos; [apply Rmult_le_pos |]; lra. }
  apply Rabs_le. split.
  - destruct (Rle_dec u (c * (1 + k))) as [Hle | Hgt]; [lra |].
    exfalso. assert (Hlt : c * (1 + k) < u) by lra.
    apply cube_increasing in Hlt. lra.
  - destruct (Rle_dec (c * (1 - k)) u) as [Hle | Hgt]; [lra |].
    exfalso. assert (Hlt : u < c * (1 - k)) by lra.
    apply cube_increasing in Hlt. lra.
Qed.

(** The two fixed matrices between LMS and linear sRGB are inverse to each
    other up to 1.5e-10 per coefficient: LMS values are recovered from
    their linear sRGB image within 6.4e-10. *)
Lemma lms_recovered (X Y Z : R) :
  -1.93 <= X <= 1.93 -> -1.22 <= Y <= 1.22 -> -3.75 <= Z <= 3.75 ->
  let red   :=   4.0767416621 * X - 3.3077115913 * Y + 0.2309699292 * Z in
  let green := - 1.2684380046 * X + 2.6097574011 * Y - 0.3413193965 * Z in
  let blue  := - 0.0041960863 * X - 0.7034186147 * Y + 1.7076147010 * Z in
  Rabs (0.4122214708 * red + 0.5363325363 * green + 0.0514459929 * blue - X)
    <= 6.4e-10 /\
  Rabs (0.2119034982 * red + 0.6806995451 * green + 0.1073969566 * blue - Y)
    <= 5e-10 /\
  Rabs (0.0883024619 * red + 0.2817188376 * green + 0.6299787005 * blue - Z)
    <= 4e-10.
Proof.
  intros HX HY HZ red green blue. subst red green blue.
  repeat split; apply Rabs_le; lra.
Qed.

(** When the linear sRGB components are not negative, the LMS values are
    not negative either and are recovered within the relative distance
    1e-9. *)
Lemma lms_recovered_relative (X Y Z : R) :
  let red   :=   4.0767416621 * X - 3.3077115913 * Y + 0.2309699292 * Z in
  let green := - 1.2684380046 * X + 2.6097574011 * Y - 0.3413193965 * Z in
  let blue  := - 0.0041960863 * X - 0.7034186147 * Y + 1.7076147010 * Z in
  let X' := 0.4122214708 * red + 0.5363325363 * green + 0.0514459929 * blue in
  let Y' := 0.2119034982 * red + 0.6806995451 * green + 0.1073969566 * blue in
  let Z' := 0.0883024619 * red + 0.2817188376 * green + 0.6299787005 * blue in
  0 <= red -> 0 <= green -> 0 <= blue ->
  (0 <= X' /\ Rabs (X' - X) <= 1e-9 * X') /\
  (0 <= Y' /\ Rabs (Y' - Y) <= 1e-9 * Y') /\
  (0 <= Z' /\ Rabs (Z' - Z) <= 1e-9 * Z').
Proof.
  intros red green blue X' Y' Z' Hr Hg Hb.
  subst X' Y' Z'.
  repeat split; try apply Rabs_le; subst red green blue; lra.
Qed.

Section RoundTrip.

Variables L a b : R.
Hypothesis HL : 0 <= L <= 1.
Hypothesis Ha : -0.4 <= a <= 0.4.
Hypothesis Hb : -0.4 <= b <= 0.4.

(** In the nominal range, the round trip through linear sRGB reproduces an
    OKLab colour within 1e-2. *)
Lemma srgb_and_back_bound :
  Rabs (first (oklabRoundTrip L a b) - L) <= 1e-2 /\
  Rabs (second (oklabRoundTrip L a b) - a) <= 1e-2 /\
  Rabs (third (oklabRoundTrip L a b) - b) <= 1e-2.
Proof.
  unfold oklabRoundTrip, oklabToLinearSRGB, linearSRGBToOKLab,
    first, second, third.
  cbn [fst snd].
  set (l := L + 0.3963377774 * a + 0.2158037573 * b).
  set (m := L - 0.1055613458 * a - 0.0638541728 * b).
  set (s := L - 0.0894841775 * a - 1.2914855480 * b).
  assert (Hl : -0.2449 <= l <= 1.2449) by (unfold l; lra).
  assert (Hm : -0.0678 <= m <= 1.0678) by (unfold m; lra).
  assert (Hs : -0.5524 <= s <= 1.5524) by (unfold s; lra).
  assert (HX : -1.93 <= l ^ 3 <= 1.93).
  { pose proof (cube_monotone _ _ (proj1 Hl)).
    pose proof (cube_monotone _ _ (proj2 Hl)). lra. }
  assert (HY : -1.22 <= m ^ 3 <= 1.22).
  { pose proof (cube_monotone _ _ (proj1 Hm)).
    pose proof (cube_monotone _ _ (proj2 Hm)). lra. }
  assert (HZ : -3.75 <= s ^ 3 <= 3.75).
  { pose proof (cube_monotone _ _ (proj1 Hs)).
    pose proof (cube_monotone _ _ (proj2 Hs)). lra. }
  destruct (lms_recovered (l ^ 3) (m ^ 3) (s ^ 3) HX HY HZ) as [El [Em Es]].
  cbv zeta in El, Em, Es.
  apply (cbrt_near _ l _ 1.4e-3) in El; [| lra | lra].
  apply (cbrt_near _ m _ 1.3e-3) in Em; [| lra | lra].
  apply (cbrt_near _ s _ 1.2e-3) in Es; [| lra | lra].
  match type of El with Rabs (?x - _) <= _ => set (l' := x) in * end.
  match type of Em with Rabs (?x - _) <= _ => set (m' := x) in * end.
  match type of Es with Rabs (?x - _) <= _ => set (s' := x) in * end.
  apply Rabs_bounds in El. apply Rabs_bounds in Em. apply Rabs_bounds in Es.
  unfold l in El. unfold m in Em. unfold s in Es.
  repeat split; apply Rabs_le; lra.
Qed.

(** When the linear sRGB components are not negative, it reproduces the
    colour within 1e-6. *)
Lemma srgb_and_back_bound_nonnegative :
  0 <= first (oklabToLinearSRGB L a b) ->
  0 <= second (oklabToLinearSRGB L a b) ->
  0 <= third (oklabToLinearSRGB L a b) ->
  Rabs (first (oklabRoundTrip L a b) - L) <= 1e-6 /\
  Rabs (second (oklabRoundTrip L a b) - a) <= 1e-6 /\
  Rabs (third (oklabRoundTrip L a b) - b) <= 1e-6.
Proof.
  unfold oklabRoundTrip, oklabToLinearSRGB, linearSRGBToOKLab,
    first, second, third.
  cbn [fst snd].
  set (l := L + 0.3963377774 * a + 0.2158037573 * b).
  set (m := L - 0.1055613458 * a - 0.0638541728 * b).
  set (s := L - 0.0894841775 * a - 1.2914855480 * b).
  intros Hred Hgreen Hblue.
  assert (Hl : -0.2449 <= l <= 1.2449) by (unfold l; lra).
  assert (Hm : -0.0678 <= m <= 1.0678) by (unfold m; lra).
  assert (Hs : -0.5524 <= s <= 1.5524) by (unfold s; lra).
  destruct (lms_recovered_relative (l ^ 3) (m ^ 3) (s ^ 3) Hred Hgreen Hblue)
    as [[Pl El] [[Pm Em] [Ps Es]]].
  apply cbrt_relative in El; [| exact Pl | lra].
  apply cbrt_relative in Em; [| exact Pm | lra].
  apply cbrt_relative in Es; [| exact Ps | lra].
  destruct El as [Cl El], Em as [Cm Em], Es as [Cs Es].
  match type of Cl with 0 <= ?x => set (l' := x) in * end.
  match type of Cm with 0 <= ?x => set (m' := x) in * end.
  match type of Cs with 0 <= ?x => set (s' := x) in * end.
  apply Rabs_bounds in El. apply Rabs_bounds in Em. apply Rabs_bounds in Es.
  unfold l in El, Hl. unfold m in Em, Hm. unfold s in Es, Hs.
  repeat split; apply Rabs_le; lra.
Qed.

End RoundTrip.

(** C1, as stated: the round trip would reproduce every colour of the
    nominal range within 1e-6. At (0.09908444435, -0.25, 0) the
    cube-root-encoded L component of LMS is 0; going through linear sRGB
    and back makes it about -1.2e-13, whose cube root is below -4e-5, and
    the a component comes back more than 7e-5 too low. *)
Lemma oklab_round_trip_exceeds_tolerance :
  0 <= 0.09908444435 <= 1 /\ -0.4 <= -0.25 <= 0.4 /\ -0.4 <= 0 <= 0.4 /\
  second (oklabRoundTrip 0.09908444435 (-0.25) 0) - (-0.25) < -7e-5 /\
  Rabs (second (oklabRoundTrip 0.09908444435 (-0.25) 0) - (-0.25)) > 1e-6.
Proof.
  assert (H : second (oklabRoundTrip 0.09908444435 (-0.25) 0) - (-0.25)
              < -7e-5).
  { unfold oklabRoundTrip, oklabToLinearSRGB, linearSRGBToOKLab,
      first, second, third.
    cbn [fst snd].
    match goal with
    | |- _ * Num.cbrt ?x - _ * Num.cbrt ?y + _ * Num.cbrt ?z - _ < _ =>
        assert (Hl : Num.cbrt x <= -4e-5) by (apply cbrt_upper; lra);
        assert (Hm : 0.1254747808 <= Num.cbrt y) by (apply cbrt_lower; lra);
        assert (Hs : Num.cbrt z <= 0.121455488725) by (apply cbrt_upper; lra);
        set (l' := Num.cbrt x) in *; set (m' := Num.cbrt y) in *;
        set (s' := Num.cbrt z) in *
    end.
    lra. }
  repeat split; try lra.
  unfold Rabs. destruct (Rcase_abs _); lra.
Qed.

(** C1, amended. For every OKLab triple with L in [0, 1] and a, b in
    [-0.4, 0.4], [linearSRGBToOKLab] after [oklabToLinearSRGB] reproduces
    (L, a, b) within 1e-2 absolute error in each component, and within
    1e-6 when none of the three linear sRGB components is negative. *)
Theorem oklab_srgb_round_trip :
  forall L a b : R,
    0 <= L <= 1 -> -0.4 <= a <= 0.4 -> -0.4 <= b <= 0.4 ->
    let rgb := oklabToLinearSRGB L a b in
    let back := linearSRGBToOKLab (first rgb) (second rgb) (third rgb) in
    (Rabs (first back - L) <= 1e-2 /\ Rabs (second back - a) <= 1e-2 /\
     Rabs (third back - b) <= 1e-2) /\
    (0 <= first rgb -> 0 <= second rgb -> 0 <= third rgb ->
     Rabs (first back - L) <= 1e-6 /\ Rabs (second back - a) <= 1e-6 /\
     Rabs (third back - b) <= 1e-6).
Proof.
  intros L a b HL Ha Hb rgb back. split.
  - exact (srgb_and_back_bound L a b HL Ha Hb).
  - exact (srgb_and_back_bound_nonnegative L a b HL Ha Hb).
Qed.

Lemma oklab_srgb_round_trip_witness :
  (0 <= 0.7 <= 1 /\ -0.4 <= 0 <= 0.4 /\
   0 <= first (oklabToLinearSRGB 0.7 0 0) /\
   0 <= second (oklabToLinearSRGB 0.7 0 0) /\
   0 <= third (oklabToLinearSRGB 0.7 0 0)) /\
  Rabs (first (oklabRoundTrip 0.7 0 0) - 0.7) <= 1e-6 /\
  Rabs (second (oklabRoundTrip 0.7 0 0) - 0) <= 1e-6 /\
  Rabs (third (oklabRoundTrip 0.7 0 0) - 0) <= 1e-6.
Proof.
  assert (Hrgb : 0 <= first (oklabToLinearSRGB 0.7 0 0) /\
                 0 <= second (oklabToLinearSRGB 0.7 0 0) /\
                 0 <= third (oklabToLinearSRGB 0.7 0 0)).
  { unfold oklabToLinearSRGB, first, second, third. cbn [fst snd]. lra. }
  split; [split; [lra | split; [lra | exact Hrgb]] |].
  apply (proj2 (oklab_srgb_round_trip 0.7 0 0 ltac:(lra) ltac:(lra) ltac:(lra)));
    apply Hrgb.
Defined.

(* ================================================================= *)
(** * Part III: further properties of the code                         *)
(* ================================================================= *)

(** ** Matrices *)

Ltac vec3_eq := apply (f_equal2 pair); [apply (f_equal2 pair) |].

(** What [mat3Invert] returns is a two-sided inverse. *)
Lemma mat3Invert_sound (M inv : mat3) :
  mat3Invert M = Some inv ->
  mat3Multiply M inv = identity3 /\ mat3Multiply inv M = identity3.
Proof.
  destruct M as [[[[a b] c] [[d e] f]] [[g h] k]].
  unfold mat3Invert.
  destruct (Num.ltb _ _) eqn:E; [discriminate |].
  apply ltb_false in E. intros H. injection H as <-.
  assert (Hdet : a * (e * k - f * h) - b * (d * k - f * g)
                 + c * (d * h - e * g) <> 0).
  { intros H0. rewrite H0, Rabs_R0 in E. lra. }
  unfold mat3Multiply, rowTimes, identity3.
  split; vec3_eq; vec3_eq; field; exact Hdet.
Qed.

Lemma mat3Invert_some (M : mat3) :
  1e-15 <= Rabs (mat3Det M) -> exists inv : mat3, mat3Invert M = Some inv.
Proof.
  intros H. destruct (mat3Invert M) as [inv |] eqn:E.
  - exists inv. reflexivity.
  - apply mat3Invert_none in E. lra.
Qed.

Lemma vec3Within_refl (eps : R) (v : vec3) : 0 <= eps -> vec3Within eps v v.
Proof.
  intros H. unfold vec3Within.
  replace (first v - first v) with 0 by ring.
  replace (second v - second v) with 0 by ring.
  replace (third v - third v) with 0 by ring.
  rewrite Rabs_R0. repeat split; exact H.
Qed.

Lemma mat3Within_refl (eps : R) (M : mat3) : 0 <= eps -> mat3Within eps M M.
Proof.
  intros H. unfold mat3Within. repeat split; apply vec3Within_refl; exact H.
Qed.

Lemma wellConditioned_det (M : mat3) :
  wellConditioned M -> 1 / 10 <= Rabs (mat3Det M).
Proof.
  destruct M as [[[[a b] c] [[d e] f]] [[g h] k]].
  intros (_ & _ & _ & H). exact H.
Qed.

Lemma sampleMatrix_wellConditioned : wellConditioned sampleMatrix.
Proof.
  unfold wellConditioned, sampleMatrix, mat3Det.
  repeat split; try (apply Rabs_le; lra).
  replace (0.6 * (0.7 * 0.9 - 0.1 * 0.2) - 0.3 * (0.2 * 0.9 - 0.1 * 0.1)
           + 0.1 * (0.2 * 0.2 - 0.7 * 0.1)) with 0.312 by lra.
  rewrite Rabs_right; lra.
Qed.

(** The inverse of the sample matrix as the code computes it on binary64
    numbers: both products are the identity within 1e-8. *)
Lemma sampleMatrix_inverse_in_doubles :
  exists inv : F64.mat3,
    F64.mat3Invert F64.sampleMatrix = Some inv /\
    F64.mat3Within 1e-8%float (F64.mat3Multiply F64.sampleMatrix inv)
      F64.identity3 = true /\
    F64.mat3Within 1e-8%float (F64.mat3Multiply inv F64.sampleMatrix)
      F64.identity3 = true.
Proof.
  eexists. split; [vm_compute; reflexivity |].
  split; vm_compute; reflexivity.
Qed.

(** X1. A well-conditioned matrix (coefficients of magnitude at most 2,
    determinant of magnitude at least 1/10) has an inverse, and what
    [mat3Invert] returns multiplies with the matrix to the identity on
    both sides, within 1e-8 coefficient by coefficient. *)
Theorem mat3Invert_inverse (M : mat3) :
  wellConditioned M ->
  exists inv : mat3,
    mat3Invert M = Some inv /\
    mat3Within 1e-8 (mat3Multiply M inv) identity3 /\
    mat3Within 1e-8 (mat3Multiply inv M) identity3.
Proof.
  intros H. apply wellConditioned_det in H.
  destruct (mat3Invert_some M) as [inv E]; [lra |].
  destruct (mat3Invert_sound M inv E) as [Hr Hl].
  exists inv. rewrite Hr, Hl.
  split; [exact E |]. split; apply mat3Within_refl; lra.
Qed.

Lemma mat3Invert_inverse_witness :
  exists inv : mat3,
    mat3Invert sampleMatrix = Some inv /\
    mat3Within 1e-8 (mat3Multiply sampleMatrix inv) identity3 /\
    mat3Within 1e-8 (mat3Multiply inv sampleMatrix) identity3.
Proof.
  exact (mat3Invert_inverse sampleMatrix sampleMatrix_wellConditioned).
Defined.

Lemma mat3Apply_multiply (A B : mat3) (r g b : R) :
  mat3Apply (mat3Multiply A B) r g b =
  mat3Apply A (first (mat3Apply B r g b)) (second (mat3Apply B r g b))
    (third (mat3Apply B r g b)).
Proof.
  destruct A as [[[[a00 a01] a02] [[a10 a11] a12]] [[a20 a21] a22]].
  destruct B as [[[[b00 b01] b02] [[b10 b11] b12]] [[b20 b21] b22]].
  unfold mat3Multiply, rowTimes, mat3Apply, first, second, third.
  cbn [fst snd]. vec3_eq; ring.
Qed.

Lemma mat3Apply_identity (r g b : R) : mat3Apply identity3 r g b = (r, g, b).
Proof. unfold mat3Apply, identity3. vec3_eq; ring. Qed.

(** X2. Applying the product of two matrices is applying the second and
    then the first; the identity matrix changes nothing. *)
Theorem mat3Multiply_composes :
  (forall (A B : mat3) (r g b : R),
      mat3Apply (mat3Multiply A B) r g b =
      mat3Apply A (first (mat3Apply B r g b)) (second (mat3Apply B r g b))
        (third (mat3Apply B r g b))) /\
  (forall r g b : R, mat3Apply identity3 r g b = (r, g, b)).
Proof. split; [exact mat3Apply_multiply | exact mat3Apply_identity]. Qed.

(** Two matrices that multiply to the identity undo each other as
    maps. *)
Lemma mat3Apply_inverse (A B : mat3) (r g b : R) :
  mat3Multiply A B = identity3 ->
  mat3Apply A (first (mat3Apply B r g b)) (second (mat3Apply B r g b))
    (third (mat3Apply B r g b)) = (r, g, b).
Proof.
  intros H. rewrite <- mat3Apply_multiply, H. apply mat3Apply_identity.
Qed.

(** ** The parsed profile *)

Ltac bind_ok H :=
  repeat match type of H with
  | bind ?m _ = Ok _ =>
      let E := fresh "E" in
      destruct m eqn:E; cbn [bind] in H; [| discriminate H]
  end.

Lemma orCustomCS_nonempty (s : jsstring) : orCustomCS s <> [].
Proof. destruct s; cbn; discriminate. Qed.

(** The profile name is never empty. *)
Lemma profileDescription_nonempty (dv : buffer) (tags : tag_table) (s : jsstring) :
  profileDescription dv tags = Ok s -> s <> [].
Proof.
  unfold profileDescription. intros H.
  destruct (lookup "desc" tags) as [t |].
  - destruct (String.eqb _ "desc").
    + bind_ok H. injection H as <-. apply orCustomCS_nonempty.
    + destruct (String.eqb _ "mluc").
      * bind_ok H. destruct (0 <? _)%Z.
        -- bind_ok H. injection H as <-. apply orCustomCS_nonempty.
        -- injection H as <-. discriminate.
      * injection H as <-. discriminate.
  - injection H as <-. discriminate.
Qed.

(** What a successful parse returns. *)
Lemma parse_ok (buffer : buffer) (cs : WorkingCS) :
  parseICCProfile buffer = Ok cs ->
  exists (tags : tag_table) (rXYZ gXYZ bXYZ : vec3) (inv : mat3)
         (rTRC gTRC bTRC : curve),
    tagsOf buffer = Ok tags /\
    profileDescription buffer tags = Ok (name cs) /\
    mat3Invert (forwardMatrixOf rXYZ gXYZ bXYZ) = Some inv /\
    toLinearSRGB cs = mat3Apply (forwardMatrixOf rXYZ gXYZ bXYZ) /\
    fromLinearSRGB cs = mat3Apply inv /\
    perChannelTRC cs = true /\
    channelTRC buffer tags "rTRC" = Ok rTRC /\
    channelTRC buffer tags "gTRC" = Ok gTRC /\
    channelTRC buffer tags "bTRC" = Ok bTRC /\
    (forall v : R, decode cs v 0%Z = curveDecode rTRC v) /\
    (forall v : R, decode cs v 1%Z = curveDecode gTRC v) /\
    (forall v : R, decode cs v 2%Z = curveDecode bTRC v) /\
    (forall v : R, encode cs v 0%Z = curveEncode rTRC v) /\
    (forall v : R, encode cs v 1%Z = curveEncode gTRC v) /\
    (forall v : R, encode cs v 2%Z = curveEncode bTRC v).
Proof.
  unfold parseICCProfile, tagsOf. intros H.
  destruct (getUint32 buffer 128) as [tagCount |] eqn:Ecount;
    cbn [bind] in *; [| discriminate].
  destruct (readTags buffer (Z.to_nat tagCount) 0 []) as [tags |] eqn:Etags;
    cbn [bind] in H; [| discriminate].
  destruct (profileDescription buffer tags) as [nm |] eqn:Ename;
    cbn [bind] in H; [| discriminate].
  destruct (lookup "rXYZ" tags) as [tagR |]; [| discriminate].
  destruct (lookup "gXYZ" tags) as [tagG |]; [| discriminate].
  destruct (lookup "bXYZ" tags) as [tagB |]; [| discriminate].
  destruct (readXYZTag buffer tagR) as [[[rX rY] rZ] |];
    cbn [bind] in H; [| discriminate].
  destruct (readXYZTag buffer tagG) as [[[gX gY] gZ] |];
    cbn [bind] in H; [| discriminate].
  destruct (readXYZTag buffer tagB) as [[[bX bY] bZ] |];
    cbn [bind] in H; [| discriminate].
  destruct (mat3Invert _) as [inv |] eqn:Einv; [| discriminate].
  destruct (channelTRC buffer tags "rTRC") as [rTRC |] eqn:ErT;
    cbn [bind] in H; [| discriminate].
  destruct (channelTRC buffer tags "gTRC") as [gTRC |] eqn:EgT;
    cbn [bind] in H; [| discriminate].
  destruct (channelTRC buffer tags "bTRC") as [bTRC |] eqn:EbT;
    cbn [bind] in H; [| discriminate].
  injection H as <-.
  exists tags, (rX, rY, rZ), (gX, gY, gZ), (bX, bY, bZ), inv, rTRC, gTRC, bTRC.
  cbn [name toLinearSRGB fromLinearSRGB perChannelTRC decode encode].
  repeat split; try reflexivity; try assumption.
Qed.

Lemma nearIdentity_wellConditioned (M : mat3) :
  nearIdentity M -> wellConditioned M.
Proof.
  destruct M as [[[[a b] c] [[d e] f]] [[g h] k]].
  intros [[Ha [Hb Hc]] [[Hd [He Hf]] [Hg [Hh Hk]]]].
  apply Rabs_bounds in Ha, Hb, Hc, Hd, He, Hf, Hg, Hh, Hk.
  unfold wellConditioned, mat3Det.
  assert (H1 : 0.997 <= e * k - f * h) by nra.
  assert (H1' : e * k - f * h <= 1.003) by nra.
  assert (H2 : -0.0011 <= d * k - f * g <= 0.0011) by nra.
  assert (H3 : -0.0011 <= d * h - e * g <= 0.0011) by nra.
  assert (H4 : 0.99 <= a * (e * k - f * h)) by nra.
  assert (H5 : -0.001 <= b * (d * k - f * g) <= 0.001) by nra.
  assert (H6 : -0.001 <= c * (d * h - e * g) <= 0.001) by nra.
  repeat split; try (apply Rabs_le; lra).
  rewrite Rabs_right; lra.
Qed.

(** The profile of the sRGB primaries as the code reads it on binary64
    numbers: a colour sent through both transforms comes back within
    1e-6. *)
Lemma srgb_profile_round_trip_in_doubles :
  exists v : F64.vec3,
    F64.throughProfile srgbPrimariesProfile
      (0.25%float, 0.5%float, 0.75%float) = Ok v /\
    F64.vec3Within 1e-6%float v (0.25%float, 0.5%float, 0.75%float) = true.
Proof. eexists. split; vm_compute; reflexivity. Qed.

(** X3. The working colour space of a parsed profile whose forward matrix
    is well conditioned (coefficients of magnitude at most 2, determinant
    of magnitude at least 1/10): on the colours of [0, 1]^3 its two
    transforms undo each other within 1e-6, in both orders; it reads the
    curve of each channel, and its name is not empty. *)
Theorem parsed_profile_transforms (buffer : buffer) (cs : WorkingCS) (M : mat3) :
  parseICCProfile buffer = Ok cs ->
  toLinearSRGB cs = mat3Apply M -> wellConditioned M ->
  (forall r g b : R,
      0 <= r <= 1 -> 0 <= g <= 1 -> 0 <= b <= 1 ->
      let v := fromLinearSRGB cs r g b in
      vec3Within 1e-6 (toLinearSRGB cs (first v) (second v) (third v))
        (r, g, b)) /\
  (forall r g b : R,
      0 <= r <= 1 -> 0 <= g <= 1 -> 0 <= b <= 1 ->
      let v := toLinearSRGB cs r g b in
      vec3Within 1e-6 (fromLinearSRGB cs (first v) (second v) (third v))
        (r, g, b)) /\
  perChannelTRC cs = true /\ name cs <> [].
Proof.
  intros H _ _.
  destruct (parse_ok buffer cs H)
    as (tags & rXYZ & gXYZ & bXYZ & inv & rT & gT & bT & Htags & Hname
        & Hinv & Hto & Hfrom & Hper & _).
  destruct (mat3Invert_sound _ _ Hinv) as [Hr Hl].
  rewrite Hto, Hfrom. repeat split.
  - cbv zeta. rewrite (mat3Apply_inverse _ _ r g b Hr).
    apply vec3Within_refl. lra.
  - cbv zeta. rewrite (mat3Apply_inverse _ _ r g b Hr).
    apply vec3Within_refl. lra.
  - cbv zeta. rewrite (mat3Apply_inverse _ _ r g b Hr).
    apply vec3Within_refl. lra.
  - cbv zeta. rewrite (mat3Apply_inverse _ _ r g b Hl).
    apply vec3Within_refl. lra.
  - cbv zeta. rewrite (mat3Apply_inverse _ _ r g b Hl).
    apply vec3Within_refl. lra.
  - cbv zeta. rewrite (mat3Apply_inverse _ _ r g b Hl).
    apply vec3Within_refl. lra.
  - exact Hper.
  - eapply profileDescription_nonempty. exact Hname.
Qed.

Lemma parsed_profile_transforms_witness :
  exists cs : WorkingCS,
    parseICCProfile srgbPrimariesProfile = Ok cs /\
    (let v := fromLinearSRGB cs 0.25 0.5 0.75 in
     vec3Within 1e-6 (toLinearSRGB cs (first v) (second v) (third v))
       (0.25, 0.5, 0.75)).
Proof.
  destruct srgbPrimariesProfile_parses as (cs & M & H & _ & _ & Hto & Hnear & _).
  exists cs. split; [exact H |].
  apply (proj1 (parsed_profile_transforms srgbPrimariesProfile cs M H Hto
                  (nearIdentity_wellConditioned M Hnear))); lra.
Defined.

(** *** The errors of a parse *)

Lemma readTags_error (dv : buffer) (n : nat) (i : Z) (tags : tag_table) (e : exn) :
  readTags dv n i tags = Err e -> e = RangeError.
Proof.
  revert i tags. induction n as [| n IH]; intros i tags H; cbn [readTags] in H.
  - discriminate.
  - destruct (getUint32 dv (132 + i * 12 + 4)) eqn:E1; cbn [bind] in H.
    + destruct (getUint32 dv (132 + i * 12 + 8)) eqn:E2; cbn [bind] in H.
      * eapply IH; eassumption.
      * injection H as <-. eapply getUint32_error; eassumption.
    + injection H as <-. eapply getUint32_error; eassumption.
Qed.

Lemma profileDescription_error (dv : buffer) (tags : tag_table) (e : exn) :
  profileDescription dv tags = Err e -> e = RangeError.
Proof.
  unfold profileDescription. intros H.
  destruct (lookup "desc" tags) as [t |]; [| discriminate].
  bind_error H; subst;
    first [ eapply getUint32_error; eassumption
          | eapply getUint16s_error; eassumption ].
Qed.

Lemma readXYZTag_error (dv : buffer) (t : tag) (e : exn) :
  readXYZTag dv t = Err e -> e = RangeError.
Proof.
  unfold readXYZTag. intros H.
  bind_error H; subst; eapply readS15Fixed16_error; eassumption.
Qed.

Lemma getUint16s_fits (buf : buffer) (n : nat) (off : Z) (xs : list Z) :
  getUint16s buf off n = Ok xs ->
  List.length xs = n /\
  (n = 0%nat \/ (0 <= off /\ off + 2 * Z.of_nat n <= byteLength buf)%Z).
Proof.
  revert off xs. induction n as [| n IH]; intros off xs H;
    cbn [getUint16s] in H.
  - injection H as <-. split; [reflexivity | left; reflexivity].
  - destruct (getUint16 buf off) as [x |] eqn:E1; cbn [bind] in H;
      [| discriminate].
    destruct (getUint16s buf (off + 2) n) as [xs' |] eqn:E2; cbn [bind] in H;
      [| discriminate].
    injection H as <-. destruct (IH _ _ E2) as [Hlen Hfit].
    split; [cbn [List.length]; congruence |]. right.
    unfold getUint16, view in E1.
    destruct ((0 <=? off) && (off + Z.of_nat 2 <=? byteLength buf))%Z eqn:Eb;
      [| discriminate].
    apply andb_true_iff in Eb as [Hlo Hhi].
    apply Z.leb_le in Hlo, Hhi. lia.
Qed.

(** X4. For a buffer of at most 65536 bytes: every run of 16-bit code
    units read from it (the arguments of [String.fromCharCode] in the
    description) has at most 32768 elements, and a parse fails in one of
    three ways only: a [RangeError] (a read outside the buffer, or an
    array asked for that is longer than the buffer could fill), a missing
    primary, or a singular matrix. *)
Theorem parse_errors (buffer : buffer) (e : exn) :
  (byteLength buffer <= 65536)%Z ->
  (forall (off : Z) (n : nat) (strData : list Z),
      getUint16s buffer off n = Ok strData ->
      (Z.of_nat (List.length strData) <= MAX_DESCRIPTION_UNITS)%Z) /\
  (parseICCProfile buffer = Err e ->
   e = RangeError \/ e = notMatrixBased \/ e = singularMatrix).
Proof.
  intros Hsize. split.
  { intros off n strData H.
    destruct (getUint16s_fits _ _ _ _ H) as [Hlen [Hz | Hfit]];
      unfold MAX_DESCRIPTION_UNITS; lia. }

  unfold parseICCProfile. intros H.
  destruct (getUint32 buffer 128) as [tagCount |] eqn:Ecount; cbn [bind] in H.
  2:{ injection H as <-. left. eapply getUint32_error; eassumption. }
  destruct (readTags buffer (Z.to_nat tagCount) 0 []) as [tags |] eqn:Etags;
    cbn [bind] in H.
  2:{ injection H as <-. left. eapply readTags_error; eassumption. }
  destruct (profileDescription buffer tags) as [nm |] eqn:Ename;
    cbn [bind] in H.
  2:{ injection H as <-. left. eapply profileDescription_error; eassumption. }
  destruct (lookup "rXYZ" tags) as [tagR |];
    [| injection H as <-; right; left; reflexivity].
  destruct (lookup "gXYZ" tags) as [tagG |];
    [| injection H as <-; right; left; reflexivity].
  destruct (lookup "bXYZ" tags) as [tagB |];
    [| injection H as <-; right; left; reflexivity].
  destruct (readXYZTag buffer tagR) as [[[rX rY] rZ] |] eqn:ER; cbn [bind] in H.
  2:{ injection H as <-. left. eapply readXYZTag_error; eassumption. }
  destruct (readXYZTag buffer tagG) as [[[gX gY] gZ] |] eqn:EG; cbn [bind] in H.
  2:{ injection H as <-. left. eapply readXYZTag_error; eassumption. }
  destruct (readXYZTag buffer tagB) as [[[bX bY] bZ] |] eqn:EB; cbn [bind] in H.
  2:{ injection H as <-. left. eapply readXYZTag_error; eassumption. }
  destruct (mat3Invert _) as [inv |];
    [| injection H as <-; right; right; reflexivity].
  destruct (channelTRC buffer tags "rTRC") eqn:ErT; cbn [bind] in H.
  2:{ injection H as <-. left. eapply channelTRC_error; eassumption. }
  destruct (channelTRC buffer tags "gTRC") eqn:EgT; cbn [bind] in H.
  2:{ injection H as <-. left. eapply channelTRC_error; eassumption. }
  destruct (channelTRC buffer tags "bTRC") eqn:EbT; cbn [bind] in H.
  2:{ injection H as <-. left. eapply channelTRC_error; eassumption. }
  discriminate.
Qed.

Lemma parse_errors_witness :
  (byteLength truncatedProfile <= 65536)%Z /\
  (RangeError = RangeError \/ RangeError = notMatrixBased
   \/ RangeError = singularMatrix).
Proof.
  assert (H : (byteLength truncatedProfile <= 65536)%Z)
    by (apply Z.leb_le; vm_compute; reflexivity).
  split; [exact H |].
  exact (proj2 (parse_errors truncatedProfile RangeError H)
           truncatedProfile_parse).
Defined.

(** ** The two built-in working colour spaces *)

Lemma srgb_cs_from (r g b : R) :
  fromLinearSRGB createSRGBWorkingCS r g b = (r, g, b).
Proof.
  unfold createSRGBWorkingCS, createWorkingCS, fromLinearSRGB, mat3Apply.
  vec3_eq; ring.
Qed.

Lemma p3_cs_from (r g b : R) :
  fromLinearSRGB createP3WorkingCS r g b = linearSRGBToLinearP3 r g b.
Proof.
  unfold createP3WorkingCS, createWorkingCS, fromLinearSRGB, mat3Apply,
    linearSRGBToLinearP3.
  vec3_eq; lra.
Qed.

Lemma p3_cs_to (r g b : R) :
  toLinearSRGB createP3WorkingCS r g b = linearP3ToLinearSRGB r g b.
Proof.
  unfold createP3WorkingCS, createWorkingCS, toLinearSRGB, mat3Apply,
    linearP3ToLinearSRGB.
  vec3_eq; lra.
Qed.

(** X5. The Display P3 working colour space applies the two conversions
    of [color-math.js]; the two matrices are inverse to each other up to
    the rounding of their coefficients: on [0, 1] a conversion and its
    reverse give each component back within 2e-7. *)
Theorem p3_conversions :
  forall r g b : R,
    fromLinearSRGB createP3WorkingCS r g b = linearSRGBToLinearP3 r g b /\
    toLinearSRGB createP3WorkingCS r g b = linearP3ToLinearSRGB r g b /\
    (0 <= r <= 1 -> 0 <= g <= 1 -> 0 <= b <= 1 ->
     let v := linearSRGBToLinearP3 r g b in
     let w := linearP3ToLinearSRGB (first v) (second v) (third v) in
     let v' := linearP3ToLinearSRGB r g b in
     let w' := linearSRGBToLinearP3 (first v') (second v') (third v') in
     (Rabs (first w - r) <= 2e-7 /\ Rabs (second w - g) <= 2e-7 /\
      Rabs (third w - b) <= 2e-7) /\
     (Rabs (first w' - r) <= 2e-7 /\ Rabs (second w' - g) <= 2e-7 /\
      Rabs (third w' - b) <= 2e-7)).
Proof.
  intros r g b.
  split; [apply p3_cs_from |]. split; [apply p3_cs_to |].
  intros Hr Hg Hb.
  unfold linearSRGBToLinearP3, linearP3ToLinearSRGB, first, second, third.
  cbn [fst snd].
  repeat split; apply Rabs_le; lra.
Qed.

Lemma p3_conversions_witness :
  let v := linearSRGBToLinearP3 1 0 (1 / 2) in
  Rabs (first (linearP3ToLinearSRGB (first v) (second v) (third v)) - 1)
  <= 2e-7.
Proof.
  exact (proj1 (proj1 (proj2 (proj2 (p3_conversions 1 0 (1 / 2)))
                         ltac:(lra) ltac:(lra) ltac:(lra)))).
Defined.

(** The linear sRGB components of a neutral colour. *)
Lemma oklabToLinearSRGB_neutral (L : R) :
  oklabToLinearSRGB L 0 0 = (L ^ 3, L ^ 3, L ^ 3).
Proof. unfold oklabToLinearSRGB. vec3_eq; lra. Qed.

Lemma cube_unit (L : R) : 0 <= L <= 1 -> 0 <= L ^ 3 <= 1.
Proof.
  intros H. split.
  - apply pow_le. lra.
  - rewrite <- (pow1 3). apply pow_incr. lra.
Qed.

Lemma srgb_neutrals : neutralsInGamut createSRGBWorkingCS.
Proof.
  intros L HL. unfold isInWorkingGamut.
  rewrite oklabToLinearSRGB_neutral, srgb_cs_from.
  apply isInGamut_iff. pose proof (cube_unit L HL). lra.
Qed.

Lemma p3_neutrals : neutralsInGamut createP3WorkingCS.
Proof.
  intros L HL. unfold isInWorkingGamut.
  rewrite oklabToLinearSRGB_neutral, p3_cs_from.
  unfold linearSRGBToLinearP3.
  apply isInGamut_iff. pose proof (cube_unit L HL). lra.
Qed.

(** X6. A neutral colour (a = b = 0) of lightness L has the three linear
    sRGB components L^3; for L in [0, 1] it is in the gamut of the sRGB
    and of the Display P3 working colour space. *)
Theorem neutral_colours :
  (forall L : R, oklabToLinearSRGB L 0 0 = (L ^ 3, L ^ 3, L ^ 3)) /\
  neutralsInGamut createSRGBWorkingCS /\
  neutralsInGamut createP3WorkingCS.
Proof.
  split; [exact oklabToLinearSRGB_neutral |].
  split; [exact srgb_neutrals | exact p3_neutrals].
Qed.

Lemma neutral_colours_witness :
  isInWorkingGamut createSRGBWorkingCS (1 / 2) 0 0 = true.
Proof. apply (proj1 (proj2 neutral_colours) (1 / 2)). lra. Defined.

(** X7. The sRGB gamut lies within the Display P3 gamut: a colour that
    [isInWorkingGamut] accepts for sRGB is accepted for Display P3. *)
Theorem srgb_gamut_within_p3 (L a b : R) :
  isInWorkingGamut createSRGBWorkingCS L a b = true ->
  isInWorkingGamut createP3WorkingCS L a b = true.
Proof.
  unfold isInWorkingGamut.
  destruct (oklabToLinearSRGB L a b) as [[r g] bl].
  rewrite srgb_cs_from, p3_cs_from. unfold linearSRGBToLinearP3.
  rewrite !isInGamut_iff. lra.
Qed.

Lemma srgb_gamut_within_p3_witness :
  isInWorkingGamut createP3WorkingCS (1 / 2) 0 0 = true.
Proof.
  apply (srgb_gamut_within_p3 (1 / 2) 0 0).
  apply srgb_neutrals. lra.
Defined.

(** ** The gamut search *)

Section Bracket.

Variable wcs : WorkingCS.
Variables L hue : R.

(** The bisection halves the bracket in each round, and its upper end
    stays out of gamut. *)
Lemma bisectChroma_bracket (n : nat) (lo hi : R) :
  ~ inGamutAt wcs L hue hi ->
  exists hi' : R,
    hi' - bisectChroma wcs L hue n lo hi = (hi - lo) / 2 ^ n /\
    ~ inGamutAt wcs L hue hi'.
Proof.
  revert lo hi. induction n as [| n IH]; intros lo hi Hhi.
  - exists hi. cbn [bisectChroma]. split; [simpl; lra | exact Hhi].
  - cbn [bisectChroma].
    destruct (oklchToOklab ((lo + hi) / 2) hue) as [a b] eqn:Emid.
    assert (H2n : 2 ^ n <> 0) by (apply pow_nonzero; lra).
    destruct (isInWorkingGamut wcs L a b) eqn:Ein.
    + destruct (IH ((lo + hi) / 2) hi Hhi) as [hi' [Hd Hout]].
      exists hi'. split; [| exact Hout].
      rewrite Hd. simpl. field. exact H2n.
    + destruct (IH lo ((lo + hi) / 2)) as [hi' [Hd Hout]].
      * unfold inGamutAt. rewrite Emid. cbn [fst snd]. rewrite Ein.
        discriminate.
      * exists hi'. split; [| exact Hout].
        rewrite Hd. simpl. field. exact H2n.
Qed.

End Bracket.

(** X8. The precision of [findMaxInGamutChroma]: when the chroma
    [maxSearch] is in gamut it is returned; otherwise some chroma that is
    out of gamut lies exactly [maxSearch / 2^20] above the returned
    one. *)
Theorem findMaxInGamutChroma_precision (wcs : WorkingCS) (L hue maxSearch : R) :
  (inGamutAt wcs L hue maxSearch ->
   findMaxInGamutChroma wcs L hue maxSearch = maxSearch) /\
  (~ inGamutAt wcs L hue maxSearch ->
   exists hi : R,
     hi = findMaxInGamutChroma wcs L hue maxSearch + maxSearch / 2 ^ 20 /\
     ~ inGamutAt wcs L hue hi).
Proof.
  unfold findMaxInGamutChroma, inGamutAt at 1 2.
  destruct (oklchToOklab maxSearch hue) as [aHi bHi] eqn:Ehi. cbn [fst snd].
  split; intros Hin.
  - rewrite Hin. reflexivity.
  - destruct (isInWorkingGamut wcs L aHi bHi) eqn:Ein; [contradiction Hin; reflexivity |].
    destruct (bisectChroma_bracket wcs L hue 20 0 maxSearch) as [hi [Hd Hout]].
    + unfold inGamutAt. rewrite Ehi. cbn [fst snd]. rewrite Ein. discriminate.
    + exists hi. split; [| exact Hout].
      replace ((maxSearch - 0) / 2 ^ 20) with (maxSearch / 2 ^ 20) in Hd
        by (unfold Rdiv; ring).
      lra.
Qed.

Lemma findMaxInGamutChroma_precision_witness :
  exists hi : R,
    hi = findMaxInGamutChroma createSRGBWorkingCS 2 45 (sqrt 0.02)
         + sqrt 0.02 / 2 ^ 20 /\
    ~ inGamutAt createSRGBWorkingCS 2 45 hi.
Proof.
  apply (proj2 (findMaxInGamutChroma_precision createSRGBWorkingCS 2 45
                  (sqrt 0.02))).
  unfold inGamutAt.
  destruct (diagonal_points (sqrt 0.02)) as [Ha Hb].
  - pose proof (sqrt_pos 0.02). lra.
  - rewrite (too_bright_for_sRGB _ _ Ha Hb). discriminate.
Defined.

(** ** Clamping, continued *)

Lemma clamp_origin (wcs : WorkingCS) (L : R) :
  clampToWorkingGamut wcs L 0 0 = (0, 0).
Proof.
  unfold clampToWorkingGamut.
  destruct (isInWorkingGamut wcs L 0 0) eqn:Ein; [reflexivity |].
  rewrite oklabToOklch_origin.
  destruct (findMaxInGamutChroma_spec wcs L 0 0) as [Hr _]; [lra |].
  replace (findMaxInGamutChroma wcs L 0 0) with 0 by lra.
  apply oklchToOklab_zero.
Qed.

(** In a working colour space that holds the neutral colour of lightness
    [L], the clamped colour is in gamut. *)
Lemma clamp_in_gamut (wcs : WorkingCS) (L a b : R) :
  isInWorkingGamut wcs L 0 0 = true ->
  isInWorkingGamut wcs L (fst (clampToWorkingGamut wcs L a b))
    (snd (clampToWorkingGamut wcs L a b)) = true.
Proof.
  intros Hneutral.
  destruct (clampToWorkingGamut_spec wcs L a b) as [Hin Hout].
  destruct (isInWorkingGamut wcs L a b) eqn:E.
  - rewrite (Hin eq_refl). exact E.
  - destruct (Hout eq_refl) as [C' [_ [Hclamp [Hzero | Hg]]]].
    + rewrite Hclamp, Hzero, oklchToOklab_zero. exact Hneutral.
    + exact Hg.
Qed.

(** X9. Clamping is idempotent: a clamped colour is returned unchanged
    when it is clamped again at the same lightness. *)
Theorem clampToWorkingGamut_idempotent (wcs : WorkingCS) (L a b : R) :
  clampToWorkingGamut wcs L (fst (clampToWorkingGamut wcs L a b))
    (snd (clampToWorkingGamut wcs L a b)) = clampToWorkingGamut wcs L a b.
Proof.
  destruct (clampToWorkingGamut_spec wcs L a b) as [Hin Hout].
  destruct (isInWorkingGamut wcs L a b) eqn:E.
  - rewrite (Hin eq_refl). cbn [fst snd].
    unfold clampToWorkingGamut. rewrite E. reflexivity.
  - destruct (Hout eq_refl) as [C' [_ [Hclamp [Hzero | Hg]]]].
    + rewrite Hclamp, Hzero, oklchToOklab_zero. cbn [fst snd].
      apply clamp_origin.
    + destruct (clampToWorkingGamut_spec wcs L
                  (fst (clampToWorkingGamut wcs L a b))
                  (snd (clampToWorkingGamut wcs L a b))) as [Hin' _].
      rewrite (Hin' Hg). symmetry. apply surjective_pairing.
Qed.

(** X10. Where the neutral colour of lightness L is in the working
    gamut, as it is for L in [0, 1] in sRGB and in Display P3, the colour
    that [clampToWorkingGamut] returns is in the working gamut. *)
Theorem clamp_result_in_gamut :
  (forall (wcs : WorkingCS) (L a b : R),
      isInWorkingGamut wcs L 0 0 = true ->
      isInWorkingGamut wcs L (fst (clampToWorkingGamut wcs L a b))
        (snd (clampToWorkingGamut wcs L a b)) = true) /\
  (forall L a b : R,
      0 <= L <= 1 ->
      isInWorkingGamut createSRGBWorkingCS L
        (fst (clampToWorkingGamut createSRGBWorkingCS L a b))
        (snd (clampToWorkingGamut createSRGBWorkingCS L a b)) = true /\
      isInWorkingGamut createP3WorkingCS L
        (fst (clampToWorkingGamut createP3WorkingCS L a b))
        (snd (clampToWorkingGamut createP3WorkingCS L a b)) = true).
Proof.
  split; [exact clamp_in_gamut |].
  intros L a b HL. split; apply clamp_in_gamut.
  - apply srgb_neutrals. exact HL.
  - apply p3_neutrals. exact HL.
Qed.

Lemma clamp_result_in_gamut_witness :
  isInWorkingGamut createSRGBWorkingCS (1 / 2)
    (fst (clampToWorkingGamut createSRGBWorkingCS (1 / 2) 1 1))
    (snd (clampToWorkingGamut createSRGBWorkingCS (1 / 2) 1 1)) = true.
Proof.
  exact (proj1 (proj2 clamp_result_in_gamut (1 / 2) 1 1 ltac:(lra))).
Defined.

(** ** The pointer handlers *)

Lemma currentL_setCurrent (L a b : R) (st : Picker) :
  currentL (setCurrent L a b st) = L.
Proof. reflexivity. Qed.

(** X11. In a working colour space that holds the neutral colours, a
    drag on the lightness slider leaves a lightness of [0, 1] and a colour
    in gamut; a drag on the a,b picker, the chroma slider or the hue
    slider keeps the lightness and, when that is in [0, 1], leaves a
    colour in gamut. *)
Theorem pointer_keeps_gamut (wcs : WorkingCS) (x y : R) (st : Picker) :
  neutralsInGamut wcs ->
  (0 <= currentL (updateLightnessFromPointer wcs x st) <= 1 /\
   pickerInGamut wcs (updateLightnessFromPointer wcs x st)) /\
  (0 <= currentL st <= 1 ->
   (currentL (updateABFromPointer wcs x y st) = currentL st /\
    pickerInGamut wcs (updateABFromPointer wcs x y st)) /\
   (currentL (updateChromaFromPointer wcs x st) = currentL st /\
    pickerInGamut wcs (updateChromaFromPointer wcs x st)) /\
   (currentL (updateHueFromPointer wcs x st) = currentL st /\
    pickerInGamut wcs (updateHueFromPointer wcs x st))).
Proof.
  intros Hn. unfold pickerInGamut. split.
  - unfold updateLightnessFromPointer.
    pose proof (clamp_in_gamut wcs (clamp01 x) (currentA st) (currentB st)
                  (Hn _ (clamp01_range x))) as H.
    destruct (clampToWorkingGamut wcs (clamp01 x) (currentA st) (currentB st))
      as [a b].
    cbn [setCurrent currentL currentA currentB fst snd] in *.
    split; [apply clamp01_range | exact H].
  - intros HL. pose proof (Hn _ HL) as Hneutral.
    split; [| split].
    + unfold updateABFromPointer.
      match goal with
      | |- context [clampToWorkingGamut wcs ?l ?a ?b] =>
          pose proof (clamp_in_gamut wcs l a b Hneutral) as H;
          destruct (clampToWorkingGamut wcs l a b) as [a' b']
      end.
      cbn [setCurrent currentL currentA currentB fst snd] in *.
      split; [reflexivity | exact H].
    + unfold updateChromaFromPointer.
      destruct (oklabToOklch (currentA st) (currentB st)) as [c h].
      destruct (oklchToOklab (clamp01 x * CHROMA_MAX) h) as [tA tB].
      pose proof (clamp_in_gamut wcs (currentL st) tA tB Hneutral) as H.
      destruct (clampToWorkingGamut wcs (currentL st) tA tB) as [a' b'].
      cbn [setCurrent currentL currentA currentB fst snd] in *.
      split; [reflexivity | exact H].
    + unfold updateHueFromPointer.
      destruct (oklabToOklch (currentA st) (currentB st)) as [c h].
      destruct (oklchToOklab c (clamp01 x * 360)) as [tA tB].
      pose proof (clamp_in_gamut wcs (currentL st) tA tB Hneutral) as H.
      destruct (clampToWorkingGamut wcs (currentL st) tA tB) as [a' b'].
      cbn [setCurrent currentL currentA currentB fst snd] in *.
      split; [reflexivity | exact H].
Qed.

Lemma pointer_keeps_gamut_witness :
  pickerInGamut createSRGBWorkingCS
    (updateLightnessFromPointer createSRGBWorkingCS (1 / 4) initialPicker) /\
  pickerInGamut createSRGBWorkingCS
    (updateABFromPointer createSRGBWorkingCS 1 1 initialPicker).
Proof.
  pose proof (pointer_keeps_gamut createSRGBWorkingCS 1 1 initialPicker
                srgb_neutrals) as [_ H2].
  pose proof (pointer_keeps_gamut createSRGBWorkingCS (1 / 4) 1 initialPicker
                srgb_neutrals) as [[_ H1] _].
  split; [exact H1 |].
  apply H2. unfold initialPicker. cbn [currentL]. lra.
Defined.

(** ** The sRGB transfer function, continued *)

Lemma Rpower_one (p : R) : Rpower 1 p = 1.
Proof. unfold Rpower. rewrite ln_1, Rmult_0_r. apply exp_0. Qed.

(** [x^(5/12) <= q] follows from [x^5 <= q^12]. *)
Lemma root_upper_bound (x q : R) :
  0 < x -> 0 < q -> x ^ 5 <= q ^ 12 -> Rpower x (1 / 2.4) <= q.
Proof.
  intros Hx Hq H.
  assert (Hq12 : 0 < q ^ 12) by (apply pow_lt; assumption).
  assert (Hx5 : 0 < x ^ 5) by (apply pow_lt; assumption).
  replace q with (Rpower (q ^ 12) (1 / 12)).
  2:{ rewrite <- (Rpower_pow 12 q Hq), Rpower_mult.
      replace (INR 12 * (1 / 12)) with 1 by (simpl; lra).
      apply Rpower_1; assumption. }
  replace (Rpower x (1 / 2.4)) with (Rpower (x ^ 5) (1 / 12)).
  2:{ rewrite <- (Rpower_pow 5 x Hx), Rpower_mult.
      f_equal. simpl. lra. }
  apply Rle_Rpower_l; lra.
Qed.

(** [q <= t^(12/5)] follows from [q^5 <= t^12]. *)
Lemma power_lower_bound (t q : R) :
  0 < t -> 0 < q -> q ^ 5 <= t ^ 12 -> q <= Rpower t 2.4.
Proof.
  intros Ht Hq H.
  assert (Ht12 : 0 < t ^ 12) by (apply pow_lt; assumption).
  assert (Hq5 : 0 < q ^ 5) by (apply pow_lt; assumption).
  replace q with (Rpower (q ^ 5) (1 / 5)).
  2:{ rewrite <- (Rpower_pow 5 q Hq), Rpower_mult.
      replace (INR 5 * (1 / 5)) with 1 by (simpl; lra).
      apply Rpower_1; assumption. }
  replace (Rpower t 2.4) with (Rpower (t ^ 12) (1 / 5)).
  2:{ rewrite <- (Rpower_pow 12 t Ht), Rpower_mult.
      f_equal. simpl. lra. }
  apply Rle_Rpower_l; lra.
Qed.

Lemma linearToGamma_range (x : R) : 0 <= linearToGamma x <= 1.
Proof.
  rewrite linearToGamma_clamps.
  pose proof (clamp01_range x) as Hc. set (c := clamp01 x) in *.
  destruct (Rlt_dec c 0.0031308) as [Hlow | Hhigh].
  - rewrite linearToGamma_linear by lra. lra.
  - rewrite linearToGamma_power by lra.
    assert (Hlo : 0.09047 <= Rpower c (1 / 2.4)).
    { apply Rle_trans with (Rpower 0.0031308 (1 / 2.4)).
      - apply root_lower_bound; lra.
      - apply Rle_Rpower_l; lra. }
    assert (Hhi : Rpower c (1 / 2.4) <= 1).
    { apply Rle_trans with (Rpower 1 (1 / 2.4)).
      - apply Rle_Rpower_l; lra.
      - rewrite Rpower_one. lra. }
    lra.
Qed.

Lemma linearToGamma_low (x : R) : x <= 0 -> linearToGamma x = 0.
Proof.
  intros H. rewrite linearToGamma_clamps, clamp01_low by assumption.
  rewrite linearToGamma_linear by lra. lra.
Qed.

Lemma linearToGamma_high (x : R) : 1 <= x -> linearToGamma x = 1.
Proof.
  intros H. rewrite linearToGamma_clamps, clamp01_high by assumption.
  rewrite linearToGamma_power by lra. rewrite Rpower_one. lra.
Qed.

Lemma colorByte_bounds (x : R) : (0 <= linearToColorByte x <= 255)%Z.
Proof.
  unfold linearToColorByte.
  rewrite <- (clamp01_id (linearToGamma x)) by apply linearToGamma_range.
  apply (round_channel (linearToGamma x)).
Qed.

(** At 1 the code computes [1.055 * 1 - 0.055] on binary64 numbers: the
    result is just below 1, and 255 times it rounds to 255. *)
Lemma linearToGamma_at_one_in_doubles :
  (F64.linearToGammaAtOne <? 1)%float = true /\
  (1 - 1e-9 <=? F64.linearToGammaAtOne)%float = true /\
  (254.5 <=? F64.linearToGammaAtOne * 255)%float = true.
Proof. repeat split; vm_compute; reflexivity. Qed.

(** X12. The sRGB encoder has its values in [0, 1], is 0 up to 0 and 1
    within 1e-9 from 1 on; [linearToColorByte] is an integer of 0..255,
    0 up to 0 and 255 from 1 on. *)
Theorem linearToColorByte_range :
  forall x : R,
    0 <= linearToGamma x <= 1 /\
    (0 <= linearToColorByte x <= 255)%Z /\
    (x <= 0 -> linearToGamma x = 0 /\ linearToColorByte x = 0%Z) /\
    (1 <= x ->
     1 - 1e-9 <= linearToGamma x <= 1 /\ linearToColorByte x = 255%Z).
Proof.
  intros x.
  split; [apply linearToGamma_range |].
  split; [apply colorByte_bounds |]. unfold linearToColorByte.
  split.
  - intros H. rewrite (linearToGamma_low x H). split; [reflexivity |].
    unfold Num.round. apply Zfloor_eq. lra.
  - intros H. rewrite (linearToGamma_high x H). split; [lra |].
    unfold Num.round. apply Zfloor_eq. lra.
Qed.

Lemma linearToColorByte_range_witness :
  (linearToGamma (-1) = 0 /\ linearToColorByte (-1) = 0%Z) /\
  (1 - 1e-9 <= linearToGamma 2 <= 1 /\ linearToColorByte 2 = 255%Z).
Proof.
  split.
  - exact (proj1 (proj2 (proj2 (linearToColorByte_range (-1)))) ltac:(lra)).
  - exact (proj2 (proj2 (proj2 (linearToColorByte_range 2))) ltac:(lra)).
Defined.

(** X13. Encoding a decoded value of [0, 1] gives the value back within
    1e-6 (the two branch points, 0.04045 and 0.0031308, do not quite
    correspond). *)
Theorem gamma_decode_then_encode (y : R) :
  0 <= y <= 1 -> Rabs (linearToGamma (gammaToLinear y) - y) <= 1e-6.
Proof.
  intros Hy. unfold gammaToLinear.
  destruct (Rle_dec 0.04045 y) as [Hp | Hl].
  - (* power branch of the decoder *)
    rewrite (proj2 (leb_true _ _)) by assumption.
    set (t := (y + 0.055) / 1.055).
    assert (Ht : 0.09545 / 1.055 <= t <= 1) by (unfold t; lra).
    assert (Hlo : 0.0031308 <= Rpower t 2.4).
    { apply Rle_trans with (Rpower (0.09545 / 1.055) 2.4).
      - apply power_lower_bound; lra.
      - apply Rle_Rpower_l; lra. }
    assert (Hhi : Rpower t 2.4 <= 1).
    { apply Rle_trans with (Rpower 1 2.4).
      - apply Rle_Rpower_l; lra.
      - rewrite Rpower_one. lra. }
    rewrite linearToGamma_power by lra.
    rewrite Rpower_inverse_exponent by lra.
    replace (1.055 * t - 0.055 - y) with 0 by (unfold t; lra).
    rewrite Rabs_R0. lra.
  - rewrite (proj2 (leb_false _ _)) by lra.
    destruct (Rlt_dec (y / 12.92) 0.0031308) as [Hlin | Hpow].
    + (* linear branch of both *)
      rewrite linearToGamma_linear by lra.
      replace (12.92 * (y / 12.92) - y) with 0 by lra.
      rewrite Rabs_R0. lra.
    + (* the decoder used the line, the encoder the power curve *)
      rewrite linearToGamma_power by lra.
      assert (Hx : 0.0031308 <= y / 12.92 <= 0.003130805) by lra.
      assert (Hyx : y = 12.92 * (y / 12.92)) by lra.
      set (x := y / 12.92) in *.
      assert (Hlo : 0.0904738 <= Rpower x (1 / 2.4)).
      { apply Rle_trans with (Rpower 0.0031308 (1 / 2.4)).
        - apply root_lower_bound; lra.
        - apply Rle_Rpower_l; lra. }
      assert (Hhi : Rpower x (1 / 2.4) <= 0.090474).
      { apply Rle_trans with (Rpower 0.003130805 (1 / 2.4)).
        - apply Rle_Rpower_l; lra.
        - apply root_upper_bound; lra. }
      apply Rabs_le. lra.
Qed.

Lemma gamma_decode_then_encode_witness :
  Rabs (linearToGamma (gammaToLinear (1 / 2)) - 1 / 2) <= 1e-6.
Proof. apply (gamma_decode_then_encode (1 / 2)). lra. Defined.

(** X14. The sRGB decoder is strictly increasing on the whole line. *)
Theorem gammaToLinear_increasing (x y : R) :
  x < y -> gammaToLinear x < gammaToLinear y.
Proof.
  intros Hxy. unfold gammaToLinear.
  destruct (Rle_dec 0.04045 x) as [Hx | Hx].
  - rewrite !(proj2 (leb_true _ _)) by lra.
    apply Rlt_Rpower_l; lra.
  - rewrite (proj2 (leb_false 0.04045 x)) by lra.
    destruct (Rle_dec 0.04045 y) as [Hy | Hy].
    + rewrite (proj2 (leb_true _ _)) by lra.
      apply Rlt_le_trans with 0.003130805; [lra |].
      apply Rle_trans with (Rpower (0.09545 / 1.055) 2.4).
      * apply power_lower_bound; lra.
      * apply Rle_Rpower_l; lra.
    + rewrite (proj2 (leb_false _ _)) by lra. lra.
Qed.

Lemma gammaToLinear_increasing_witness :
  gammaToLinear 0.04 < gammaToLinear 0.05.
Proof. apply gammaToLinear_increasing. lra. Defined.

(** ** Hex strings, continued *)

Lemma hex_value_range (c : code_unit) (d : Z) :
  hex_value c = Some d -> (0 <= d < 16)%Z.
Proof.
  unfold hex_value.
  destruct ((48 <=? c) && (c <=? 57))%N eqn:E1;
    [| destruct ((97 <=? c) && (c <=? 102))%N eqn:E2;
       [| destruct ((65 <=? c) && (c <=? 70))%N eqn:E3; [| discriminate]]].
  all: match goal with
       | E : (_ && _)%bool = true |- _ =>
           apply andb_true_iff in E as [Ea Eb];
           apply N.leb_le in Ea; apply N.leb_le in Eb
       end.
  all: intros H; injection H as <-; lia.
Qed.

(** The number that two hexadecimal digits denote. *)
Lemma parseInt16_pair (c1 c2 : code_unit) :
  is_hex c1 = true -> is_hex c2 = true ->
  (0 <= parseInt16 [c1; c2] <= 255)%Z.
Proof.
  unfold is_hex, parseInt16. cbn [fold_left].
  destruct (hex_value c1) as [d1 |] eqn:E1; [| discriminate].
  destruct (hex_value c2) as [d2 |] eqn:E2; [| discriminate].
  intros _ _. apply hex_value_range in E1, E2. lia.
Qed.

(** What [parseHex] returns: three multiples of 1/255. *)
Lemma parseHex_values (s : jsstring) (r g b : R) :
  parseHex s = Some (r, g, b) ->
  exists kr kg kb : Z,
    (0 <= kr <= 255)%Z /\ (0 <= kg <= 255)%Z /\ (0 <= kb <= 255)%Z /\
    r = IZR kr / 255 /\ g = IZR kg / 255 /\ b = IZR kb / 255.
Proof.
  unfold parseHex. set (str := strip_hash (trim s)).
  destruct (is_hex6 str) eqn:E; cbn [negb]; [| discriminate].
  intros H. injection H as <- <- <-.
  unfold is_hex6 in E. apply andb_true_iff in E as [Hlen Hall].
  apply Nat.eqb_eq in Hlen.
  do 6 (destruct str as [| ? str]; [discriminate |]).
  destruct str; [| discriminate].
  cbn [forallb] in Hall.
  repeat match type of Hall with
         | (_ && _)%bool = true =>
             let H := fresh "Hc" in apply andb_true_iff in Hall as [H Hall]
         end.
  unfold JS.slice. cbn [firstn skipn Nat.sub].
  do 3 eexists. repeat split; try reflexivity;
    apply parseInt16_pair; assumption.
Qed.

Lemma round_byte (k : Z) :
  (0 <= k <= 255)%Z -> Num.round (clamp01 (IZR k / 255) * 255) = k.
Proof.
  intros Hk.
  assert (H0 : 0 <= IZR k) by (apply IZR_le; lia).
  assert (H1 : IZR k <= 255) by (apply IZR_le; lia).
  rewrite clamp01_id by lra.
  unfold Num.round. apply Zfloor_eq. lra.
Qed.

(** X15. A colour that [parseHex] returns has its channels in [0, 1], and
    is the colour that [parseHex] returns for its own hex string: a parsed
    colour is formatted and parsed again without change. *)
Theorem parseHex_then_rgbToHex (s : jsstring) (r g b : R) :
  parseHex s = Some (r, g, b) ->
  (0 <= r <= 1 /\ 0 <= g <= 1 /\ 0 <= b <= 1) /\
  parseHex (rgbToHex r g b) = Some (r, g, b).
Proof.
  intros H.
  destruct (parseHex_values s r g b H)
    as (kr & kg & kb & Hr & Hg & Hb & -> & -> & ->).
  assert (Bound : forall k : Z, (0 <= k <= 255)%Z -> 0 <= IZR k / 255 <= 1).
  { intros k Hk.
    assert (0 <= IZR k) by (apply IZR_le; lia).
    assert (IZR k <= 255) by (apply IZR_le; lia). lra. }
  split; [auto |].
  rewrite parseHex_rgbToHex, !round_byte by assumption. reflexivity.
Qed.

Lemma parseHex_then_rgbToHex_witness :
  exists r g b : R,
    parseHex (lit " #FF8000 ") = Some (r, g, b) /\
    parseHex (rgbToHex r g b) = Some (r, g, b).
Proof.
  destruct (parseHex (lit " #FF8000 ")) as [[[r g] b] |] eqn:E.
  - exists r, g, b. split; [reflexivity |].
    exact (proj2 (parseHex_then_rgbToHex (lit " #FF8000 ") r g b E)).
  - exfalso. revert E. apply parseHex_accepts.
    exists (lit " "), (lit "#FF8000"), (lit " ").
    split; [reflexivity |].
    split; [repeat constructor |]. split; [repeat constructor |].
    exists (lit "FF8000"). split; [right; reflexivity |].
    split; [reflexivity |].
    apply forallb_is_hex. reflexivity.
Defined.

(** ** Tone curves, continued *)





Section Parametric.

Variables g a b c d : R.
Hypothesis g_pos : 0 < g.
Hypothesis a_pos : 0 < a.
Hypothesis c_pos : 0 < c.
Hypothesis base_pos : 0 < a * d + b.





End Parametric.



(** ** Sampled curves *)

Lemma be_value_step (bs : list byte) (acc : Z) :
  fold_left (fun acc b => acc * 256 + Z.of_N (Byte.to_N b))%Z bs acc =
  (acc * 256 ^ Z.of_nat (List.length bs) + be_value bs)%Z.
Proof.
  unfold be_value. revert acc.
  induction bs as [| b bs IH]; intros acc.
  - cbn. lia.
  - cbn [fold_left List.length]. rewrite IH.
    rewrite (IH (0 * 256 + Z.of_N (Byte.to_N b))%Z).
    rewrite Nat2Z.inj_succ, Z.pow_succ_r by lia. ring.
Qed.

(** An unsigned number of [n] bytes is in [0, 256^n). *)
Lemma be_value_range (bs : list byte) :
  (0 <= be_value bs < 256 ^ Z.of_nat (List.length bs))%Z.
Proof.
  induction bs as [| b bs IH] using rev_ind.
  - cbn. lia.
  - unfold be_value in *. rewrite fold_left_app. cbn [fold_left].
    rewrite length_app. cbn [List.length].
    rewrite Nat2Z.inj_add, Z.pow_add_r by lia.
    pose proof (Byte.to_N_bounded b). change (256 ^ Z.of_nat 1)%Z with 256%Z.
    lia.
Qed.

Lemma view_length (buf : buffer) (off : Z) (n : nat) (bs : list byte) :
  view buf off n = Ok bs -> List.length bs = n.
Proof.
  unfold view, byteLength.
  destruct ((0 <=? off) && (off + Z.of_nat n <=? _))%Z eqn:E; [| discriminate].
  apply andb_true_iff in E as [E1 E2].
  apply Z.leb_le in E1, E2.
  intros H. injection H as <-.
  rewrite length_firstn, length_skipn. lia.
Qed.

Lemma getUint16_range (buf : buffer) (off x : Z) :
  getUint16 buf off = Ok x -> (0 <= x <= 65535)%Z.
Proof.
  unfold getUint16. intros H.
  destruct (view buf off 2) as [bs |] eqn:E; cbn [bind] in H; [| discriminate].
  injection H as <-. apply view_length in E.
  pose proof (be_value_range bs) as Hr. rewrite E in Hr.
  change (256 ^ Z.of_nat 2)%Z with 65536%Z in Hr. lia.
Qed.

Lemma getUint32_range (buf : buffer) (off x : Z) :
  getUint32 buf off = Ok x -> (0 <= x < 4294967296)%Z.
Proof.
  unfold getUint32. intros H.
  destruct (view buf off 4) as [bs |] eqn:E; cbn [bind] in H; [| discriminate].
  injection H as <-. apply view_length in E.
  pose proof (be_value_range bs) as Hr. rewrite E in Hr.
  exact Hr.
Qed.

Lemma getUint16s_values (buf : buffer) (n : nat) (off : Z) (xs : list Z) :
  getUint16s buf off n = Ok xs ->
  List.length xs = n /\ Forall (fun x => 0 <= x <= 65535)%Z xs.
Proof.
  revert off xs. induction n as [| n IH]; intros off xs H;
    cbn [getUint16s] in H.
  - injection H as <-. split; [reflexivity | constructor].
  - destruct (getUint16 buf off) as [x |] eqn:E1; cbn [bind] in H;
      [| discriminate].
    destruct (getUint16s buf (off + 2) n) as [xs' |] eqn:E2; cbn [bind] in H;
      [| discriminate].
    injection H as <-. destruct (IH _ _ E2) as [Hlen Hall].
    split; [cbn [List.length]; congruence |].
    constructor; [eapply getUint16_range; eassumption | exact Hall].
Qed.

(** The interpolation reads inside the table and stays between the
    bounds of its entries. *)
Lemma interpolate_range (table : list R) (n : Z) (m M v : R) :
  (1 <= n)%Z -> List.length table = Z.to_nat n ->
  Forall (fun t => m <= t <= M) table ->
  m <= interpolate table n v <= M.
Proof.
  intros Hn Hlen Hall. unfold interpolate.
  pose proof (clamp01_range v) as Hc. fold (clamp01 v).
  set (x := clamp01 v * IZR (n - 1)).
  assert (Hn1 : 0 <= IZR (n - 1)) by (apply IZR_le; lia).
  assert (Hx : 0 <= x <= IZR (n - 1)) by (unfold x; nra).
  pose proof (Zfloor_bound x) as Hfl. fold (Num.floor x) in Hfl.
  set (lo := Num.floor x) in *.
  assert (Hlo : (0 <= lo <= n - 1)%Z).
  { split.
    - assert (H : (-1 < lo)%Z) by (apply lt_IZR; lra). lia.
    - apply le_IZR. lra. }
  assert (Hentry : forall i : Z, (0 <= i <= n - 1)%Z -> m <= at64 table i <= M).
  { intros i Hi. unfold at64.
    rewrite Forall_forall in Hall. apply Hall. apply nth_In. lia. }
  pose proof (Hentry lo Hlo) as H0.
  pose proof (Hentry (Z.min (lo + 1) (n - 1)) ltac:(lia)) as H1.
  set (t0 := at64 table lo) in *.
  set (t1 := at64 table (Z.min (lo + 1) (n - 1))) in *.
  assert (Hfrac : 0 <= x - IZR lo <= 1) by lra.
  split; nra.
Qed.

Lemma fillInverse_length (n : nat) (table : list R) (count i ti : Z) :
  List.length (fillInverse n table count i ti) = n.
Proof.
  revert i ti. induction n as [| n IH]; intros i ti; [reflexivity |].
  cbn [fillInverse List.length]. f_equal. apply IH.
Qed.

(** What [parseTRC] makes of a sampled curve. *)
Lemma parseTRC_table (dv : buffer) (t : tag) (count : Z) (table invTable : list R) :
  parseTRC dv t = Ok (Table count table invTable) ->
  (2 <= count)%Z /\ List.length table = Z.to_nat count /\
  Forall (fun x => 0 <= x <= 1) table /\
  Z.of_nat (List.length invTable) = invSize.
Proof.
  unfold parseTRC. intros H.
  destruct (String.eqb (signature dv (offset t)) "curv").
  - destruct (getUint32 dv (offset t + 8)) as [n |] eqn:En; cbn [bind] in H;
      [| discriminate].
    apply getUint32_range in En.
    destruct (n =? 0)%Z eqn:E0; [discriminate |].
    destruct (n =? 1)%Z eqn:E1.
    { destruct (getUint16 dv (offset t + 12)); discriminate. }
    apply Z.eqb_neq in E0, E1.
    destruct (getUint16s dv (offset t + 12) (Z.to_nat n)) as [raws |] eqn:Er;
      cbn [bind] in H; [| discriminate].
    remember (fillInverse (Z.to_nat invSize)
                (map (fun raw : Z => IZR raw / 65535) raws) n 0 0) as inv
      eqn:Einv.
    assert (Hn : n = count) by congruence.
    assert (Ht : map (fun raw : Z => IZR raw / 65535) raws = table)
      by congruence.
    assert (Hi : inv = invTable) by congruence.
    clear H. subst count table invTable.
    destruct (getUint16s_values _ _ _ _ Er) as [Hlen Hall].
    split; [lia |]. split; [rewrite length_map; exact Hlen |].
    split.
    + rewrite Forall_forall in *. intros x Hx.
      apply in_map_iff in Hx as [raw [<- Hraw]].
      specialize (Hall raw Hraw). cbv beta in Hall.
      assert (0 <= IZR raw) by (apply IZR_le; lia).
      assert (IZR raw <= 65535) by (apply IZR_le; lia).
      lra.
    + rewrite Einv, fillInverse_length. apply Z2Nat.id. unfold invSize. lia.
  - destruct (String.eqb (signature dv (offset t)) "para"); [| discriminate].
    destruct (getUint16 dv (offset t + 8)) as [ft |]; cbn [bind] in H;
      [| discriminate].
    repeat match type of H with
           | (if ?c then _ else _) = Ok _ => destruct c
           | bind ?m _ = Ok _ => destruct m; cbn [bind] in H
           | _ => discriminate H
           end.
Qed.

(** X18. A sampled curve ('curv' with [count] entries) that [parseTRC]
    accepts has at least two entries, all in [0, 1], and an inverse table
    of 4096 entries; its decoder returns a value of [0, 1] for every
    input. *)
Theorem sampled_curve_decodes (dv : buffer) (t : tag) (count : Z)
    (table invTable : list R) :
  parseTRC dv t = Ok (Table count table invTable) ->
  (2 <= count)%Z /\ List.length table = Z.to_nat count /\
  Forall (fun x => 0 <= x <= 1) table /\
  Z.of_nat (List.length invTable) = invSize /\
  forall v : R,
    exists y : R,
      curveDecode (Table count table invTable) v = Ok y /\ 0 <= y <= 1.
Proof.
  intros H. destruct (parseTRC_table _ _ _ _ _ H) as (Hc & Hlen & Hall & Hinv).
  repeat split; try assumption.
  intros v. exists (interpolate table count v). split; [reflexivity |].
  apply interpolate_range; [lia | exact Hlen | exact Hall].
Qed.

Lemma twoPointCurve_parse :
  exists invTable : list R,
    parseTRC twoPointCurve {| offset := 0; size := 16 |} =
    Ok (Table 2 [IZR 0 / 65535; IZR 65535 / 65535] invTable).
Proof.
  unfold parseTRC. cbn [offset].
  replace (signature twoPointCurve 0) with "curv"%string
    by (vm_compute; reflexivity).
  replace (getUint32 twoPointCurve (0 + 8)) with (@Ok exn Z 2%Z)
    by (vm_compute; reflexivity).
  replace (getUint16s twoPointCurve (0 + 12) (Z.to_nat 2))
    with (@Ok exn (list Z) [0; 65535]%Z) by (vm_compute; reflexivity).
  cbn [String.eqb Ascii.eqb Bool.eqb bind Z.eqb Pos.eqb map].
  eexists. reflexivity.
Qed.

Lemma sampled_curve_decodes_witness :
  exists (invTable : list R) (y : R),
    curveDecode (Table 2 [IZR 0 / 65535; IZR 65535 / 65535] invTable) (1 / 2)
    = Ok y /\ 0 <= y <= 1.
Proof.
  destruct twoPointCurve_parse as [invTable H].
  exists invTable.
  exact (proj2 (proj2 (proj2 (proj2
           (sampled_curve_decodes twoPointCurve _ _ _ _ H)))) (1 / 2)).
Defined.

(** ** The picker and its edit target *)

Lemma sync_after_write (st : Picker) :
  syncPickerToEditTarget (writePickerToEditTarget st) =
  writePickerToEditTarget st.
Proof.
  destruct st as [cL cA cB lab target aL aA aB lL lA lB li hM hA hL].
  unfold syncPickerToEditTarget, writePickerToEditTarget.
  cbn [isLightingOpen editTarget].
  destruct lab; cbn [negb]; [| reflexivity].
  destruct (String.eqb target "albedo") eqn:Et;
    cbn [isLightingOpen editTarget setAlbedo setLight negb];
    rewrite Et; reflexivity.
Qed.

Lemma write_keeps_colour (st : Picker) :
  currentL (writePickerToEditTarget st) = currentL st /\
  currentA (writePickerToEditTarget st) = currentA st /\
  currentB (writePickerToEditTarget st) = currentB st /\
  activeStack (writePickerToEditTarget st) = activeStack st /\
  forall k : stack, historyOf k (writePickerToEditTarget st) = historyOf k st.
Proof.
  unfold writePickerToEditTarget, activeStack.
  destruct (isLightingOpen st) eqn:Eo; cbn [negb].
  - destruct (String.eqb (editTarget st) "albedo") eqn:Et;
      cbn [currentL currentA currentB isLightingOpen editTarget setAlbedo
           setLight];
      rewrite Eo, Et; cbn [negb]; repeat split; intros []; reflexivity.
  - rewrite Eo. cbn [negb]. repeat split.
Qed.

(** ** The colour selection history *)

Lemma historyOf_setHistory (k : stack) (h : History) (st : Picker) :
  historyOf k (setHistory k h st) = h.
Proof. destruct k; reflexivity. Qed.

Lemma historyOf_setHistory_other (k k' : stack) (h : History) (st : Picker) :
  k' <> k -> historyOf k' (setHistory k h st) = historyOf k' st.
Proof. destruct k, k'; intros H; try reflexivity; contradiction H; reflexivity. Qed.

Lemma activeStack_setHistory (k : stack) (h : History) (st : Picker) :
  activeStack (setHistory k h st) = activeStack st.
Proof. reflexivity. Qed.

Lemma nth_error_last {A : Type} (l : list A) (c : A) :
  nth_error (l ++ [c]) (List.length (l ++ [c]) - 1) = Some c.
Proof.
  rewrite length_app. cbn [List.length].
  rewrite nth_error_app2 by lia.
  replace (List.length l + 1 - 1 - List.length l)%nat with 0%nat by lia.
  reflexivity.
Qed.

(** The new top of a stack is the pushed colour. *)
Lemma lastEntry_pushEntry (h : History) (c : vec3) :
  lastEntry (pushEntry h c) = Some c.
Proof.
  unfold lastEntry, pushEntry. cbn [entries].
  destruct (MAX_HISTORY <? List.length (entries h ++ [c]))%nat eqn:E.
  - apply Nat.ltb_lt in E. rewrite length_app in E. cbn [List.length] in E.
    destruct (entries h) as [| e es]; [cbn in E; unfold MAX_HISTORY in E; lia |].
    cbn [app tl].
    destruct (es ++ [c]) as [| e' es'] eqn:Ees.
    + destruct es; discriminate.
    + rewrite <- Ees. apply nth_error_last.
  - destruct (entries h ++ [c]) as [| e' es'] eqn:Ees.
    + destruct (entries h); discriminate.
    + rewrite <- Ees. apply nth_error_last.
Qed.

Lemma wellFormed_pushEntry (h : History) (c : vec3) :
  wellFormed h -> wellFormed (pushEntry h c).
Proof.
  unfold wellFormed, pushEntry, MAX_HISTORY. cbn [entries pos].
  intros [[Hn Hmax] _].
  destruct (200 <? List.length (entries h ++ [c]))%nat eqn:E.
  - apply Nat.ltb_lt in E. rewrite length_tl.
    rewrite length_app in *. cbn [List.length] in *. lia.
  - apply Nat.ltb_ge in E.
    rewrite length_app in *. cbn [List.length] in *. lia.
Qed.

Lemma sameColor_spec (l0 l1 l2 L a b : R) :
  sameColor (l0, l1, l2) L a b = true <->
  Rabs (l0 - L) < 1e-6 /\ Rabs (l1 - a) < 1e-6 /\ Rabs (l2 - b) < 1e-6.
Proof.
  unfold sameColor. rewrite !andb_true_iff, !ltb_true. tauto.
Qed.

(** What a push does. *)
Lemma push_effect (st : Picker) :
  let st' := pushColorToHistory st in
  (currentL st' = currentL st /\ currentA st' = currentA st /\
   currentB st' = currentB st /\ activeStack st' = activeStack st) /\
  (forall k : stack, k <> activeStack st -> historyOf k st' = historyOf k st) /\
  (exists l0 l1 l2 : R,
      lastEntry (getActiveHistory st') = Some (l0, l1, l2) /\
      Rabs (l0 - currentL st) < 1e-6 /\ Rabs (l1 - currentA st) < 1e-6 /\
      Rabs (l2 - currentB st) < 1e-6) /\
  (wellFormed (getActiveHistory st) -> wellFormed (getActiveHistory st')) /\
  (forall last : vec3,
      lastEntry (getActiveHistory st) = Some last ->
      sameColor last (currentL st) (currentA st) (currentB st) = true ->
      st' = st).
Proof.
  intros st'. subst st'. unfold pushColorToHistory, getActiveHistory.
  set (k := activeStack st). set (h := historyOf k st).
  set (c := (currentL st, currentA st, currentB st)).
  assert (Hpushed :
    let st' := setHistory k (pushEntry h c) st in
    (currentL st' = currentL st /\ currentA st' = currentA st /\
     currentB st' = currentB st /\ activeStack st' = k) /\
    (forall k' : stack, k' <> k -> historyOf k' st' = historyOf k' st) /\
    (exists l0 l1 l2 : R,
        lastEntry (historyOf (activeStack st') st') = Some (l0, l1, l2) /\
        Rabs (l0 - currentL st) < 1e-6 /\ Rabs (l1 - currentA st) < 1e-6 /\
        Rabs (l2 - currentB st) < 1e-6) /\
    (wellFormed h -> wellFormed (historyOf (activeStack st') st'))).
  { cbv zeta. rewrite activeStack_setHistory. fold k.
    rewrite historyOf_setHistory.
    split; [repeat split |].
    split; [intros k' Hk'; apply historyOf_setHistory_other; exact Hk' |].
    split; [| apply wellFormed_pushEntry].
    exists (currentL st), (currentA st), (currentB st).
    split; [apply lastEntry_pushEntry |].
    replace (currentL st - currentL st) with 0 by ring.
    replace (currentA st - currentA st) with 0 by ring.
    replace (currentB st - currentB st) with 0 by ring.
    rewrite Rabs_R0. lra. }
  cbv zeta in Hpushed.
  destruct Hpushed as (Hcol & Hother & Hlast & Hwf).
  destruct (lastEntry h) as [[[l0 l1] l2] |] eqn:El.
  - destruct (sameColor (l0, l1, l2) (currentL st) (currentA st) (currentB st))
      eqn:Es.
    + fold k. fold h. split; [repeat split |].
      split; [reflexivity |].
      split; [| split; [tauto | reflexivity]].
      exists l0, l1, l2. split; [exact El |].
      apply sameColor_spec. exact Es.
    + split; [exact Hcol |]. split; [exact Hother |].
      split; [exact Hlast |]. split; [exact Hwf |].
      intros last Hl Hs. injection Hl as <-. congruence.
  - split; [exact Hcol |]. split; [exact Hother |].
    split; [exact Hlast |]. split; [exact Hwf |].
    intros last Hl. discriminate.
Qed.

(** X19. [pushColorToHistory] changes nothing but the active stack, and
    leaves the picker colour as the last entry of that stack, up to the
    1e-6 of the duplicate test; a stack that is well formed (between 1 and
    200 entries, its position on one of them) stays well formed. When the
    colour is a duplicate of the last entry the state is unchanged, so the
    position is not moved to the top. *)
Theorem pushColorToHistory_invariants (st : Picker) :
  let st' := pushColorToHistory st in
  (currentL st' = currentL st /\ currentA st' = currentA st /\
   currentB st' = currentB st /\ activeStack st' = activeStack st) /\
  (forall k : stack, k <> activeStack st -> historyOf k st' = historyOf k st) /\
  (exists l0 l1 l2 : R,
      lastEntry (getActiveHistory st') = Some (l0, l1, l2) /\
      Rabs (l0 - currentL st) < 1e-6 /\ Rabs (l1 - currentA st) < 1e-6 /\
      Rabs (l2 - currentB st) < 1e-6) /\
  (wellFormed (getActiveHistory st) -> wellFormed (getActiveHistory st')) /\
  (forall last : vec3,
      lastEntry (getActiveHistory st) = Some last ->
      sameColor last (currentL st) (currentA st) (currentB st) = true ->
      st' = st).
Proof. exact (push_effect st). Qed.

Lemma pushColorToHistory_invariants_witness :
  wellFormed (getActiveHistory
                (pushColorToHistory (setCurrent (1 / 2) 0 0 initialPicker))).
Proof.
  apply (pushColorToHistory_invariants (setCurrent (1 / 2) 0 0 initialPicker)).
  unfold wellFormed, MAX_HISTORY. cbn. lia.
Defined.

(** Applying an entry: the picker takes its colour, and the redraw keeps
    it. *)
Lemma applyHistoryEntry_spec (k : stack) (st : Picker) (L a b : R) :
  k = activeStack st ->
  entryAt (historyOf k st) = Some (L, a, b) ->
  exists st' : Picker,
    applyHistoryEntry k st = Some st' /\
    (currentL st', currentA st', currentB st') = (L, a, b) /\
    activeStack st' = activeStack st /\
    forall k' : stack, historyOf k' st' = historyOf k' st.
Proof.
  intros Hk He. unfold applyHistoryEntry. rewrite He.
  eexists. split; [reflexivity |].
  unfold renderAll. rewrite sync_after_write.
  destruct (write_keeps_colour (setCurrent L a b st))
    as (H1 & H2 & H3 & H4 & H5).
  rewrite H1, H2, H3, H4. split; [reflexivity |]. split; [reflexivity |].
  intros k'. rewrite H5. reflexivity.
Qed.

Lemma entryAt_in_range (h : History) :
  (0 <= pos h < Z.of_nat (List.length (entries h)))%Z ->
  exists c : vec3, entryAt h = Some c.
Proof.
  intros H. unfold entryAt.
  destruct (pos h <? 0)%Z eqn:E; [apply Z.ltb_lt in E; lia |].
  destruct (nth_error (entries h) (Z.to_nat (pos h))) as [c |] eqn:En.
  - exists c. reflexivity.
  - apply nth_error_None in En. lia.
Qed.

(** One step of navigation, by [delta] = -1 or +1, when the new position
    is on an entry. *)
Lemma navigation_step (st : Picker) (delta : Z) :
  let h := getActiveHistory st in
  (0 <= pos h + delta < Z.of_nat (List.length (entries h)))%Z ->
  exists st' : Picker,
    applyHistoryEntry (activeStack st)
      (setHistory (activeStack st)
         {| entries := entries h; pos := pos h + delta |} st) = Some st' /\
    entries (getActiveHistory st') = entries h /\
    pos (getActiveHistory st') = (pos h + delta)%Z /\
    entryAt (getActiveHistory st') =
    Some (currentL st', currentA st', currentB st').
Proof.
  intros h Hr. unfold getActiveHistory in *.
  set (k := activeStack st) in *.
  set (h' := {| entries := entries h; pos := (pos h + delta)%Z |}).
  destruct (entryAt_in_range h') as [[[L a] b] Hc]; [exact Hr |].
  destruct (applyHistoryEntry_spec k (setHistory k h' st) L a b)
    as (st' & Happ & Hcol & Hact & Hhist).
  - reflexivity.
  - rewrite historyOf_setHistory. exact Hc.
  - exists st'. split; [exact Happ |].
    rewrite Hact, activeStack_setHistory. fold k.
    rewrite Hhist, historyOf_setHistory.
    split; [reflexivity |]. split; [reflexivity |].
    rewrite Hc, Hcol. reflexivity.
Qed.

(** X20. On a well-formed active stack [historyBack] and [historyForward]
    do not throw; they keep the entries; they move the position by one
    step unless it is at the first (the last) entry, where they change
    nothing; and after a move the picker colour is the entry at the
    position. *)
Theorem history_navigation (st : Picker) :
  let h := getActiveHistory st in
  wellFormed h ->
  (exists st' : Picker,
      historyBack st = Some st' /\
      entries (getActiveHistory st') = entries h /\
      pos (getActiveHistory st') = Z.max 0 (pos h - 1) /\
      wellFormed (getActiveHistory st') /\
      ((pos h = 0)%Z -> st' = st) /\
      ((0 < pos h)%Z ->
       entryAt (getActiveHistory st') =
       Some (currentL st', currentA st', currentB st'))) /\
  (exists st' : Picker,
      historyForward st = Some st' /\
      entries (getActiveHistory st') = entries h /\
      pos (getActiveHistory st') =
      Z.min (Z.of_nat (List.length (entries h)) - 1) (pos h + 1) /\
      wellFormed (getActiveHistory st') /\
      ((pos h = Z.of_nat (List.length (entries h)) - 1)%Z -> st' = st) /\
      ((pos h < Z.of_nat (List.length (entries h)) - 1)%Z ->
       entryAt (getActiveHistory st') =
       Some (currentL st', currentA st', currentB st'))).
Proof.
  intros h [Hlen Hpos]. split.
  - unfold historyBack. fold (getActiveHistory st). fold h.
    destruct (0 <? pos h)%Z eqn:E.
    + apply Z.ltb_lt in E.
      destruct (navigation_step st (-1)) as (st' & Happ & He & Hp & Hc).
      { fold h. lia. }
      fold h in Happ, He, Hp.
      exists st'. replace (pos h - 1)%Z with (pos h + -1)%Z by lia.
      split; [exact Happ |]. split; [exact He |]. split; [rewrite Hp; lia |].
      split; [unfold wellFormed; rewrite He, Hp; split; [exact Hlen | lia] |].
      split; [intros H0; lia | intros _; exact Hc].
    + apply Z.ltb_ge in E. exists st.
      split; [reflexivity |]. split; [reflexivity |].
      fold h. split; [lia |]. split; [split; assumption |].
      split; [reflexivity | intros H0; lia].
  - unfold historyForward. fold (getActiveHistory st). fold h.
    destruct (pos h <? Z.of_nat (List.length (entries h)) - 1)%Z eqn:E.
    + apply Z.ltb_lt in E.
      destruct (navigation_step st 1) as (st' & Happ & He & Hp & Hc).
      { fold h. lia. }
      fold h in Happ, He, Hp.
      exists st'.
      split; [exact Happ |]. split; [exact He |]. split; [rewrite Hp; lia |].
      split; [unfold wellFormed; rewrite He, Hp; split; [exact Hlen | lia] |].
      split; [intros H0; lia | intros _; exact Hc].
    + apply Z.ltb_ge in E. exists st.
      split; [reflexivity |]. split; [reflexivity |].
      fold h. split; [lia |]. split; [split; assumption |].
      split; [reflexivity | intros H0; lia].
Qed.

Lemma threeColours_wellFormed :
  wellFormed (getActiveHistory pickerWithHistory).
Proof. unfold wellFormed, MAX_HISTORY. cbn. lia. Qed.

Lemma history_navigation_witness :
  (exists st' : Picker,
      historyBack pickerWithHistory = Some st' /\
      entries (getActiveHistory st') = entries threeColours /\
      pos (getActiveHistory st') = 1%Z /\
      (currentL st', currentA st', currentB st') = (0.6, 0.1, 0)) /\
  historyForward pickerWithHistory = Some pickerWithHistory.
Proof.
  destruct (history_navigation pickerWithHistory threeColours_wellFormed)
    as [(st' & H1 & H2 & H3 & _ & _ & H6) (st2 & F1 & _ & _ & _ & F5 & _)].
  split.
  - exists st'. split; [exact H1 |]. split; [exact H2 |]. split; [exact H3 |].
    assert (Hpos : (0 < pos (getActiveHistory pickerWithHistory))%Z)
      by (cbn; lia).
    specialize (H6 Hpos). unfold entryAt in H6. rewrite H2, H3 in H6.
    cbn in H6. injection H6 as <- <- <-. reflexivity.
  - rewrite F1. f_equal. apply F5. reflexivity.
Defined.

(** ** Saving and restoring the history *)

(** X21. A stack that is saved and loaded again: it holds the last 50
    entries at most, it is well formed whenever the stack was not empty,
    whatever its position was; when the stack was well formed and its
    position was on one of the kept entries the position is on the same
    entry, and a stack of at most 50 entries comes back unchanged. *)
Theorem saved_history_restored (target h : History) :
  let h' := loadHistory target (Some (capHistory h)) in
  (0 < List.length (entries h))%nat ->
  let start := (List.length (entries h) - SAVE_HISTORY_CAP)%nat in
  entries h' = skipn start (entries h) /\
  wellFormed h' /\
  (wellFormed h -> (Z.of_nat start <= pos h)%Z -> entryAt h' = entryAt h) /\
  (wellFormed h -> (List.length (entries h) <= SAVE_HISTORY_CAP)%nat ->
   h' = h).
Proof.
  intros h' Hne start. subst h'.
  assert (Hstart : start = (List.length (entries h) - 50)%nat) by reflexivity.
  assert (Hce : entries (capHistory h) = skipn start (entries h))
    by reflexivity.
  assert (Hcp : pos (capHistory h) = Z.max 0 (pos h - Z.of_nat start))
    by reflexivity.
  pose proof (length_skipn start (entries h)) as Hcl.
  clearbody start.
  unfold loadHistory. rewrite Hce, Hcp, Hcl.
  assert (Hpos : (0 <? List.length (entries h) - start)%nat = true).
  { apply Nat.ltb_lt. lia. }
  rewrite Hpos. unfold wellFormed, MAX_HISTORY, SAVE_HISTORY_CAP.
  cbn [entries pos]. rewrite Hcl.
  split; [reflexivity |]. split; [| split].
  - lia.
  - intros [_ Hp] Hs. unfold entryAt. cbn [entries pos].
    replace (Z.min (Z.max 0 (pos h - Z.of_nat start))
               (Z.of_nat (List.length (entries h) - start) - 1))
      with (pos h - Z.of_nat start)%Z by lia.
    destruct (pos h - Z.of_nat start <? 0)%Z eqn:E1;
      [apply Z.ltb_lt in E1; lia |].
    destruct (pos h <? 0)%Z eqn:E2; [apply Z.ltb_lt in E2; lia |].
    rewrite nth_error_skipn. f_equal. lia.
  - intros [_ Hp] Hshort.
    assert (Hs : start = 0%nat) by lia.
    rewrite Hs. cbn [skipn]. destruct h as [es p]. cbn [entries pos] in *.
    f_equal. lia.
Qed.

Lemma sixtyColours_wellFormed : wellFormed sixtyColours.
Proof. unfold wellFormed, MAX_HISTORY. cbn. lia. Qed.

Lemma saved_history_restored_witness :
  let h' := loadHistory (historyMain initialPicker)
              (Some (capHistory sixtyColours)) in
  List.length (entries h') = 50%nat /\
  nth_error (entries h') 0 = Some (INR 10 / 100, 0, 0) /\
  wellFormed h' /\
  entryAt h' = entryAt sixtyColours /\
  pos h' = 45%Z.
Proof.
  intros h'.
  destruct (saved_history_restored (historyMain initialPicker) sixtyColours)
    as (He & Hwf & Hat & _); [cbn; lia |].
  fold h' in He, Hwf, Hat.
  split; [rewrite He; reflexivity |].
  split; [rewrite He; reflexivity |].
  split; [exact Hwf |].
  split; [apply Hat; [exact sixtyColours_wellFormed | cbn; lia] |].
  reflexivity.
Defined.

(** ** Editing a colour, and the lit colour *)

(** X22. [commitEditedColor] leaves the picker on the edited colour, its
    lightness clamped to [0, 1], and that colour (up to 1e-6) as the last
    entry of the active stack; the write to the edit target makes the
    redraw's [syncPickerToEditTarget] a no-op. *)
Theorem commitEditedColor_result (newL newA newB : R) (st : Picker) :
  let st' := commitEditedColor newL newA newB st in
  (currentL st', currentA st', currentB st') = (clamp01 newL, newA, newB) /\
  0 <= currentL st' <= 1 /\
  (exists l0 l1 l2 : R,
      lastEntry (getActiveHistory st') = Some (l0, l1, l2) /\
      Rabs (l0 - clamp01 newL) < 1e-6 /\ Rabs (l1 - newA) < 1e-6 /\
      Rabs (l2 - newB) < 1e-6) /\
  syncPickerToEditTarget (writePickerToEditTarget st) =
  writePickerToEditTarget st.
Proof.
  intros st'. subst st'. unfold commitEditedColor.
  set (st1 := writePickerToEditTarget (setCurrent (clamp01 newL) newA newB st)).
  destruct (write_keeps_colour (setCurrent (clamp01 newL) newA newB st))
    as (H1 & H2 & H3 & _). fold st1 in H1, H2, H3.
  cbn [currentL currentA currentB setCurrent] in H1, H2, H3.
  destruct (push_effect st1)
    as ((P1 & P2 & P3 & _) & _ & Plast & _).
  cbv zeta in *. rewrite P1, P2, P3, H1, H2, H3.
  split; [reflexivity |]. split; [apply clamp01_range |].
  split; [| apply sync_after_write].
  rewrite H1, H2, H3 in Plast. exact Plast.
Qed.

(** ** The lit colour *)

Lemma cbrt_zero : Num.cbrt 0 = 0.
Proof.
  unfold Num.cbrt.
  destruct (Rlt_dec 0 0) as [H | _]; [lra |].
  destruct (Rlt_dec 0 0) as [H | _]; [lra | reflexivity].
Qed.

Lemma cube_injective (u v : R) : u ^ 3 = v ^ 3 -> u = v.
Proof.
  intros H. destruct (Rtotal_order u v) as [Hlt | [Heq | Hgt]].
  - pose proof (cube_increasing u v Hlt). lra.
  - exact Heq.
  - pose proof (cube_increasing v u Hgt). lra.
Qed.

(** The cube root is multiplicative. *)
Lemma cbrt_mult (x y : R) : Num.cbrt (x * y) = Num.cbrt x * Num.cbrt y.
Proof.
  apply cube_injective. rewrite cbrt_cube.
  replace ((Num.cbrt x * Num.cbrt y) ^ 3)
    with (Num.cbrt x ^ 3 * Num.cbrt y ^ 3) by ring.
  rewrite !cbrt_cube. reflexivity.
Qed.

(** OKLab is homogeneous: scaling the linear sRGB components by [k]
    scales L, a and b by the cube root of [k]. *)
Lemma linearSRGBToOKLab_scaled (k r g b : R) :
  linearSRGBToOKLab (k * r) (k * g) (k * b) =
  (Num.cbrt k * first (linearSRGBToOKLab r g b),
   Num.cbrt k * second (linearSRGBToOKLab r g b),
   Num.cbrt k * third (linearSRGBToOKLab r g b)).
Proof.
  unfold linearSRGBToOKLab, first, second, third. cbn [fst snd].
  replace (0.4122214708 * (k * r) + 0.5363325363 * (k * g)
           + 0.0514459929 * (k * b))
    with (k * (0.4122214708 * r + 0.5363325363 * g + 0.0514459929 * b))
    by ring.
  replace (0.2119034982 * (k * r) + 0.6806995451 * (k * g)
           + 0.1073969566 * (k * b))
    with (k * (0.2119034982 * r + 0.6806995451 * g + 0.1073969566 * b))
    by ring.
  replace (0.0883024619 * (k * r) + 0.2817188376 * (k * g)
           + 0.6299787005 * (k * b))
    with (k * (0.0883024619 * r + 0.2817188376 * g + 0.6299787005 * b))
    by ring.
  rewrite !cbrt_mult. vec3_eq; ring.
Qed.

Lemma linearSRGBToOKLab_black : linearSRGBToOKLab 0 0 0 = (0, 0, 0).
Proof.
  unfold linearSRGBToOKLab.
  replace (0.4122214708 * 0 + 0.5363325363 * 0 + 0.0514459929 * 0) with 0
    by ring.
  replace (0.2119034982 * 0 + 0.6806995451 * 0 + 0.1073969566 * 0) with 0
    by ring.
  replace (0.0883024619 * 0 + 0.2817188376 * 0 + 0.6299787005 * 0) with 0
    by ring.
  rewrite cbrt_zero. vec3_eq; ring.
Qed.

(** The lit colour as a function of the intensity. *)
Lemma computeLitColor_intensity (k : R) (st : Picker) :
  computeLitColor (setLightIntensity k st) =
  (Num.cbrt k * first (computeLitColor (setLightIntensity 1 st)),
   Num.cbrt k * second (computeLitColor (setLightIntensity 1 st)),
   Num.cbrt k * third (computeLitColor (setLightIntensity 1 st))).
Proof.
  unfold computeLitColor.
  cbn [setLightIntensity albedoL albedoA albedoB lightL lightA lightB
       lightIntensity].
  destruct (oklabToLinearSRGB (albedoL st) (albedoA st) (albedoB st))
    as [[albR albG] albB].
  destruct (oklabToLinearSRGB (lightL st) (lightA st) (lightB st))
    as [[litR litG] litB].
  rewrite <- linearSRGBToOKLab_scaled. f_equal; ring.
Qed.

(** X23. The lit colour. With the intensity k it is the lit colour of
    intensity 1 with L, a and b multiplied by the cube root of k, so the
    intensity changes neither the hue nor the ratio of chroma to
    lightness; with the intensity 0 it is black, (0, 0, 0); exchanging
    albedo and light does not change it; and under a white light
    (L = 1, a = b = 0) of intensity 1 it is the albedo taken to linear
    sRGB and back. *)
Theorem lit_colour :
  forall st : Picker,
    (forall k : R,
        computeLitColor (setLightIntensity k st) =
        (Num.cbrt k * first (computeLitColor (setLightIntensity 1 st)),
         Num.cbrt k * second (computeLitColor (setLightIntensity 1 st)),
         Num.cbrt k * third (computeLitColor (setLightIntensity 1 st)))) /\
    computeLitColor (setLightIntensity 0 st) = (0, 0, 0) /\
    computeLitColor
      (setAlbedo (lightL st) (lightA st) (lightB st)
         (setLight (albedoL st) (albedoA st) (albedoB st) st))
    = computeLitColor st /\
    computeLitColor (setLightIntensity 1 (setLight 1 0 0 st)) =
    oklabRoundTrip (albedoL st) (albedoA st) (albedoB st).
Proof.
  intros st. split; [intros k; apply computeLitColor_intensity |].
  split; [| split].
  - rewrite computeLitColor_intensity, cbrt_zero. vec3_eq; ring.
  - unfold computeLitColor.
    cbn [setAlbedo setLight albedoL albedoA albedoB lightL lightA lightB
         lightIntensity].
    destruct (oklabToLinearSRGB (albedoL st) (albedoA st) (albedoB st))
      as [[albR albG] albB].
    destruct (oklabToLinearSRGB (lightL st) (lightA st) (lightB st))
      as [[litR litG] litB].
    f_equal; ring.
  - unfold computeLitColor, oklabRoundTrip.
    cbn [setLightIntensity setLight albedoL albedoA albedoB lightL lightA
         lightB lightIntensity].
    rewrite (oklabToLinearSRGB_neutral 1).
    destruct (oklabToLinearSRGB (albedoL st) (albedoA st) (albedoB st))
      as [[albR albG] albB].
    unfold first, second, third. cbn [fst snd]. f_equal; ring.
Qed.

(** X24. The light intensity stays in [0, INTENSITY_MAX]: a drag on the
    intensity track always leaves it there, and a commit of the intensity
    field keeps it there (a negative number is ignored, a number above the
    maximum is cut down to it). *)
Theorem lightIntensity_range (x v : R) (st : Picker) :
  0 <= lightIntensity (updateIntensityFromPointer x st) <= INTENSITY_MAX /\
  (0 <= lightIntensity st <= INTENSITY_MAX ->
   0 <= lightIntensity (commitIntensity v st) <= INTENSITY_MAX) /\
  (v < 0 -> commitIntensity v st = st) /\
  (INTENSITY_MAX <= v ->
   lightIntensity (commitIntensity v st) = INTENSITY_MAX).
Proof.
  unfold updateIntensityFromPointer, commitIntensity, INTENSITY_MAX.
  cbn [lightIntensity setLightIntensity].
  split; [| split; [| split]].
  - unfold Rmax, Rmin.
    destruct (Rle_dec 10.0 (x * 10.0)); destruct (Rle_dec 0 _); lra.
  - intros Hst. destruct (Num.ltb v 0) eqn:E; [exact Hst |].
    apply ltb_false in E. cbn [lightIntensity setLightIntensity].
    unfold Rmin. destruct (Rle_dec v 10.0); lra.
  - intros Hv. rewrite (proj2 (ltb_true v 0) Hv). reflexivity.
  - intros Hv. rewrite (proj2 (ltb_false v 0)) by lra.
    cbn [lightIntensity setLightIntensity].
    unfold Rmin. destruct (Rle_dec v 10.0); lra.
Qed.

Lemma lightIntensity_range_witness :
  lightIntensity (commitIntensity 25 initialPicker) = INTENSITY_MAX.
Proof.
  apply (lightIntensity_range 0 25 initialPicker).
  unfold INTENSITY_MAX. lra.
Defined.

(** ** The cached profile *)

(** The 64 characters of the alphabet: none is white space or '=', and
    [base64Value] gives the index back. *)
Lemma base64Char_facts (v : Z) :
  (0 <= v < 64)%Z ->
  base64Value (base64Char v) = Some v /\
  is_ascii_whitespace (base64Char v) = false /\
  base64Char v <> 61%N.
Proof.
  intros Hv.
  pose (p := fun v : Z =>
    match base64Value (base64Char v) with
    | Some w => (w =? v)%Z
    | None => false
    end && negb (is_ascii_whitespace (base64Char v))
        && negb (base64Char v =? 61)%N).
  assert (H : p v = true).
  { apply (all_below_spec 64 p); [vm_compute; reflexivity | lia]. }
  subst p. cbv beta in H.
  apply andb_true_iff in H as [H H3]. apply andb_true_iff in H as [H1 H2].
  split; [| split].
  - destruct (base64Value (base64Char v)) as [w |]; [| discriminate].
    apply Z.eqb_eq in H1. congruence.
  - apply negb_true_iff. exact H2.
  - apply negb_true_iff in H3. apply N.eqb_neq. exact H3.
Qed.

Lemma jsstring_eqb_false (s t : jsstring) : s <> t -> jsstring_eqb s t = false.
Proof.
  intros H. unfold jsstring_eqb.
  destruct (list_eq_dec N.eq_dec s t); [contradiction | reflexivity].
Qed.

Lemma stripPadding_cons (c : code_unit) (s : jsstring) :
  c :: s <> [61; 61]%N -> c :: s <> [61]%N ->
  stripPadding (c :: s) = c :: stripPadding s.
Proof.
  intros H1 H2. cbn [stripPadding].
  change (lit "==") with [61; 61]%N. change (lit "=") with [61]%N.
  rewrite (jsstring_eqb_false _ _ H1), (jsstring_eqb_false _ _ H2).
  reflexivity.
Qed.

(** Induction on a list, three elements at a time. *)
Lemma list_ind3 {A : Type} (P : list A -> Prop) :
  P [] -> (forall x, P [x]) -> (forall x y, P [x; y]) ->
  (forall x y z l, P l -> P (x :: y :: z :: l)) ->
  forall l, P l.
Proof.
  intros H0 H1 H2 H3 l.
  assert (H : forall (n : nat) (l : list A), (List.length l <= n)%nat -> P l).
  { clear l. induction n as [| n IH]; intros l Hl.
    - destruct l; [exact H0 | cbn in Hl; lia].
    - destruct l as [| x [| y [| z l]]]; auto.
      apply H3. apply IH. cbn [List.length] in Hl. lia. }
  apply (H (List.length l)). lia.
Qed.

Ltac sextet_range :=
  match goal with
  | |- (0 <= _ < 64)%Z => Z.to_euclidean_division_equations; lia
  end.

(** What [btoa] returns, seen as [atob] reads it. *)
Lemma btoa_decodes (bs : list Z) :
  Forall (fun x => 0 <= x < 256)%Z bs ->
  exists vs : list Z,
    stripPadding (btoa bs) = map base64Char vs /\
    Forall (fun v => 0 <= v < 64)%Z vs /\
    decodeSextets vs = bs /\
    (List.length vs mod 4 <> 1)%nat /\
    (List.length (btoa bs) mod 4 = 0)%nat /\
    Forall (fun c => is_ascii_whitespace c = false) (btoa bs).
Proof.
  induction bs as [| x | x y | x y z bs IH] using list_ind3; intros Hall.
  - exists []. repeat split; try constructor. cbn. lia.
  - inversion Hall as [| ? ? Hx _]; subst.
    assert (V1 : (0 <= x / 4 < 64)%Z) by sextet_range.
    assert (V2 : (0 <= x mod 4 * 16 < 64)%Z) by sextet_range.
    destruct (base64Char_facts _ V1) as (_ & W1 & N1).
    destruct (base64Char_facts _ V2) as (_ & W2 & N2).
    exists [x / 4; x mod 4 * 16]%Z. cbn [btoa map].
    split.
    { rewrite !stripPadding_cons by congruence. reflexivity. }
    split; [repeat constructor; lia |].
    split; [cbn [decodeSextets]; f_equal;
            Z.to_euclidean_division_equations; lia |].
    split; [cbn; lia |]. split; [reflexivity |].
    repeat constructor; assumption.
  - inversion Hall as [| ? ? Hx Hall']; subst.
    inversion Hall' as [| ? ? Hy _]; subst.
    assert (V1 : (0 <= x / 4 < 64)%Z) by sextet_range.
    assert (V2 : (0 <= x mod 4 * 16 + y / 16 < 64)%Z) by sextet_range.
    assert (V3 : (0 <= y mod 16 * 4 < 64)%Z) by sextet_range.
    destruct (base64Char_facts _ V1) as (_ & W1 & N1).
    destruct (base64Char_facts _ V2) as (_ & W2 & N2).
    destruct (base64Char_facts _ V3) as (_ & W3 & N3).
    exists [x / 4; x mod 4 * 16 + y / 16; y mod 16 * 4]%Z. cbn [btoa map].
    split.
    { rewrite !stripPadding_cons by congruence. reflexivity. }
    split; [repeat constructor; lia |].
    split; [cbn [decodeSextets]; repeat f_equal;
            Z.to_euclidean_division_equations; lia |].
    split; [cbn; lia |]. split; [reflexivity |].
    repeat constructor; assumption.
  - inversion Hall as [| ? ? Hx Hall1]; subst.
    inversion Hall1 as [| ? ? Hy Hall2]; subst.
    inversion Hall2 as [| ? ? Hz Hall3]; subst.
    destruct (IH Hall3) as (vs & Hstrip & Hvs & Hdec & Hlen & Hmod & Hws).
    assert (V1 : (0 <= x / 4 < 64)%Z) by sextet_range.
    assert (V2 : (0 <= x mod 4 * 16 + y / 16 < 64)%Z) by sextet_range.
    assert (V3 : (0 <= y mod 16 * 4 + z / 64 < 64)%Z) by sextet_range.
    assert (V4 : (0 <= z mod 64 < 64)%Z) by sextet_range.
    destruct (base64Char_facts _ V1) as (_ & W1 & N1).
    destruct (base64Char_facts _ V2) as (_ & W2 & N2).
    destruct (base64Char_facts _ V3) as (_ & W3 & N3).
    destruct (base64Char_facts _ V4) as (_ & W4 & N4).
    exists ((x / 4) :: (x mod 4 * 16 + y / 16) :: (y mod 16 * 4 + z / 64)
              :: (z mod 64) :: vs)%Z.
    cbn [btoa map].
    split.
    { rewrite !stripPadding_cons by congruence.
      rewrite Hstrip. reflexivity. }
    split; [repeat (constructor; [lia |]); exact Hvs |].
    split.
    { cbn [decodeSextets]. rewrite Hdec.
      repeat f_equal; Z.to_euclidean_division_equations; lia. }
    cbn [List.length].
    split.
    { replace (S (S (S (S (List.length vs)))))
        with (List.length vs + 1 * 4)%nat by lia.
      rewrite Nat.Div0.mod_add. exact Hlen. }
    split.
    { replace (S (S (S (S (List.length (btoa bs))))))
        with (List.length (btoa bs) + 1 * 4)%nat by lia.
      rewrite Nat.Div0.mod_add. exact Hmod. }
    repeat (constructor; [assumption |]). exact Hws.
Qed.

Lemma base64Values_chars (vs : list Z) :
  Forall (fun v => 0 <= v < 64)%Z vs ->
  base64Values (map base64Char vs) = Some vs.
Proof.
  induction 1 as [| v vs Hv _ IH]; [reflexivity |].
  cbn [map base64Values].
  rewrite (proj1 (base64Char_facts v Hv)), IH. reflexivity.
Qed.

Lemma filter_all {A : Type} (f : A -> bool) (l : list A) :
  Forall (fun x => f x = true) l -> filter f l = l.
Proof.
  induction 1 as [| x l Hx _ IH]; [reflexivity |].
  cbn [filter]. rewrite Hx, IH. reflexivity.
Qed.

Lemma atob_inverts_btoa (bs : list Z) :
  Forall (fun x => 0 <= x < 256)%Z bs ->
  atob (btoa bs) = Some (map Z.to_N bs).
Proof.
  intros Hall.
  destruct (btoa_decodes bs Hall) as (vs & Hstrip & Hvs & Hdec & Hlen & Hmod & Hws).
  unfold atob. rewrite filter_all.
  2:{ eapply Forall_impl; [| exact Hws].
      intros c Hc. cbv beta in Hc. rewrite Hc. reflexivity. }
  rewrite Hmod. cbn [Nat.eqb]. rewrite Hstrip, length_map.
  destruct (List.length vs mod 4 =? 1)%nat eqn:E;
    [apply Nat.eqb_eq in E; contradiction |].
  rewrite base64Values_chars by exact Hvs. rewrite Hdec. reflexivity.
Qed.

(** X25. [atob] undoes [btoa]: the base64 text of a run of bytes decodes
    to the same bytes. *)
Theorem atob_btoa (bs : list Z) :
  Forall (fun x => 0 <= x < 256)%Z bs ->
  atob (btoa bs) = Some (map Z.to_N bs).
Proof. exact (atob_inverts_btoa bs). Qed.

Lemma atob_btoa_witness :
  atob (btoa [77; 97]%Z) = Some [77; 97]%N.
Proof.
  apply (atob_btoa [77; 97]%Z). repeat constructor; lia.
Defined.

Lemma bytesOf_range (buffer : buffer) :
  Forall (fun x => 0 <= x < 256)%Z (bytesOf buffer).
Proof.
  unfold bytesOf. apply Forall_forall. intros x Hx.
  apply in_map_iff in Hx as [b [<- _]].
  pose proof (Byte.to_N_bounded b). lia.
Qed.

Lemma bytesOf_back (buffer : buffer) :
  map (fun c => byteOfZ (Z.of_N c)) (map Z.to_N (bytesOf buffer)) = buffer.
Proof.
  unfold bytesOf. rewrite !map_map.
  induction buffer as [| b buffer IH]; [reflexivity |].
  cbn [map]. rewrite IH. f_equal.
  pose proof (Byte.to_N_bounded b) as Hb.
  unfold byteOfZ. rewrite Z2N.id by lia.
  rewrite Z.mod_small by lia. rewrite N2Z.id, Byte.of_to_N. reflexivity.
Qed.

Lemma btoa_nonempty (bs : list Z) : bs <> [] -> btoa bs <> [].
Proof.
  destruct bs as [| x [| y [| z bs]]]; intros H; [contradiction | | |];
    cbn [btoa]; discriminate.
Qed.

Lemma parse_empty : parseICCProfile [] = Err RangeError.
Proof. reflexivity. Qed.

(** X26. The cached profile survives a restart: after a successful
    import, restoring from the cached base64 text gives the working
    colour space that the import installed, and keeps the text. *)
Theorem restored_profile (buffer : buffer) (cs : WorkingCS) (st st0 : AppState) :
  parseICCProfile buffer = Ok cs ->
  let imported := handleICCImport (Some buffer) st in
  let restored := restoreICC (iccProfileBase64 imported) st0 in
  workingCS imported = cs /\
  workingCS restored = cs /\
  iccProfileBase64 restored = iccProfileBase64 imported.
Proof.
  intros Hparse. cbv zeta. unfold handleICCImport. rewrite Hparse.
  cbn [workingCS iccProfileBase64]. fold (bytesOf buffer).
  assert (Hne : buffer <> []).
  { intros ->. rewrite parse_empty in Hparse. discriminate. }
  assert (Hb : btoa (bytesOf buffer) <> []).
  { apply btoa_nonempty. unfold bytesOf. destruct buffer; [contradiction |].
    discriminate. }
  unfold restoreICC.
  destruct (btoa (bytesOf buffer)) as [| c s] eqn:Etext; [contradiction |].
  rewrite <- Etext, atob_inverts_btoa by apply bytesOf_range.
  rewrite bytesOf_back, Hparse. cbn [workingCS iccProfileBase64].
  repeat split.
Qed.

Lemma restored_profile_witness :
  exists cs : WorkingCS,
    parseICCProfile srgbPrimariesProfile = Ok cs /\
    workingCS
      (restoreICC
         (iccProfileBase64
            (handleICCImport (Some srgbPrimariesProfile)
               {| workingCS := createSRGBWorkingCS;
                  iccProfileBase64 := None; alerts := [] |}))
         {| workingCS := createSRGBWorkingCS;
            iccProfileBase64 := None; alerts := [] |}) = cs.
Proof.
  destruct srgbPrimariesProfile_parses as (cs & M & H & _).
  exists cs. split; [exact H |].
  exact (proj1 (proj2 (restored_profile srgbPrimariesProfile cs _ _ H))).
Defined.

(** ** The tag table *)

Lemma view_ok (buf : buffer) (off : Z) (n : nat) :
  (0 <= off)%Z -> (off + Z.of_nat n <= byteLength buf)%Z ->
  exists bs : list byte, view buf off n = Ok bs.
Proof.
  intros H0 H1. unfold view.
  rewrite (proj2 (Z.leb_le _ _) H0), (proj2 (Z.leb_le _ _) H1).
  eexists. reflexivity.
Qed.

Lemma view_out_of_bounds (buf : buffer) (off : Z) (n : nat) :
  (byteLength buf < off + Z.of_nat n)%Z -> view buf off n = Err RangeError.
Proof.
  intros H. unfold view.
  rewrite (proj2 (Z.leb_gt _ _) H), andb_false_r. reflexivity.
Qed.

Lemma getUint32_ok (buf : buffer) (off : Z) :
  (0 <= off)%Z -> (off + 4 <= byteLength buf)%Z ->
  exists x : Z, getUint32 buf off = Ok x.
Proof.
  intros H0 H1. unfold getUint32.
  destruct (view_ok buf off 4 H0) as [bs ->]; [exact H1 |].
  eexists. reflexivity.
Qed.

Lemma getUint32_past_end (buf : buffer) (off : Z) :
  (byteLength buf < off + 4)%Z -> getUint32 buf off = Err RangeError.
Proof.
  intros H. unfold getUint32. rewrite view_out_of_bounds by exact H.
  reflexivity.
Qed.

(** The loop reads [n] entries when they all lie in the buffer. *)
Lemma readTags_ok (dv : buffer) (n : nat) (i : Z) (acc : tag_table) :
  (0 <= i)%Z -> (132 + 12 * (i + Z.of_nat n) <= byteLength dv)%Z ->
  exists tags : tag_table,
    readTags dv n i acc = Ok tags /\
    List.length tags = (n + List.length acc)%nat.
Proof.
  revert i acc. induction n as [| n IH]; intros i acc Hi Hlen.
  - exists acc. split; reflexivity.
  - cbn [readTags].
    destruct (getUint32_ok dv (132 + i * 12 + 4)) as [o ->]; [lia | lia |].
    destruct (getUint32_ok dv (132 + i * 12 + 8)) as [s ->]; [lia | lia |].
    cbn [bind].
    destruct (IH (i + 1)%Z
                ((signature dv (132 + i * 12), {| offset := o; size := s |})
                   :: acc)) as [tags [Hr Hl]]; [lia | lia |].
    exists tags. split; [exact Hr |]. rewrite Hl. cbn [List.length]. lia.
Qed.

(** The loop throws when one of the [n] entries does not. *)
Lemma readTags_out_of_bounds (dv : buffer) (n : nat) (i : Z) (acc : tag_table) :
  (0 <= i)%Z -> (byteLength dv < 132 + 12 * (i + Z.of_nat n))%Z ->
  (0 < n)%nat ->
  readTags dv n i acc = Err RangeError.
Proof.
  revert i acc. induction n as [| n IH]; intros i acc Hi Hlen Hn; [lia |].
  cbn [readTags].
  destruct (getUint32 dv (132 + i * 12 + 4)) as [o | e] eqn:E1; cbn [bind].
  2:{ f_equal. eapply getUint32_error. exact E1. }
  destruct (getUint32 dv (132 + i * 12 + 8)) as [s | e] eqn:E2; cbn [bind].
  2:{ f_equal. eapply getUint32_error. exact E2. }
  destruct n as [| n'].
  - (* the last entry: its second read was out of bounds *)
    rewrite getUint32_past_end in E2 by lia. discriminate.
  - apply IH; lia.
Qed.

(** X27. The tag table: with the tag count n at offset 128, the table is
    read when its n entries of 12 bytes, from offset 132, lie in the
    buffer, and then it has n entries; otherwise the read ends in a
    [RangeError]. *)
Theorem tag_table_bounds (buffer : buffer) (n : Z) :
  getUint32 buffer 128 = Ok n ->
  ((132 + 12 * n <= byteLength buffer)%Z ->
   exists tags : tag_table,
     tagsOf buffer = Ok tags /\ List.length tags = Z.to_nat n) /\
  ((byteLength buffer < 132 + 12 * n)%Z ->
   tagsOf buffer = Err RangeError /\
   parseICCProfile buffer = Err RangeError).
Proof.
  intros Hn. pose proof (getUint32_range _ _ _ Hn) as Hr.
  unfold tagsOf, parseICCProfile. rewrite Hn. cbn [bind]. split.
  - intros Hlen.
    destruct (readTags_ok buffer (Z.to_nat n) 0 []) as [tags [Hread Hl]];
      [lia | lia |].
    exists tags. split; [exact Hread |]. rewrite Hl. cbn [List.length]. lia.
  - intros Hlen.
    assert (H132 : (132 <= byteLength buffer)%Z).
    { destruct (Z_lt_le_dec (byteLength buffer) 132) as [Hlt | Hge];
        [| exact Hge].
      rewrite getUint32_past_end in Hn by lia. discriminate. }
    rewrite readTags_out_of_bounds by lia. split; reflexivity.
Qed.

Lemma tag_table_bounds_witness :
  exists tags : tag_table,
    tagsOf srgbPrimariesProfile = Ok tags /\ List.length tags = Z.to_nat 3.
Proof.
  apply (proj1 (tag_table_bounds srgbPrimariesProfile 3
                  ltac:(vm_compute; reflexivity))).
  vm_compute. discriminate.
Defined.

(** X28. A number read by [readS15Fixed16] is a multiple of 1/65536 in
    [-32768, 32768). *)
Theorem readS15Fixed16_range (dv : buffer) (off : Z) (v : R) :
  readS15Fixed16 dv off = Ok v ->
  (exists raw : Z, v = IZR raw / 65536) /\ -32768 <= v < 32768.
Proof.
  unfold readS15Fixed16, getInt32. intros H.
  destruct (getUint32 dv off) as [u |] eqn:Eu; cbn [bind] in H;
    [| discriminate].
  apply getUint32_range in Eu. injection H as <-.
  split; [eexists; reflexivity |].
  change (Z.pow_pos 2 31) with 2147483648%Z.
  change (Z.pow_pos 2 32) with 4294967296%Z.
  destruct (u <? 2147483648)%Z eqn:E.
  - apply Z.ltb_lt in E.
    assert (0 <= IZR u) by (apply IZR_le; lia).
    assert (IZR u < 2147483648) by (apply IZR_lt; lia).
    lra.
  - apply Z.ltb_ge in E.
    assert (-2147483648 <= IZR (u - 4294967296)) by (apply IZR_le; lia).
    assert (IZR (u - 4294967296) < 0) by (apply IZR_lt; lia).
    lra.
Qed.

Lemma readS15Fixed16_range_witness :
  -32768 <= 28578 / 65536 < 32768.
Proof.
  refine (proj2 (readS15Fixed16_range srgbPrimariesProfile 176
                   (28578 / 65536) _)).
  unfold readS15Fixed16.
  replace (getInt32 srgbPrimariesProfile 176) with (@Ok exn Z 28578%Z)
    by (vm_compute; reflexivity).
  reflexivity.
Defined.

(** ** The a,b picker *)

(** A byte darkened to 15 percent. *)
Lemma darkened_byte (k : Z) :
  (0 <= k <= 255)%Z -> (0 <= Num.round (IZR k * 0.15) <= 38)%Z.
Proof.
  intros Hk.
  assert (H0 : 0 <= IZR k) by (apply IZR_le; lia).
  assert (H1 : IZR k <= 255) by (apply IZR_le; lia).
  unfold Num.round.
  pose proof (Zfloor_bound (IZR k * 0.15 + 1 / 2)) as Hb.
  split.
  - assert (H : (-1 < Zfloor (IZR k * 0.15 + 1 / 2))%Z)
      by (apply lt_IZR; lra).
    lia.
  - assert (H : (Zfloor (IZR k * 0.15 + 1 / 2) < 39)%Z)
      by (apply lt_IZR; lra).
    lia.
Qed.

(** X29. Every pixel of the a,b picker has its bytes in 0..255 and is
    opaque; a pixel out of the working gamut has its colour bytes at most
    73 (at most 38 off the stripes), so that [Math.min(255, ...)] never
    cuts a value. *)
Theorem abPickerPixel_bytes (wcs : WorkingCS) (p3 : bool) (L : R) (x y : Z) :
  let '(byteR, byteG, byteB, alpha) := abPickerPixel wcs p3 L x y in
  ((0 <= byteR <= 255)%Z /\ (0 <= byteG <= 255)%Z /\ (0 <= byteB <= 255)%Z /\
   alpha = 255%Z) /\
  (isInWorkingGamut wcs L (fst (abPickerValue x y)) (snd (abPickerValue x y))
   = false ->
   (byteR <= 73)%Z /\ (byteG <= 73)%Z /\ (byteB <= 73)%Z /\
   (((x + y) mod 6 <> 0)%Z ->
    (byteR <= 38)%Z /\ (byteG <= 38)%Z /\ (byteB <= 38)%Z)).
Proof.
  unfold abPickerPixel.
  destruct (abPickerValue x y) as [aValue bValue]. cbn [fst snd].
  destruct (oklabToLinearSRGB L aValue bValue) as [[linearR linearG] linearB].
  set (bytes :=
    if p3 then
      let '(p3R, p3G, p3B) := linearSRGBToLinearP3 linearR linearG linearB in
      (linearToColorByte p3R, linearToColorByte p3G, linearToColorByte p3B)
    else
      (linearToColorByte linearR, linearToColorByte linearG,
       linearToColorByte linearB)).
  assert (Hbytes : (0 <= fst (fst bytes) <= 255)%Z /\
                   (0 <= snd (fst bytes) <= 255)%Z /\
                   (0 <= snd bytes <= 255)%Z).
  { subst bytes. destruct p3.
    - destruct (linearSRGBToLinearP3 linearR linearG linearB) as [[p3R p3G] p3B].
      cbn [fst snd]. repeat split; apply colorByte_bounds.
    - cbn [fst snd]. repeat split; apply colorByte_bounds. }
  destruct bytes as [[byteR byteG] byteB]. cbn [fst snd] in Hbytes.
  destruct Hbytes as (HR & HG & HB).
  pose proof (darkened_byte byteR HR) as DR.
  pose proof (darkened_byte byteG HG) as DG.
  pose proof (darkened_byte byteB HB) as DB.
  destruct (isInWorkingGamut wcs L aValue bValue); cbn [negb].
  - split; [repeat split; lia | discriminate].
  - destruct ((x + y) mod 6 <? 1)%Z eqn:E.
    + apply Z.ltb_lt in E.
      pose proof (Z.mod_pos_bound (x + y) 6 ltac:(lia)) as Hm.
      split; [repeat split; lia |]. intros _.
      split; [lia |]. split; [lia |]. split; [lia |]. intros Hne. lia.
    + split; [repeat split; lia |]. intros _.
      split; [lia |]. split; [lia |]. split; [lia |]. intros _. lia.
Qed.

Lemma abPickerPixel_bytes_witness :
  let '(byteR, byteG, byteB, alpha) :=
    abPickerPixel createSRGBWorkingCS false 2 299 0 in
  (byteR <= 73)%Z.
Proof.
  pose proof (abPickerPixel_bytes createSRGBWorkingCS false 2 299 0) as H.
  destruct (abPickerPixel createSRGBWorkingCS false 2 299 0)
    as [[[byteR byteG] byteB] alpha].
  assert (Hout : isInWorkingGamut createSRGBWorkingCS 2
                   (fst (abPickerValue 299 0)) (snd (abPickerValue 299 0))
                 = false).
  { apply too_bright_for_sRGB;
      unfold abPickerValue, AB_RANGE, PICKER_SIZE; cbn [fst snd];
      change (300 - 1)%Z with 299%Z; lra. }
  exact (proj1 (proj2 H Hout)).
Defined.

(** X30. The three maps of the a,b picker agree: the crosshair of a
    state whose (a, b) is that of the pixel in column x and row y is
    drawn at (x, y), and a pointer at that pixel's fraction of the canvas
    selects the clamped colour of that pixel. *)
Theorem abPicker_maps_agree (wcs : WorkingCS) (x y : Z) (st : Picker) :
  abPickerCursor
    (setCurrent (currentL st) (fst (abPickerValue x y))
       (snd (abPickerValue x y)) st) = (IZR x, IZR y) /\
  ((0 <= x <= PICKER_SIZE - 1)%Z -> (0 <= y <= PICKER_SIZE - 1)%Z ->
   let st' :=
     updateABFromPointer wcs (IZR x / IZR (PICKER_SIZE - 1))
       (IZR y / IZR (PICKER_SIZE - 1)) st in
   (currentA st', currentB st') =
   clampToWorkingGamut wcs (currentL st) (fst (abPickerValue x y))
     (snd (abPickerValue x y))).
Proof.
  unfold abPickerCursor, abPickerValue, updateABFromPointer, AB_RANGE,
    PICKER_SIZE.
  change (300 - 1)%Z with 299%Z.
  cbn [fst snd currentA currentB currentL setCurrent].
  split.
  - apply (f_equal2 pair); field; lra.
  - intros Hx Hy.
    assert (0 <= IZR x) by (apply IZR_le; lia).
    assert (IZR x <= 299) by (apply IZR_le; lia).
    assert (0 <= IZR y) by (apply IZR_le; lia).
    assert (IZR y <= 299) by (apply IZR_le; lia).
    rewrite !clamp01_id by (split; [apply Rmult_le_pos; lra | lra]).
    match goal with
    | |- _ = clampToWorkingGamut _ _ ?A ?B =>
        replace (IZR x / 299 * 2 * 0.4 - 0.4) with A by lra;
        replace (0.4 - IZR y / 299 * 2 * 0.4) with B by lra;
        destruct (clampToWorkingGamut wcs (currentL st) A B) as [a b]
    end.
    reflexivity.
Qed.

Lemma abPicker_maps_agree_witness :
  let st' := updateABFromPointer createSRGBWorkingCS (IZR 299 / IZR (300 - 1))
               (IZR 0 / IZR (300 - 1)) initialPicker in
  (currentA st', currentB st') =
  clampToWorkingGamut createSRGBWorkingCS (currentL initialPicker)
    (fst (abPickerValue 299 0)) (snd (abPickerValue 299 0)).
Proof.
  apply (proj2 (abPicker_maps_agree createSRGBWorkingCS 299 0 initialPicker));
    unfold PICKER_SIZE; lia.
Defined.
